(** * nodejs-polars: the DataFrame wrapper of [polars/dataframe.ts]

    The TypeScript object built by [_DataFrame] is a thin wrapper around a
    native frame [_df]: every method normalises its arguments and then calls
    methods of the native frame.  The wrapper methods are embedded as
    programs over those native calls ([Prog]); what a native call does to the
    store of native frames is given separately ([Native]).  [_DataFrame]
    returns the wrapper behind a Proxy whose [get] trap answers a column
    name with that column, so a member that a method reads from [this] is
    shadowed by a column of the same name. *)

From Stdlib Require Import ZArith QArith String Ascii List Permutation Lia.
From stdpp Require Import base decidable option list strings numbers sorting.

Set Default Proof Using "Type".

(** ** Host-language notions *)

Module Js.

(** Error kinds raised by the native layer: the engine's error taxonomy,
    and two more for a row position outside the frame and for a handle
    that holds no frame. *)
Inductive ErrorKind :=
| ColumnNotFound | DuplicateColumn | LengthMismatch | SchemaMismatch
| TypeCoercionFailure | MissingJoinKey | KeyCountMismatch
| ExplodeLengthMismatch | InvalidArgument | OutOfBounds | DanglingHandle.

(** What a [throw] carries: [new TypeError(msg)], [new Error(msg)], or an
    error surfaced by a native call. *)
Inductive Exception :=
| TypeError (msg : string)
| Error (msg : string)
| NativeError (kind : ErrorKind).

(** A number of the host language. Finite values are kept exact. *)
Inductive Number :=
| NaN
| Infinity (negative : bool)
| Finite (q : Q).

Definition isNaN (x : Number) : bool :=
  match x with NaN => true | _ => false end.

Definition of_nat (n : nat) : Number := Finite (inject_Z (Z.of_nat n)).

(** The number as a row or column position: a non-negative integer. *)
Definition as_index (x : Number) : option nat :=
  match x with
  | Finite q =>
      let r := Qred q in
      if ((Qden r =? 1)%positive && (0 <=? Qnum r)%Z)%bool
      then Some (Z.to_nat (Qnum r)) else None
  | _ => None
  end.

(** Property keys are strings or symbols. *)
Inductive PropertyKey :=
| PString (s : string)
| PSymbol (description : string).

(** [T | T[]] *)
Inductive ValueOrArray (A : Type) :=
| Single (a : A)
| Multiple (l : list A).
Arguments Single {A} a.
Arguments Multiple {A} l.

(** [[x].flat(k)] on a value-or-array of depth one. *)
Definition flat {A} (x : ValueOrArray A) : list A :=
  match x with Single a => [a] | Multiple l => l end.

(** Truthiness of a value-or-array of strings: only the empty string is
    falsy, every array is truthy. *)
Definition truthy (x : ValueOrArray string) : bool :=
  match x with
  | Single s => negb (String.eqb s "")
  | Multiple _ => true
  end.

(** *** Ordinary objects used as string-keyed records

    Entries are kept in creation order.  Key enumeration
    ([Object.keys], [Object.entries]) lists the keys that are array
    indices first, in ascending numeric order, and then the remaining
    string keys in creation order. *)

Definition Object (V : Type) := list (string * V).

Definition get {V} (o : Object V) (k : string) : option V :=
  snd <$> List.find (fun kv => String.eqb (fst kv) k) o.

Fixpoint set {V} (o : Object V) (k : string) (v : V) : Object V :=
  match o with
  | [] => [(k, v)]
  | (k', v') :: o' =>
      if String.eqb k' k then (k', v) :: o' else (k', v') :: set o' k v
  end.

Definition is_digit (c : ascii) : bool :=
  let n := nat_of_ascii c in ((48 <=? n) && (n <=? 57))%nat.

Fixpoint digits_value (s : string) (acc : N) : option N :=
  match s with
  | EmptyString => Some acc
  | String c s' =>
      if is_digit c
      then digits_value s' (acc * 10 + N.of_nat (nat_of_ascii c - 48))%N
      else None
  end.

(** An array index is a canonical decimal numeral (no sign, no leading
    zero unless the key is "0") whose value is below 2^32 - 1. *)
Definition array_index (k : string) : option N :=
  match k with
  | EmptyString => None
  | String c rest =>
      if (Ascii.eqb c "0" && negb (String.eqb rest ""))%bool then None
      else match digits_value k 0%N with
           | Some n => if (n <? 4294967295)%N then Some n else None
           | None => None
           end
  end.

Definition is_array_index (k : string) : bool :=
  match array_index k with Some _ => true | None => false end.

Definition index_of (k : string) : N := default 0%N (array_index k).

Fixpoint insert_by_index (k : string) (ks : list string) : list string :=
  match ks with
  | [] => [k]
  | k' :: ks' =>
      if (index_of k <=? index_of k')%N then k :: k' :: ks'
      else k' :: insert_by_index k ks'
  end.

Definition sort_by_index (ks : list string) : list string :=
  foldr insert_by_index [] ks.

(** Key order of an object whose keys were created in the order [ks]. *)
Definition key_order (ks : list string) : list string :=
  sort_by_index (List.filter is_array_index ks)
    ++ List.filter (fun k => negb (is_array_index k)) ks.

Definition keys {V} (o : Object V) : list string := key_order (fst <$> o).

Definition entries {V} (o : Object V) : list (string * V) :=
  omap (fun k => (fun v => (k, v)) <$> get o k) (keys o).

(** Names every ordinary object inherits from [Object.prototype]; a
    property read such as [o[name]] finds them when [o] has no own
    property of that name. *)
Definition object_prototype_members : list string :=
  [ "constructor"; "__defineGetter__"; "__defineSetter__"; "hasOwnProperty";
    "__lookupGetter__"; "__lookupSetter__"; "isPrototypeOf";
    "propertyIsEnumerable"; "toString"; "valueOf"; "__proto__";
    "toLocaleString" ].

Definition inherited (k : string) : bool :=
  bool_decide (k ∈ object_prototype_members).

End Js.

(** ** Data model *)

Inductive TimeUnit := Nanoseconds | Microseconds | Milliseconds.

#[warnings="-register-all"]
Inductive DataType :=
| Null | Bool
| Int8 | Int16 | Int32 | Int64
| UInt8 | UInt16 | UInt32 | UInt64
| Float32 | Float64
| Utf8 | Date
| Datetime (unit : TimeUnit)
| Categorical
| List (inner : DataType)
| Struct (fields : list (string * DataType)).

(** A present value of a column. *)
Inductive Value :=
| VInt (z : Z)
| VBool (b : bool)
| VStr (s : string).

(** One slot of a column: [None] is null (validity bit off). *)
Abbreviation cell := (option Value) (only parsing).

#[global] Instance Value_eq_dec : EqDecision Value.
Proof. solve_decision. Defined.

Record Series := mkSeries {
  name : string;
  dtype : DataType;
  values : list cell;
}.

(** The native frame: an ordered sequence of columns. *)
Abbreviation frame := (list Series) (only parsing).

Module Frame.

Definition columns (f : frame) : list string := name <$> f.
Definition width (f : frame) : nat := length f.
Definition height (f : frame) : nat :=
  match f with
  | [] => 0
  | s :: _ => length (values s)
  end.

(** In a well-formed frame all columns are as long as the frame is high. *)
Definition equal_lengths (f : frame) : Prop :=
  Forall (fun s => length (values s) = height f) f.

Definition column (f : frame) (n : string) : option Series :=
  List.find (fun s => String.eqb (name s) n) f.

(** Row [i], one cell per column (null where a column is too short). *)
Definition row (f : frame) (i : nat) : list cell :=
  (fun s => default None (values s !! i)) <$> f.

Definition rows (f : frame) : list (list cell) :=
  row f <$> seq 0 (height f).

(** The frame made of the rows at positions [idx], in that order. *)
Definition gather (idx : list nat) (s : Series) : Series :=
  mkSeries (name s) (dtype s)
           ((fun i => default None (values s !! i)) <$> idx).
Definition take_rows (idx : list nat) (f : frame) : frame :=
  gather idx <$> f.

End Frame.

(** ** Expressions of the lazy sublanguage

    Expressions come from [./lazy/expr] and [./lazy/functions]; the wrapper
    only builds the element aggregates used by [pivot] and otherwise passes
    expressions along unopened. *)

Inductive Aggregate := First | Sum | Max | Min | Mean | Median | Last | Count.

Inductive Expr :=
| col (n : string)
| element
| agg (a : Aggregate) (e : Expr)
| opaque_expr (id : nat).

Definition ExprOrString := (string + Expr)%type.

(** [ColumnsOrExpr]: a column name, an expression, or an array of them. *)
Inductive ColumnsOrExpr :=
| ByName (n : string)
| ByExpr (e : Expr)
| ByArray (l : list ExprOrString).

Inductive Keep := KeepFirst | KeepLast.

(** A sequence of column names handed to [transpose]: an array, or any other
    iterable, given by the item its iterator yields at each step ([None]
    once it is done). *)
Inductive Iterable :=
| IArray (l : list string)
| IIterator (next : nat → option string).

(** The aggregate handed to the native pivot: an expression, or whatever
    else the lookup in the table of aggregates produced. *)
Inductive PivotFn :=
| FnExpr (e : Expr)
| FnPrototypeMember (member : string).

(** Pipelines run through [this.lazy() ... .collectSync()]. *)
Inductive LazyOp :=
| LFilter (predicate : Expr)
| LSort (by_ : ColumnsOrExpr) (descending maintain_order : bool).

Record CollectOptions := mkCollect {
  noOptimization : option bool;
  stringCache : option bool;
}.

(** ** Native frames and calls into the native layer *)

Abbreviation handle := nat (only parsing).

(** The wrapper object: [_DataFrame(_df)]. *)
Record DataFrame := _DataFrame { _df : handle }.

Definition inner (this : DataFrame) : handle := _df this.

Import Js.

Inductive NativeCall : Type → Type :=
| NClone (h : handle) : NativeCall handle
| NColumns (h : handle) : NativeCall (list string)
| NHeight (h : handle) : NativeCall nat
| NWidth (h : handle) : NativeCall nat
| NGetColumns (h : handle) : NativeCall (list Series)
| NColumn (h : handle) (n : string) : NativeCall Series
| NToRow (h : handle) (idx : Number) : NativeCall (list cell)
| NDrop (h : handle) (n : string) : NativeCall handle
| NDropInPlace (h : handle) (n : string) : NativeCall Series
| NRename (h : handle) (column new_col : string) : NativeCall unit
| NInsertAtIdx (h : handle) (idx : Number) (s : Series) : NativeCall unit
| NReplaceAtIdx (h : handle) (idx : Number) (s : Series) : NativeCall unit
| NHead (h : handle) (length : Number) : NativeCall handle
| NUnique (h : handle) (maintainOrder : bool)
    (subset : option (ValueOrArray string)) (keep : Keep) : NativeCall handle
| NSort (h : handle) (by_ : option ColumnsOrExpr)
    (descending nulls_last maintain_order : bool) : NativeCall handle
| NJoin (h other : handle) (leftOn rightOn : option (list string))
    (how : string) (suffix : option string) : NativeCall handle
| NJoinColumn (h : handle) (other : Series)
    (leftOn rightOn : option (list string))
    (how : string) (suffix : option string) : NativeCall handle
| NPivotExpr (h : handle) (values index columns : option (list string))
    (fn : PivotFn) (maintainOrder sortColumns : bool)
    (separator : option string) : NativeCall handle
| NSampleN (h : handle) (n : Number) (withReplacement shuffle : bool)
    (seed : option Number) : NativeCall handle
| NSampleFrac (h : handle) (frac : Number) (withReplacement shuffle : bool)
    (seed : option Number) : NativeCall handle
| NTranspose (h : handle) (keep_names_as : option string)
    (names : option (list string)) : NativeCall handle
| NLazyCollect (h : handle) (op : LazyOp) (opts : option CollectOptions)
    : NativeCall handle.

(** ** Wrapper programs *)

Inductive Prog (A : Type) : Type :=
| Ret (a : A)
| Throw (e : Exception)
| Do {R : Type} (c : NativeCall R) (k : R → Prog A).
Arguments Ret {A} a.
Arguments Throw {A} e.
Arguments Do {A R} c k.

Fixpoint bind {A B} (p : Prog A) (f : A → Prog B) : Prog B :=
  match p with
  | Ret a => f a
  | Throw e => Throw e
  | Do c k => Do c (fun r => bind (k r) f)
  end.

Definition call {R} (c : NativeCall R) : Prog R := Do c Ret.

Declare Scope prog_scope.
Delimit Scope prog_scope with prog.
Notation "'let*' x ':=' p 'in' q" := (bind p (fun x => q))
  (at level 10, x name, p at level 100, q at level 200) : prog_scope.
Notation "p '>>' q" := (bind p (fun _ => q))
  (at level 100, right associativity) : prog_scope.
Open Scope prog_scope.

(** [for (const x of l) body(x)] *)
Fixpoint for_of {A} (l : list A) (body : A → Prog unit) : Prog unit :=
  match l with
  | [] => Ret tt
  | x :: l' => body x >> for_of l' body
  end.

(** [wrap(method, ...args)]: the native result wrapped as a DataFrame. *)
Definition wrap (c : NativeCall handle) : Prog DataFrame :=
  Do c (fun h => Ret (_DataFrame h)).

(** The assignment [o[k] = v] of an array or another object [v] to a
    property of an ordinary object.  ["__proto__"] names the accessor every
    ordinary object inherits: assigning an object to it replaces the
    prototype and creates no own property. *)
Definition assign {V} (o : Js.Object V) (k : string) (v : V) : Js.Object V :=
  if String.eqb k "__proto__" then o else Js.set o k v.

(** ** Members read through the Proxy

    Every DataFrame a caller holds is the Proxy that [_DataFrame] returns,
    so inside a method [this] is that Proxy, and so is the clone a method
    works on.  A read [d.name] goes through the [get] trap, which answers
    with [target.getColumn(name)] when [target.columns] includes [name];
    only otherwise does it reach the member of the wrapper object.  (The
    names read this way are identifiers, which [Number] turns into [NaN],
    so the trap's test for a row number fails.)

    The calls by which [sort] and [sample] re-enter themselves and the
    entry [lazy()] of the lazy pipeline are embedded as the calls
    themselves; what is stated about them concerns the arguments they
    forward and the receiver's frame. *)

(** The TypeError of a call [receiver.name(...)] whose callee is not a
    function. *)
Definition not_a_function (receiver name : string) : Exception :=
  TypeError (receiver +:+ "." +:+ name +:+ " is not a function").

(** [d.name]: [column] continues with the column of that name, [own] with
    the wrapper's own member. *)
Definition member {A} (d : DataFrame) (name : string)
    (column : Series → Prog A) (own : Prog A) : Prog A :=
  let* cols := call (NColumns (_df d)) in
  if bool_decide (name ∈ cols) then
    let* c := call (NColumn (_df d) name) in column c
  else own.

(** [d.name(...)], written [receiver.name(...)] in the source: calling a
    column throws, calling the wrapper's method runs its body. *)
Definition method_call {A} (receiver : string) (d : DataFrame)
    (name : string) (body : Prog A) : Prog A :=
  member d name (fun _ => Throw (not_a_function receiver name)) body.

(** ** Helpers of [./utils]

    [columnOrColumns] and [columnOrColumnsStrict] live in [./utils], which
    is not among the sources at hand.  The wrapper tests the result of
    [columnOrColumns] for truthiness and hands it to the native layer as a
    list of names, and the spec's join key is an ordered list of column
    names. *)

(** Modelled from the spec: [columnOrColumnsStrict] of [./utils]; a
    selection of columns, flattened to the list of its names. *)
Definition columnOrColumnsStrict (columns : list (ValueOrArray string))
  : list string :=
  mjoin (flat <$> columns).

(** Modelled from the spec: [columnOrColumns] of [./utils]; a missing (or
    empty-string) selection stays undefined, anything else is flattened to
    the list of its names. *)
Definition columnOrColumns (columns : option (ValueOrArray string))
  : option (list string) :=
  match columns with
  | Some c => if truthy c then Some (columnOrColumnsStrict [c]) else None
  | None => None
  end.

(** ** Argument shapes of the wrapper methods *)

Record JoinOptions := mkJoinOptions {
  on : option (ValueOrArray string);
  leftOn : option (ValueOrArray string);
  rightOn : option (ValueOrArray string);
  how : option string;
  suffix : option string;
}.

Inductive AggregateFunc :=
| AggName (s : string)
| AggExpr (e : Expr).

Record PivotOptions := mkPivotOptions {
  pivot_values : option (ValueOrArray string);
  index : option (ValueOrArray string);
  pivot_columns : option (ValueOrArray string);
  maintainOrder : option bool;
  sortColumns : option bool;
  aggregateFunc : option AggregateFunc;
  separator : option string;
}.

(** First argument of [sample]: a row count, an options object, or
    [undefined]. *)
Inductive SampleOpts :=
| SampleUndefined
| SampleNumber (n : Number)
| SampleObject (n frac : option Number) (withReplacement : option bool).

(** The argument list of a [sample] call; [arguments.length] is its length,
    so a call without arguments is told apart from one whose arguments are
    all [undefined]. *)
Inductive SampleArguments :=
| NoArguments
| Arguments_ (opts : SampleOpts) (frac : option Number)
    (withReplacement : option bool) (seed : option Number).

(** First argument of [sort]: what to sort by, or the options object
    [{by, descending, maintain_order}]. *)
Inductive SortArg :=
| SortBy (by_ : ColumnsOrExpr)
| SortOptions (by_ : option ColumnsOrExpr)
    (descending maintain_order : option bool).

Record TransposeOptions := mkTransposeOptions {
  includeHeader : option bool;
  headerName : option string;
  columnNames : option Iterable;
}.

(** First argument of [unique]: the [maintainOrder] flag, or the options
    object [{maintainOrder, subset, keep}]. *)
Inductive UniqueOpts :=
| UniqueFlag (maintainOrder : bool)
| UniqueObject (maintainOrder : option bool)
    (subset : option (ValueOrArray string)) (keep : option Keep).

(** The handle returned by [groupBy]: source frame and key columns. *)
Record GroupBy := _GroupBy {
  source : handle;
  group_keys : list string;
}.

(** ** The methods of the object built by [_DataFrame] *)

(** [takeNItems(iterable, n)], local to [transpose]: the loop pulls the
    next item, stops when [i >= n], and otherwise pushes the item.  No more
    than [n + 1] items are ever pulled, which bounds the loop. *)
Fixpoint takeNItems_loop (next : nat → option string) (n i : nat)
    (result : list string) (pulls : nat) : list string :=
  match pulls with
  | 0 => result
  | S pulls' =>
      match next i with
      | None => result
      | Some item =>
          if (n <=? i)%nat then result
          else takeNItems_loop next n (S i) (result ++ [item]) pulls'
      end
  end.

Definition takeNItems (next : nat → option string) (n : nat) : list string :=
  takeNItems_loop next n 0 [] (S n).

(** The value [transpose] assigns to [options.columnNames]:
    [columnNames.slice(0, this.height)] for an array,
    [takeNItems(columnNames, this.height)] otherwise. *)
Definition transpose_columnNames (columnNames : Iterable) (height : nat)
  : list string :=
  match columnNames with
  | IArray l => take height l
  | IIterator next => takeNItems next height
  end.

(** The table of aggregates of [pivot], read at [aggregateFunc]: an own
    entry, else a member inherited from [Object.prototype], else
    [undefined]. *)
Definition pivot_aggregates : Js.Object Expr :=
  [ ("first", agg First element); ("sum", agg Sum element);
    ("max", agg Max element); ("min", agg Min element);
    ("mean", agg Mean element); ("median", agg Median element);
    ("last", agg Last element); ("count", agg Count element) ].

Definition lookup_aggregate (aggregateFunc : string) : option PivotFn :=
  match Js.get pivot_aggregates aggregateFunc with
  | Some e => Some (FnExpr e)
  | None =>
      if Js.inherited aggregateFunc
      then Some (FnPrototypeMember aggregateFunc)
      else None
  end.

Module df.
Section Methods.

Variable this : DataFrame.

Definition clone : Prog DataFrame := wrap (NClone (_df this)).

(** Getters. *)
Definition get_columns : Prog (list string) := call (NColumns (_df this)).
Definition get_height : Prog nat := call (NHeight (_df this)).
Definition get_width : Prog nat := call (NWidth (_df this)).

Definition getColumn (n : string) : Prog Series :=
  call (NColumn (_df this) n).

Definition getColumns : Prog (list Series) :=
  call (NGetColumns (_df this)).

Definition get_schema : Prog (Js.Object DataType) :=
  let* cols := method_call "this" this "getColumns" getColumns in
  Ret (foldl (fun acc curr => assign acc (name curr) (dtype curr)) [] cols).

Definition drop (names : list (ValueOrArray string)) : Prog DataFrame :=
  match names with
  | [Single n] => wrap (NDrop (_df this) n)
  | _ =>
      let* df := method_call "this" this "clone" clone in
      for_of (mjoin (flat <$> names))
             (fun n => method_call "df" df "inner"
                         (call (NDropInPlace (inner df) n) >> Ret tt))
      >> Ret df
  end.

Definition filter (predicate : Expr) : Prog DataFrame :=
  wrap (NLazyCollect (_df this) (LFilter predicate) None).

Definition groupBy (by_ : list (ValueOrArray string)) : Prog GroupBy :=
  Ret (_GroupBy (_df this) (columnOrColumnsStrict by_)).

Definition head (length : option Number) : Prog DataFrame :=
  wrap (NHead (_df this) (default (of_nat 5) length)).

Definition insertAtIdx (idx : Number) (series : Series) : Prog unit :=
  call (NInsertAtIdx (_df this) idx series).

(** [_df.join(other._df, leftOn, rightOn, how, suffix)]: [other] is a
    DataFrame, so that [other._df] is read through its Proxy; when [other]
    has a column named ["_df"] the native join is handed that column. *)
Definition join_with (other : DataFrame)
    (leftOn rightOn : option (list string)) (how : string)
    (suffix : option string) : Prog DataFrame :=
  member other "_df"
    (fun c => wrap (NJoinColumn (_df this) c leftOn rightOn how suffix))
    (wrap (NJoin (_df this) (_df other) leftOn rightOn how suffix)).

Definition join (other : DataFrame) (options : JoinOptions)
  : Prog DataFrame :=
  let how := default "inner" (how options) in
  let on := columnOrColumns (on options) in
  let suffix := suffix options in
  if String.eqb how "cross" then
    join_with other (Some []) (Some []) how suffix
  else
    let leftOn := columnOrColumns (leftOn options) in
    let rightOn := columnOrColumns (rightOn options) in
    let leftOn := if on is Some _ then on else leftOn in
    let rightOn := if on is Some _ then on else rightOn in
    if (bool_decide (is_Some leftOn) && negb (bool_decide (is_Some rightOn))
        || bool_decide (is_Some rightOn) && negb (bool_decide (is_Some leftOn)))
    then Throw (TypeError
                  "You should pass the column to join on as an argument.")
    else join_with other leftOn rightOn how suffix.

Definition limit (length : option Number) : Prog DataFrame :=
  wrap (NHead (_df this) (default (of_nat 5) length)).

(** [pivot(values, options?)]: the options are destructured first, which
    throws when [options] is [undefined]. *)
Definition pivot (values : option (ValueOrArray string))
    (options : option PivotOptions) : Prog DataFrame :=
  match options with
  | None =>
      Throw (TypeError
        "Cannot destructure property 'values' of 'options' as it is undefined.")
  | Some o =>
      let maintainOrder := default true (maintainOrder o) in
      let sortColumns := default false (sortColumns o) in
      let aggregateFunc := default (AggName "first") (aggregateFunc o) in
      let values := if pivot_values o is Some v then Some v else values in
      let values := flat <$> values in
      let index := flat <$> index o in
      let columns := flat <$> pivot_columns o in
      match aggregateFunc with
      | AggExpr e =>
          wrap (NPivotExpr (_df this) values index columns (FnExpr e)
                  maintainOrder sortColumns (separator o))
      | AggName s =>
          match lookup_aggregate s with
          | Some fn =>
              wrap (NPivotExpr (_df this) values index columns fn
                      maintainOrder sortColumns (separator o))
          | None => Throw (Error ("Unknown aggregate function " +:+ s))
          end
      end
  end.

Definition rename (mapping : Js.Object string) : Prog DataFrame :=
  let* df := method_call "this" this "clone" clone in
  for_of (Js.entries mapping)
         (fun e => method_call "df" df "inner"
                     (call (NRename (inner df) (fst e) (snd e))))
  >> Ret df.

Definition replaceAtIdx (index : Number) (newColumn : Series)
  : Prog DataFrame :=
  call (NReplaceAtIdx (_df this) index newColumn) >> Ret this.

Definition row (idx : Number) : Prog (list cell) :=
  call (NToRow (_df this) idx).

(** [sample] once its first argument is a number or [undefined]: the
    branches after the options-object test. *)
Definition sample_positional (opts frac : option Number)
    (withReplacement : bool) (seed : option Number) : Prog DataFrame :=
  match opts, frac with
  | Some n, _ => wrap (NSampleN (_df this) n withReplacement false seed)
  | None, Some fr =>
      wrap (NSampleFrac (_df this) fr withReplacement false seed)
  | None, None => Throw (TypeError "must specify either 'frac' or 'n'")
  end.

(** [sample(opts?, frac?, withReplacement = false, seed?)].  An options
    object with [n] or [frac] re-enters [sample] with four arguments, the
    first of which is then a number or [undefined]. *)
Definition sample (arguments : SampleArguments) : Prog DataFrame :=
  match arguments with
  | NoArguments =>
      wrap (NSampleN (_df this) (of_nat 1) false false None)
  | Arguments_ opts frac withReplacement seed =>
      let withReplacement := default false withReplacement in
      match opts with
      | SampleObject on ofrac owr =>
          if (bool_decide (is_Some on) || bool_decide (is_Some ofrac))
          then sample_positional on ofrac (default false owr) seed
          else sample_positional None frac withReplacement seed
      | SampleNumber n =>
          sample_positional (Some n) frac withReplacement seed
      | SampleUndefined =>
          sample_positional None frac withReplacement seed
      end
  end.

(** [sort] once its first argument is not an options object carrying
    [by]. *)
Definition sort_by (by_ : ColumnsOrExpr) (descending maintain_order : bool)
  : Prog DataFrame :=
  match by_ with
  | ByArray _ | ByExpr _ =>
      wrap (NLazyCollect (_df this) (LSort by_ descending maintain_order)
              (Some (mkCollect (Some true) (Some false))))
  | ByName _ =>
      wrap (NSort (_df this) (Some by_) descending true maintain_order)
  end.

(** [sort(arg, descending = false, maintain_order = false)].  With an
    options object the call is [this.sort(arg.by, arg.descending)]. *)
Definition sort (arg : SortArg) (descending maintain_order : option bool)
  : Prog DataFrame :=
  match arg with
  | SortOptions (Some by_) odescending _ =>
      sort_by by_ (default false odescending) false
  | SortOptions None _ _ =>
      wrap (NSort (_df this) None (default false descending) true
              (default false maintain_order))
  | SortBy by_ =>
      sort_by by_ (default false descending) (default false maintain_order)
  end.

(** What [columnNames.slice(0, h)] and [takeNItems(columnNames, h)] make
    of a Series [h] in place of a number.  This rests on how the Series
    object converts to a number, which [./series] decides; it is left
    open. *)
Variable columnNames_up_to_series : Series → Iterable → Prog (list string).

(** [this.height] is read through the Proxy: the row count, unless a
    column is named ["height"]. *)
Definition transpose (options : option TransposeOptions) : Prog DataFrame :=
  let includeHeader := default false (options ≫= includeHeader) in
  let headeName := default "column" (options ≫= headerName) in
  let keep_names_as := if includeHeader then Some headeName else None in
  match options ≫= columnNames with
  | Some names =>
      let* columnNames :=
        member this "height"
          (fun h => columnNames_up_to_series h names)
          (let* h := get_height in Ret (transpose_columnNames names h)) in
      wrap (NTranspose (_df this) keep_names_as (Some columnNames))
  | None => wrap (NTranspose (_df this) keep_names_as None)
  end.

Definition unique (opts : option UniqueOpts)
    (subset : option (ValueOrArray string)) (keep : option Keep)
  : Prog DataFrame :=
  let keep := default KeepFirst keep in
  match default (UniqueFlag false) opts with
  | UniqueFlag maintainOrder =>
      wrap (NUnique (_df this) maintainOrder subset keep)
  | UniqueObject omaintainOrder osubset okeep =>
      let osubset :=
        match osubset with
        | Some s => if truthy s then Some (Multiple (flat s)) else Some s
        | None => None
        end in
      wrap (NUnique (_df this) (default false omaintainOrder) osubset
              (default keep okeep))
  end.

Definition distinct (opts : option UniqueOpts)
    (subset : option (ValueOrArray string)) (keep : option Keep)
  : Prog DataFrame :=
  method_call "this" this "unique" (unique opts subset None).

End Methods.
End df.

(** ** The Proxy handler around the object

    [_DataFrame] returns [new Proxy(df, handler)].  The traps are
    parametric in the host conversion [Number(prop)] of a string to a
    number. *)

Inductive PropertyValue :=
| ColumnValue (s : Series)
| RowValue (r : list cell)
| Reflected (prop : PropertyKey).

Record PropertyDescriptor := mkDescriptor {
  configurable : bool;
  enumerable : bool;
  value : Series;
}.

Module handler.
Section Traps.

Variable ToNumber : string → Number.
Variable target : DataFrame.

Definition get (prop : PropertyKey) : Prog PropertyValue :=
  match prop with
  | PString s =>
      let* cols := df.get_columns target in
      if bool_decide (s ∈ cols) then
        let* c := df.getColumn target s in Ret (ColumnValue c)
      else if negb (isNaN (ToNumber s)) then
        let* r := df.row target (ToNumber s) in Ret (RowValue r)
      else Ret (Reflected prop)
  | PSymbol _ => Ret (Reflected prop)
  end.

Definition has (p : PropertyKey) : Prog bool :=
  match p with
  | PSymbol "Jupyter.display" => Ret true
  | PSymbol _ => let* cols := df.get_columns target in Ret false
  | PString s =>
      let* cols := df.get_columns target in Ret (bool_decide (s ∈ cols))
  end.

Definition ownKeys : Prog (list string) := df.get_columns target.

Definition getOwnPropertyDescriptor (prop : string)
  : Prog PropertyDescriptor :=
  let* c := df.getColumn target prop in
  Ret (mkDescriptor true true c).

(** [Object.keys(proxy)]: the keys reported by [ownKeys] whose descriptor,
    as reported by [getOwnPropertyDescriptor], is enumerable. *)
Fixpoint enumerable_keys (ks : list string) : Prog (list string) :=
  match ks with
  | [] => Ret []
  | k :: ks' =>
      let* d := getOwnPropertyDescriptor k in
      let* rest := enumerable_keys ks' in
      Ret (if enumerable d then k :: rest else rest)
  end.

Definition Object_keys : Prog (list string) :=
  let* ks := ownKeys in enumerable_keys ks.

End Traps.
End handler.

(** ** Further host-language notions *)

(** A property read [o[k]] on an ordinary object: an own property, else a
    member inherited from [Object.prototype], else [undefined]. *)
Inductive PropertyRead (V : Type) :=
| OwnProperty (v : V)
| InheritedMember (member : string)
| Undefined.
Arguments OwnProperty {V} v.
Arguments InheritedMember {V} member.
Arguments Undefined {V}.

Definition read {V} (o : Js.Object V) (k : string) : PropertyRead V :=
  match Js.get o k with
  | Some v => OwnProperty v
  | None => if Js.inherited k then InheritedMember k else Undefined
  end.

(** [Object.values(o)] *)
Definition Object_values {V} (o : Js.Object V) : list V :=
  snd <$> Js.entries o.

(** [array.indexOf(x)]: the first position of [x], or -1. *)
Definition indexOf (l : list string) (x : string) : Number :=
  match list_find (fun y => y = x) l with
  | Some (i, _) => of_nat i
  | None => Finite (-1)
  end.

(** [array.reduce(callback)], without an initial value: the first element
    starts the accumulation, and an empty array is a TypeError. *)
Fixpoint reduce_from {A} (callback : A → A → Prog A) (acc : A) (l : list A)
  : Prog A :=
  match l with
  | [] => Ret acc
  | curr :: l' =>
      let* acc' := callback acc curr in reduce_from callback acc' l'
  end.

Definition reduce {A} (callback : A → A → Prog A) (l : list A) : Prog A :=
  match l with
  | [] => Throw (TypeError "Reduce of empty array with no initial value")
  | first :: l' => reduce_from callback first l'
  end.

(** Truthiness of a number: [0] and [NaN] are falsy. *)
Definition number_truthy (x : Number) : bool :=
  match x with
  | NaN => false
  | Infinity _ => true
  | Finite q => negb (Qeq_bool q 0)
  end.

(** ** Functions beside [_DataFrame] *)

(** Modelled from the spec: [DataType.variant] of [./datatypes], the name
    of the variant a dtype belongs to. *)
Definition variant (colType : DataType) : string :=
  match colType with
  | Null => "Null" | Bool => "Bool"
  | Int8 => "Int8" | Int16 => "Int16" | Int32 => "Int32" | Int64 => "Int64"
  | UInt8 => "UInt8" | UInt16 => "UInt16" | UInt32 => "UInt32"
  | UInt64 => "UInt64"
  | Float32 => "Float32" | Float64 => "Float64"
  | Utf8 => "Utf8" | Date => "Date" | Datetime _ => "Datetime"
  | Categorical => "Categorical" | List _ => "List" | Struct _ => "Struct"
  end.

Definition typeMapping : Js.Object string :=
  [ ("Null", "null"); ("Bool", "boolean");
    ("Int8", "integer"); ("Int16", "integer"); ("Int32", "integer");
    ("Int64", "integer");
    ("UInt8", "integer"); ("UInt16", "integer"); ("UInt32", "integer");
    ("UInt64", "integer");
    ("Float32", "number"); ("Float64", "number");
    ("Date", "string"); ("Datetime", "string"); ("Utf8", "string");
    ("Categorical", "string"); ("List", "array"); ("Struct", "object") ].

(** [typeMapping[dataType] || "string"] *)
Definition mapPolarsTypeToJSONSchema (colType : DataType)
  : PropertyRead string :=
  let dataType := variant colType in
  match read typeMapping dataType with
  | OwnProperty t =>
      if String.eqb t "" then OwnProperty "string" else OwnProperty t
  | InheritedMember m => InheritedMember m
  | Undefined => OwnProperty "string"
  end.

(** *** [objToDF]

    [objToDF] turns an object of columns into a native frame: it builds
    one native column per entry with the [Series] constructor and hands
    the columns to [new pli.JsDataFrame(columns)].  The constructor and
    the native frame are outside this file and may throw; a column to
    build is kept as the call that builds it. *)

(** A dtype given in [schema] or [schemaOverrides]: [string | DataType]. *)
Inductive SchemaType :=
| TypeName (s : string)
| TypeOf (d : DataType).

Definition type_truthy (t : SchemaType) : bool :=
  match t with
  | TypeName s => negb (String.eqb s "")
  | TypeOf _ => true
  end.

(** A value of the data object: an array of values, or a Series. *)
Inductive ColumnData :=
| DataArray (values : list cell)
| DataSeries (s : Series).

(** The third argument of [Series(name, values, dtype)]. *)
Inductive DtypeArgument :=
| DtypeGiven (t : SchemaType)
| DtypeInherited (member : string).

(** The calls [Series(name, values, dtype).inner()],
    [Series(name, values).inner()] and [values.rename(name).inner()]. *)
Inductive BuiltColumn :=
| NewSeries (name : string) (values : ColumnData)
    (dtype : option DtypeArgument)
| RenamedSeries (s : Series) (name : string).

Record DataFrameOptions := mkDataFrameOptions {
  schema : option (Js.Object SchemaType);
  schemaOverrides : option (Js.Object SchemaType);
}.

Definition schema_mismatch : Exception :=
  Error ("The number of columns in the schema does not match "
         +:+ "the number of columns in the data").

(** The call made by the callback of the branch without [schema]. *)
Definition build_column (schemaOverrides : option (Js.Object SchemaType))
    (entry : string * ColumnData) : BuiltColumn :=
  let '(name, values) := entry in
  match values with
  | DataSeries s => RenamedSeries s name
  | DataArray _ =>
      match schemaOverrides with
      | Some overrides =>
          match read overrides name with
          | OwnProperty t =>
              if type_truthy t then NewSeries name values (Some (DtypeGiven t))
              else NewSeries name values None
          | InheritedMember m =>
              NewSeries name values (Some (DtypeInherited m))
          | Undefined => NewSeries name values None
          end
      | None => NewSeries name values None
      end
  end.

(** [array.map(callback)] with a callback that may throw: the elements are
    visited in order and the first throw ends the call. *)
Fixpoint map_throwing {A B} (callback : A → Exception + B) (l : list A)
  : Exception + list B :=
  match l with
  | [] => inr []
  | x :: l' =>
      match callback x with
      | inl e => inl e
      | inr y =>
          match map_throwing callback l' with
          | inl e => inl e
          | inr ys => inr (y :: ys)
          end
      end
  end.

Section Construction.

(** What a call of the [Series] constructor and what
    [new pli.JsDataFrame(columns)] return or throw is left open. *)
Variable NativeSeries NativeFrame : Type.
Variable build_series : BuiltColumn → Exception + NativeSeries.
Variable JsDataFrame : list NativeSeries → Exception + NativeFrame.

(** [objToDF(obj, options?)].  In the branch with [schema] the lengths of
    [schemaKeys] and [values] are equal, so [schemaKeys[idx]] pairs every
    value with the key at its position. *)
Definition objToDF (obj : Js.Object ColumnData)
    (options : option DataFrameOptions) : Exception + NativeFrame :=
  match options ≫= schema, options ≫= schemaOverrides with
  | Some _, Some _ =>
      inl (Error "Cannot use both 'schema' and 'schemaOverrides'")
  | Some schema, None =>
      let schemaKeys := Js.keys schema in
      let values := Object_values obj in
      if negb (length schemaKeys =? length values)%nat
      then inl schema_mismatch
      else
        match map_throwing build_series
                (zip_with
                   (fun name values =>
                      NewSeries name values
                        (DtypeGiven <$> Js.get schema name))
                   schemaKeys values) with
        | inl e => inl e
        | inr columns => JsDataFrame columns
        end
  | None, schemaOverrides =>
      match map_throwing
              (fun entry => build_series (build_column schemaOverrides entry))
              (Js.entries obj) with
      | inl e => inl e
      | inr columns => JsDataFrame columns
      end
  end.

End Construction.

(** ** Further methods of the object built by [_DataFrame] *)

(** First argument of [shiftAndFill]: a number of periods, or the options
    object [{n, fillValue}]. *)
Inductive ShiftArg :=
| ShiftPeriods (n : Number)
| ShiftOptions (n fillValue : option Number).

(** First argument of [withColumnRenamed]: the existing name, or the
    options object [{existing, replacement}]. *)
Inductive RenamedArg :=
| Existing (existing : string)
| RenamedOptions (existing replacement : string).

Module df_methods.
Section Methods.

(** The native [selectAtIdx], the native [toObjects] and the lazy pipeline
    [.lazy().shiftAndFill(n, fillValue).collectSync()] are left open. *)
Variable selectAtIdx : handle → Number → Prog Series.
Variable Records : Type.
Variable toObjects : handle → Prog Records.
Variable lazy_shiftAndFill :
  handle → option Number → option Number → Prog DataFrame.

Variable this : DataFrame.

Definition toSeries (index : option Number) : Prog Series :=
  selectAtIdx (_df this) (default (of_nat 0) index).

(** [this.width === 1]: a column named ["width"] is no number, so the
    strict comparison is false. *)
Definition fold (fn : Series → Series → Prog Series) : Prog Series :=
  let* one_column :=
    member this "width" (fun _ => Ret false)
      (let* width := df.get_width this in Ret (width =? 1)%nat) in
  if (one_column : bool)
  then method_call "this" this "toSeries" (toSeries (Some (of_nat 0)))
  else
    let* cols := method_call "this" this "getColumns" (df.getColumns this) in
    reduce (fun acc curr => fn acc curr) cols.

Definition shiftAndFill (n : ShiftArg) (fillValue : option Number)
  : Prog DataFrame :=
  match n, fillValue with
  | ShiftPeriods k, Some fv =>
      if number_truthy fv
      then lazy_shiftAndFill (_df this) (Some k) (Some fv)
      else lazy_shiftAndFill (_df this) None None
  | ShiftPeriods _, None => lazy_shiftAndFill (_df this) None None
  | ShiftOptions on ofv, _ => lazy_shiftAndFill (_df this) on ofv
  end.

Definition toRecords : Prog Records := toObjects (_df this).

Definition toDataResource
  : Prog (Records * list (string * PropertyRead string)) :=
  let* data := method_call "this" this "toRecords" toRecords in
  let* cols := method_call "this" this "getColumns" (df.getColumns this) in
  let fields :=
    (fun column => (name column, mapPolarsTypeToJSONSchema (dtype column)))
      <$> cols in
  Ret (data, fields).

(** [curr.toArray()] is the column's sequence of values. *)
Definition toObject : Prog (Js.Object (list cell)) :=
  let* cols := method_call "this" this "getColumns" (df.getColumns this) in
  Ret (foldl (fun acc curr => assign acc (name curr) (values curr)) [] cols).

Definition withColumnRenamed (opt : RenamedArg) (replacement : string)
  : Prog DataFrame :=
  match opt with
  | Existing existing =>
      method_call "this" this "rename"
        (df.rename this [(existing, replacement)])
  | RenamedOptions existing replacement' =>
      method_call "this" this "rename"
        (df.rename this [(existing, replacement')])
  end.

End Methods.
End df_methods.

(** ** The [set] trap of the Proxy handler *)

(** The value assigned through the Proxy: a Series, or anything else. *)
Inductive AssignedValue :=
| SeriesValue (s : Series)
| OtherValue.

(** What the trap did before returning [true]: it replaced a column, or it
    handed the assignment to [Reflect.set] on the wrapper object.  Of the
    wrapper's members only [columns] has a setter, [_df.columns = names],
    which writes to the native frame. *)
Inductive SetOutcome :=
| ColumnReplaced
| ReflectSet (prop : PropertyKey).

(** Modelled from the spec: [series.alias(name)] of [./series], the same
    column under another name. *)
Definition alias (s : Series) (n : string) : Series :=
  mkSeries n (dtype s) (values s).

Module proxy.
Section Traps.

(** The native setter [_df.columns = names] is left open. *)
Variable set_columns : handle → AssignedValue → Prog unit.

Variable target : DataFrame.

(** [Reflect.set(target, prop, value)] *)
Definition Reflect_set (prop : PropertyKey) (value : AssignedValue)
  : Prog SetOutcome :=
  match prop with
  | PString p =>
      if String.eqb p "columns"
      then set_columns (_df target) value >> Ret (ReflectSet prop)
      else Ret (ReflectSet prop)
  | PSymbol _ => Ret (ReflectSet prop)
  end.

(** [set(target, prop, receiver)]: the third parameter holds the assigned
    value. *)
Definition set (prop : PropertyKey) (receiver : AssignedValue)
  : Prog SetOutcome :=
  match receiver, prop with
  | SeriesValue s, PString p =>
      let* cols := df.get_columns target in
      if bool_decide (p ∈ cols) then
        let* cols' := df.get_columns target in
        let idx := indexOf cols' p in
        df.replaceAtIdx target idx (alias s p) >> Ret ColumnReplaced
      else Reflect_set prop receiver
  | _, _ => Reflect_set prop receiver
  end.

End Traps.
End proxy.

(** ** The native layer

    The native frame ([pli.JsDataFrame]) is not among the sources at hand.
    Its methods are given here as the spec describes the engine: what each
    call returns and what it does to the store of native frames.  Where the
    spec leaves a result open (row order without [maintainOrder], random
    sampling, the engines behind pivot, transpose and the lazy pipelines)
    the call is a relation rather than a function. *)

Module Native.

Abbreviation store := (list (list Series)) (only parsing).

Inductive Completion (A : Type) :=
| Ok (a : A)
| Err (e : Exception).
Arguments Ok {A} a.
Arguments Err {A} e.

Definition Outcome (R : Type) : Type := Completion R * store.

Definition alloc (f : frame) (st : store) : Outcome handle :=
  (Ok (length st), st ++ [f]).

Definition fail {R} (k : ErrorKind) (st : store) : Outcome R :=
  (Err (NativeError k), st).

(** Modelled from the spec: a call whose engine is outside the sources
    either fails, leaving the store untouched, or returns a new frame. *)
Definition opaque (st : store) (out : Outcome handle) : Prop :=
  (∃ e, out = (Err e, st)) ∨ (∃ f', out = alloc f' st).

Definition has_column (f : frame) (n : string) : bool :=
  bool_decide (n ∈ Frame.columns f).

(** Modelled from the spec: the native [drop], the frame without the
    column of that name. *)
Definition drop_column (n : string) (f : frame) : frame :=
  List.filter (fun s => negb (String.eqb (name s) n)) f.

(** Modelled from the spec: the native [rename] of one column. *)
Definition rename_column (column new_col : string) (f : frame) : frame :=
  (fun s => if String.eqb (name s) column
            then mkSeries new_col (dtype s) (values s) else s) <$> f.

(** Modelled from the spec: the native insert-at-index. *)
Definition insert_column (i : nat) (s : Series) (f : frame) : frame :=
  take i f ++ s :: drop i f.

(** Modelled from the spec: the native replace-at-index. *)
Definition replace_column (i : nat) (s : Series) (f : frame) : frame :=
  <[i := s]> f.

(** Modelled from the spec: inserting keeps the frame's invariants; it
    needs a position within the frame, a name not yet taken and a column
    as long as the frame is high. *)
Definition can_insert (i : nat) (s : Series) (f : frame) : bool :=
  (i <=? Frame.width f)%nat
  && negb (has_column f (name s))
  && ((Frame.width f =? 0)%nat
      || (length (values s) =? Frame.height f)%nat).

(** Modelled from the spec: replacing keeps the frame's invariants; the
    position holds a column, the new column is as long as the frame is
    high and its name is not taken by another column. *)
Definition can_replace (i : nat) (s : Series) (f : frame) : bool :=
  (i <? Frame.width f)%nat
  && (length (values s) =? Frame.height f)%nat
  && negb (has_column (delete i f) (name s)).

(** Modelled from the spec: [head(n)], the first [n] rows. *)
Definition head_rows (n : nat) (f : frame) : frame :=
  (fun s => mkSeries (name s) (dtype s) (take n (values s))) <$> f.

(** *** unique

    [unique(subset, keep)] groups rows by equality over [subset] (default:
    all columns) and keeps one representative per group, the first or the
    last; with [maintainOrder] the survivors keep their relative order,
    otherwise their order is unspecified. *)

(** Modelled from the spec: the columns named by [subset], if all exist. *)
Fixpoint select_columns (f : frame) (ns : list string) : option frame :=
  match ns with
  | [] => Some []
  | n :: ns' =>
      match Frame.column f n, select_columns f ns' with
      | Some c, Some cs => Some (c :: cs)
      | _, _ => None
      end
  end.

(** Modelled from the spec: the columns rows are compared on. *)
Definition key_frame (subset : option (list string)) (f : frame)
  : option frame :=
  match subset with
  | None => Some f
  | Some ns => select_columns f ns
  end.

(** Modelled from the spec: the key of every row, in row order. *)
Definition key_rows (subset : option (list string)) (f : frame)
  : option (list (list cell)) :=
  (fun kf => Frame.row kf <$> seq 0 (Frame.height f)) <$> key_frame subset f.

(** Modelled from the spec: the positions, from [i] on, of the keys that
    occur for the first time (not in [seen], not earlier in the list). *)
Fixpoint first_occurrences {K} `{EqDecision K}
    (seen : list K) (i : nat) (ks : list K) : list nat :=
  match ks with
  | [] => []
  | k :: ks' =>
      if bool_decide (k ∈ seen) then first_occurrences seen (S i) ks'
      else i :: first_occurrences (k :: seen) (S i) ks'
  end.

(** Modelled from the spec: the positions of the keys that occur for the
    last time. *)
Fixpoint last_occurrences {K} `{EqDecision K}
    (i : nat) (ks : list K) : list nat :=
  match ks with
  | [] => []
  | k :: ks' =>
      if bool_decide (k ∈ ks') then last_occurrences (S i) ks'
      else i :: last_occurrences (S i) ks'
  end.

(** Modelled from the spec: the rows [unique] keeps. *)
Definition kept_rows (keep : Keep) (ks : list (list cell)) : list nat :=
  match keep with
  | KeepFirst => first_occurrences [] 0 ks
  | KeepLast => last_occurrences 0 ks
  end.

(** Modelled from the spec: the kept rows in their original order; no
    result when a column of [subset] is missing. *)
Definition unique_rows (subset : option (list string)) (keep : Keep)
    (f : frame) : option frame :=
  (fun ks => Frame.take_rows (kept_rows keep ks) f) <$> key_rows subset f.

(** Modelled from the spec: an unspecified row order; [f'] holds the rows
    of [f] in some order. *)
Definition reordering (f f' : frame) : Prop :=
  ∃ idx, idx ≡ₚ seq 0 (Frame.height f) ∧ f' = Frame.take_rows idx f.

(** Modelled from the spec: the results the native [unique] may return. *)
Definition unique_result (maintainOrder : bool)
    (subset : option (list string)) (keep : Keep) (f f' : frame) : Prop :=
  match unique_rows subset keep f with
  | Some u => if maintainOrder then f' = u else reordering u f'
  | None => False
  end.

(** *** sort

    [sort] yields a permutation of the rows that is ordered by the key
    column, nulls last, and in which ties keep their original order when a
    stable sort is requested; otherwise the order of ties is unspecified. *)

(** Modelled from the spec: the order of present values of one type
    (values of different types do not meet in a column). *)
Definition value_compare (a b : Value) : comparison :=
  match a, b with
  | VInt x, VInt y => (x ?= y)%Z
  | VBool x, VBool y => Bool.compare x y
  | VStr x, VStr y => String.compare x y
  | VInt _, _ => Lt
  | _, VInt _ => Gt
  | VBool _, _ => Lt
  | _, VBool _ => Gt
  end.

(** Modelled from the spec: the comparator of a sort key; nulls go last
    whatever the direction. *)
Definition cell_compare (descending nulls_last : bool) (a b : cell)
  : comparison :=
  match a, b with
  | None, None => Eq
  | None, Some _ => if nulls_last then Gt else Lt
  | Some _, None => if nulls_last then Lt else Gt
  | Some x, Some y =>
      if descending then value_compare y x else value_compare x y
  end.

Definition key_at (key : list cell) (i : nat) : cell :=
  default None (key !! i).

(** Modelled from the spec: the output is non-decreasing per comparator. *)
Definition ordered (descending nulls_last : bool) (key : list cell)
    (idx : list nat) : Prop :=
  Sorted
    (fun i j => cell_compare descending nulls_last
                  (key_at key i) (key_at key j) ≠ Gt) idx.

(** Modelled from the spec: rows with equal keys keep their original
    relative order. *)
Definition ties_in_order (descending nulls_last : bool) (key : list cell)
    (idx : list nat) : Prop :=
  StronglySorted
    (fun i j => cell_compare descending nulls_last
                  (key_at key i) (key_at key j) = Eq → i < j) idx.

(** Modelled from the spec: the results the native [sort] may return. *)
Definition sort_result (key : list cell)
    (descending nulls_last maintain_order : bool) (f f' : frame) : Prop :=
  ∃ idx, idx ≡ₚ seq 0 (Frame.height f)
         ∧ f' = Frame.take_rows idx f
         ∧ ordered descending nulls_last key idx
         ∧ (maintain_order = true →
            ties_in_order descending nulls_last key idx).

(** *** join *)

(** Modelled from the spec: a cross join emits the full Cartesian product
    with no key columns; a right column whose name collides gets the
    suffix. *)
Definition cross_join (f g : frame) (suffix : string) : frame :=
  ((fun s => mkSeries (name s) (dtype s)
               (mjoin ((fun v => replicate (Frame.height g) v)
                         <$> values s))) <$> f)
  ++ ((fun s => mkSeries
                  (if has_column f (name s) then name s +:+ suffix
                   else name s)
                  (dtype s)
                  (mjoin (replicate (Frame.height f) (values s)))) <$> g).

(** Modelled from the spec: the equality join fails with [MissingJoinKey]
    if the keys are not supplied and with [KeyCountMismatch] if
    [leftOn]/[rightOn] differ in arity. *)
Definition join_result (f g : frame) (leftOn rightOn : option (list string))
    (how : string) (suffix : option string) (st : store)
    (out : Outcome handle) : Prop :=
  match leftOn, rightOn with
  | Some l, Some r =>
      if bool_decide (length l = length r) then
        if String.eqb how "cross"
        then out = alloc (cross_join f g (default "_right" suffix)) st
        else opaque st out
      else out = fail KeyCountMismatch st
  | _, _ => out = fail MissingJoinKey st
  end.

(** The spec does not say what the native join makes of a column handed to
    it in place of a frame ([NJoinColumn]); that call is left [opaque]. *)

(** A call on a handle that holds no frame fails. *)
Definition on_frame {R} (st : store) (h : handle)
    (k : frame → Outcome R → Prop) (out : Outcome R) : Prop :=
  match st !! h with
  | Some f => k f out
  | None => out = fail DanglingHandle st
  end.

(** Modelled from the spec: the methods of the native frame. *)
Definition step {R} (c : NativeCall R) (st : store) : Outcome R → Prop :=
  match c in NativeCall R return Outcome R → Prop with
  | NClone h => on_frame st h (fun f out => out = alloc f st)
  | NColumns h => on_frame st h (fun f out => out = (Ok (Frame.columns f), st))
  | NHeight h => on_frame st h (fun f out => out = (Ok (Frame.height f), st))
  | NWidth h => on_frame st h (fun f out => out = (Ok (Frame.width f), st))
  | NGetColumns h => on_frame st h (fun f out => out = (Ok f, st))
  | NColumn h n =>
      on_frame st h (fun f out =>
        match Frame.column f n with
        | Some s => out = (Ok s, st)
        | None => out = fail ColumnNotFound st
        end)
  | NToRow h idx =>
      on_frame st h (fun f out =>
        match as_index idx with
        | Some i =>
            if bool_decide (i < Frame.height f)
            then out = (Ok (Frame.row f i), st)
            else out = fail OutOfBounds st
        | None => ∃ r, out = (r, st)
        end)
  | NDrop h n =>
      on_frame st h (fun f out =>
        if has_column f n then out = alloc (drop_column n f) st
        else out = fail ColumnNotFound st)
  | NDropInPlace h n =>
      on_frame st h (fun f out =>
        match Frame.column f n with
        | Some s => out = (Ok s, <[h := drop_column n f]> st)
        | None => out = fail ColumnNotFound st
        end)
  | NRename h column new_col =>
      on_frame st h (fun f out =>
        if has_column f column then
          if (negb (String.eqb new_col column) && has_column f new_col)%bool
          then out = fail DuplicateColumn st
          else out = (Ok tt, <[h := rename_column column new_col f]> st)
        else out = fail ColumnNotFound st)
  | NInsertAtIdx h idx s =>
      on_frame st h (fun f out =>
        match as_index idx with
        | Some i =>
            if can_insert i s f
            then out = (Ok tt, <[h := insert_column i s f]> st)
            else ∃ e, out = (Err e, st)
        | None => ∃ e, out = (Err e, st)
        end)
  | NReplaceAtIdx h idx s =>
      on_frame st h (fun f out =>
        match as_index idx with
        | Some i =>
            if can_replace i s f
            then out = (Ok tt, <[h := replace_column i s f]> st)
            else ∃ e, out = (Err e, st)
        | None => ∃ e, out = (Err e, st)
        end)
  | NHead h length =>
      on_frame st h (fun f out =>
        match as_index length with
        | Some n => out = alloc (head_rows n f) st
        | None => opaque st out
        end)
  | NUnique h maintainOrder subset keep =>
      on_frame st h (fun f out =>
        match unique_rows (flat <$> subset) keep f with
        | Some _ =>
            ∃ f', unique_result maintainOrder (flat <$> subset) keep f f'
                  ∧ out = alloc f' st
        | None => out = fail ColumnNotFound st
        end)
  | NSort h by_ descending nulls_last maintain_order =>
      on_frame st h (fun f out =>
        match by_ with
        | Some (ByName n) =>
            match Frame.column f n with
            | Some key =>
                ∃ f', sort_result (values key) descending nulls_last
                        maintain_order f f'
                      ∧ out = alloc f' st
            | None => out = fail ColumnNotFound st
            end
        | _ => opaque st out
        end)
  | NJoin h other leftOn rightOn how suffix =>
      on_frame st h (fun f =>
        on_frame st other (fun g =>
          join_result f g leftOn rightOn how suffix st))
  | NJoinColumn h _ _ _ _ _ => on_frame st h (fun _ => opaque st)
  | NPivotExpr h _ _ _ _ _ _ _ => on_frame st h (fun _ => opaque st)
  | NSampleN h _ _ _ _ => on_frame st h (fun _ => opaque st)
  | NSampleFrac h _ _ _ _ => on_frame st h (fun _ => opaque st)
  | NTranspose h _ _ => on_frame st h (fun _ => opaque st)
  | NLazyCollect h _ _ => on_frame st h (fun _ => opaque st)
  end.

(** Running a wrapper program against the store. *)
Fixpoint runs {A} (p : Prog A) (st : store) (out : Outcome A) : Prop :=
  match p with
  | Ret a => out = (Ok a, st)
  | Throw e => out = (Err e, st)
  | Do c k =>
      ∃ r st', step c st (r, st')
               ∧ match r with
                 | Ok v => runs (k v) st' out
                 | Err e => out = (Err e, st')
                 end
  end.

End Native.

(** ** Frames used in the examples *)

Module Examples.

Definition ints (l : list Z) : list cell := (fun z => Some (VInt z)) <$> l.
Definition strs (l : list string) : list cell :=
  (fun s => Some (VStr s)) <$> l.

(** [{foo: [1..7], ham: ["a".."g"]}] *)
Definition seven : frame :=
  [ mkSeries "foo" Int64 (ints [1; 2; 3; 4; 5; 6; 7]%Z);
    mkSeries "ham" Utf8 (strs ["a"; "b"; "c"; "d"; "e"; "f"; "g"]) ].

Definition first_five : frame :=
  [ mkSeries "foo" Int64 (ints [1; 2; 3; 4; 5]%Z);
    mkSeries "ham" Utf8 (strs ["a"; "b"; "c"; "d"; "e"]) ].

(** [{k: [1, 1], v: ["x", "y"]}] and the same rows in the other order. *)
Definition ties : frame :=
  [ mkSeries "k" Int64 (ints [1; 1]%Z); mkSeries "v" Utf8 (strs ["x"; "y"]) ].

Definition ties_swapped : frame :=
  [ mkSeries "k" Int64 (ints [1; 1]%Z); mkSeries "v" Utf8 (strs ["y"; "x"]) ].

(** A frame that may stand for whatever an engine outside the sources
    returns. *)
Definition one_row : frame :=
  [ mkSeries "foo" Int64 (ints [3]%Z); mkSeries "ham" Utf8 (strs ["c"]) ].

(** An endless generator of names: ["col_"], ["col_"], ... *)
Definition endless : Iterable := IIterator (fun _ => Some "col_").

Definition pivot_options (aggregateFunc : string) : PivotOptions :=
  mkPivotOptions None (Some (Single "foo")) (Some (Single "bar"))
                 None None (Some (AggName aggregateFunc)) None.

(** [{a: [1, 2]}] and [{b: ["x"]}], and their Cartesian product. *)
Definition left_frame : frame := [ mkSeries "a" Int64 (ints [1; 2]%Z) ].



Definition on_and_keys_options : JoinOptions :=
  mkJoinOptions (Some (Single "a")) (Some (Multiple ["a"; "a"]))
                (Some (Single "b")) None None.



(** [{a: [1, 2], b: ["x", "y"]}], with [a] renamed to [c], and with [a]
    dropped. *)
Definition two_columns : frame :=
  [ mkSeries "a" Int64 (ints [1; 2]%Z); mkSeries "b" Utf8 (strs ["x"; "y"]) ].
Definition renamed : frame :=
  [ mkSeries "c" Int64 (ints [1; 2]%Z); mkSeries "b" Utf8 (strs ["x"; "y"]) ].
Definition dropped : frame :=
  [ mkSeries "b" Utf8 (strs ["x"; "y"]) ].

(** Columns ["b"] and ["0"], in that order. *)
Definition numeric_name : frame :=
  [ mkSeries "b" Int64 (ints [1; 2]%Z); mkSeries "0" Utf8 (strs ["x"; "y"]) ].

(** A third column for [two_columns], and the result of inserting it at
    position 1. *)
Definition apple : Series := mkSeries "apple" Bool [Some (VBool true); None].
Definition with_apple : frame :=
  [ mkSeries "a" Int64 (ints [1; 2]%Z); apple;
    mkSeries "b" Utf8 (strs ["x"; "y"]) ].

(** The host conversion [Number(s)] on strings of decimal digits (the empty
    string converts to 0); every other string stands for [NaN] here. *)
Definition decimal (s : string) : Number :=
  match Js.digits_value s 0%N with
  | Some n => Finite (inject_Z (Z.of_N n))
  | None => NaN
  end.

(** [{k: [1, 2, 1], v: ["x", "y", "z"]}] and its distinct rows over [k],
    in the order of first occurrence and in the other order. *)
Definition repeated : frame :=
  [ mkSeries "k" Int64 (ints [1; 2; 1]%Z);
    mkSeries "v" Utf8 (strs ["x"; "y"; "z"]) ].
Definition distinct_rows : frame :=
  [ mkSeries "k" Int64 (ints [1; 2]%Z); mkSeries "v" Utf8 (strs ["x"; "y"]) ].
Definition distinct_rows_swapped : frame :=
  [ mkSeries "k" Int64 (ints [2; 1]%Z); mkSeries "v" Utf8 (strs ["y"; "x"]) ].

End Examples.

(** ** Notions used to state the properties *)

(** The [i]-th name of a sequence of column names. *)
Definition nth_name (columnNames : Iterable) (i : nat) : option string :=
  match columnNames with
  | IArray l => l !! i
  | IIterator next => next i
  end.

(** The items an iterator yields from position [i] on, at most [count] of
    them. *)
Fixpoint yielded (next : nat → option string) (i count : nat) : list string :=
  match count with
  | 0 => []
  | S c =>
      match next i with
      | Some x => x :: yielded next (S i) c
      | None => []
      end
  end.

(** [keep_names_as] as [transpose] computes it from its options. *)
Definition keep_names_as (o : TransposeOptions) : option string :=
  if default false (includeHeader o)
  then Some (default "column" (headerName o)) else None.

(** The error [join] throws when only one of [leftOn] and [rightOn] is
    supplied. *)
Definition pass_the_column : Exception :=
  TypeError "You should pass the column to join on as an argument.".

(** The only frame of [st] that [st'] may hold differently is the one at
    handle [c]. *)
Definition only_touches (c : handle) (st st' : Native.store) : Prop :=
  length st' = length st ∧ ∀ h, h ≠ c → st' !! h = st !! h.

(** The receiver's frame is the same before and after, and a DataFrame that
    is returned sits at a handle that did not exist before. *)
Definition leaves_receiver {A} (result_handle : A → option handle)
    (p : Prog A) (this : DataFrame) : Prop :=
  ∀ st f out,
    st !! _df this = Some f →
    Native.runs p st out →
    snd out !! _df this = Some f
    ∧ ∀ res h, fst out = Native.Ok res → result_handle res = Some h →
               h = length st ∧ is_Some (snd out !! h).

(** The name-to-dtype entries of a frame, one per column, in column
    order. *)
Definition schema_entries (f : frame) : Js.Object DataType :=
  (fun s => (name s, dtype s)) <$> f.

(** The way [drop] takes for an array or for several names. *)
Definition drop_from_clone (this : DataFrame) (ns : list string)
    : Prog DataFrame :=
  let* df := method_call "this" this "clone" (df.clone this) in
  for_of ns (fun n => method_call "df" df "inner"
                        (call (NDropInPlace (inner df) n) >> Ret tt))
  >> Ret df.

(** The arguments [unique] ends up handing to the native call. *)
Definition unique_maintains_order (opts : option UniqueOpts) : bool :=
  match default (UniqueFlag false) opts with
  | UniqueFlag maintainOrder => maintainOrder
  | UniqueObject omaintainOrder _ _ => default false omaintainOrder
  end.

Definition unique_keep (opts : option UniqueOpts) (keep : option Keep)
  : Keep :=
  match default (UniqueFlag false) opts with
  | UniqueFlag _ => default KeepFirst keep
  | UniqueObject _ _ okeep => default (default KeepFirst keep) okeep
  end.

Definition unique_subset (opts : option UniqueOpts)
    (subset : option (ValueOrArray string)) : option (list string) :=
  match default (UniqueFlag false) opts with
  | UniqueFlag _ => flat <$> subset
  | UniqueObject _ osubset _ => flat <$> osubset
  end.

(** The eight aggregate names [pivot] knows, and the name of each
    aggregate. *)
Definition known_aggregates : list string :=
  ["sum"; "max"; "min"; "mean"; "median"; "first"; "last"; "count"].

Definition aggregate_name (a : Aggregate) : string :=
  match a with
  | First => "first" | Sum => "sum" | Max => "max" | Min => "min"
  | Mean => "mean" | Median => "median" | Last => "last" | Count => "count"
  end.

(** The error [sample] throws when it is given neither [n] nor [frac]. *)
Definition must_specify : Exception :=
  TypeError "must specify either 'frac' or 'n'".

(** Neither a row count nor a fraction is given: no positional [frac], and
    the first argument is [undefined] or an object without [n] and [frac]. *)
Definition neither_given (opts : SampleOpts) (frac : option Number) : Prop :=
  frac = None
  ∧ (opts = SampleUndefined ∨ ∃ w, opts = SampleObject None None w).

(** A call that returns a frame either fails without touching the store or
    appends the new frame to it. *)
Definition returns_new_frame (c : NativeCall handle) : Prop :=
  ∀ st out, Native.step c st out → Native.opaque st out.

(** A stable sort of the row positions by insertion, used to show that the
    native sort always has an outcome. *)
Definition key_le (descending nulls_last : bool) (key : list (option Value))
    (i j : nat) : bool :=
  match Native.cell_compare descending nulls_last
          (Native.key_at key i) (Native.key_at key j) with
  | Gt => false
  | _ => true
  end.

Fixpoint insert_position (le : nat → nat → bool) (i : nat) (idx : list nat)
  : list nat :=
  match idx with
  | [] => [i]
  | j :: idx' =>
      if le i j then i :: j :: idx' else j :: insert_position le i idx'
  end.

Definition insertion_order (le : nat → nat → bool) (start count : nat)
  : list nat :=
  foldr (insert_position le) [] (seq start count).

(** ** Notions used to state the further properties *)

(** Name, data and dtype argument of a column [objToDF] builds. *)
Definition built_name (c : BuiltColumn) : string :=
  match c with
  | NewSeries n _ _ => n
  | RenamedSeries _ n => n
  end.

Definition built_data (c : BuiltColumn) : ColumnData :=
  match c with
  | NewSeries _ v _ => v
  | RenamedSeries s _ => DataSeries s
  end.

Definition built_dtype (c : BuiltColumn) : option DtypeArgument :=
  match c with
  | NewSeries _ _ d => d
  | RenamedSeries _ _ => None
  end.

Definition schema_conflict : Exception :=
  Error "Cannot use both 'schema' and 'schemaOverrides'".

(** The calls of the [Series] constructor that [objToDF] makes when its
    own checks pass, in the order it makes them. *)
Definition described_columns (obj : Js.Object ColumnData)
    (options : option DataFrameOptions) : list BuiltColumn :=
  match options ≫= schema with
  | Some schema =>
      zip_with
        (fun name values =>
           NewSeries name values (DtypeGiven <$> Js.get schema name))
        (Js.keys schema) (Object_values obj)
  | None => build_column (options ≫= schemaOverrides) <$> Js.entries obj
  end.

(** Building the columns one after the other and the frame from them;
    the first throw ends the construction. *)
Definition construct {NativeSeries NativeFrame : Type}
    (build_series : BuiltColumn → Exception + NativeSeries)
    (JsDataFrame : list NativeSeries → Exception + NativeFrame)
    (cols : list BuiltColumn) : Exception + NativeFrame :=
  match map_throwing build_series cols with
  | inl e => inl e
  | inr columns => JsDataFrame columns
  end.

(** The type names of a tabular data resource. *)
Definition json_types : list string :=
  ["null"; "boolean"; "integer"; "number"; "string"; "array"; "object"].

(** The error of [reduce] on an empty array. *)
Definition reduce_of_empty : Exception :=
  TypeError "Reduce of empty array with no initial value".

(** The names that an assignment [acc[name] = ...] turns into own keys,
    and the columns that bear them: all but ["__proto__"]. *)
Definition own_keys (ns : list string) : list string :=
  List.filter (fun n => negb (String.eqb n "__proto__")) ns.

Definition own_columns (f : frame) : frame :=
  List.filter (fun s => negb (String.eqb (name s) "__proto__")) f.

(** The name-to-values entries of a frame, one per column, in column
    order. *)

Definition values_entries (f : frame) : Js.Object (list cell) :=
  (fun s => (name s, values s)) <$> f.

(** The error [pivot] throws when it is called without options, and the
    one it throws for an aggregate name it does not find. *)
Definition cannot_destructure : Exception :=
  TypeError
    "Cannot destructure property 'values' of 'options' as it is undefined.".

Definition unknown_aggregate (s : string) : Exception :=
  Error ("Unknown aggregate function " +:+ s).

(** The frame without the columns named in [ns]. *)
Definition without_columns (ns : list string) (f : frame) : frame :=
  List.filter (fun s => negb (bool_decide (name s ∈ ns))) f.

(** The renames of a mapping applied one after the other, in the order
    given. *)
Definition rename_in_turn (es : list (string * string)) (f : frame) : frame :=
  foldl (fun g e => Native.rename_column e.1 e.2 g) f es.

(** Proves that a given name is not among the columns of a given frame. *)
Ltac not_a_column :=
  let H := fresh in
  intros H; apply list_elem_of_In in H; simpl in H;
  repeat (destruct H as [H|H]; [discriminate H|]); exact H.

(** * Properties *)

Import Native.

(** ** Running programs *)

Lemma runs_bind {A B} (p : Prog A) (f : A → Prog B) st out :
  runs (bind p f) st out ↔
  ∃ r st', runs p st (r, st')
           ∧ match r with
             | Ok v => runs (f v) st' out
             | Err e => out = (Err e, st')
             end.
Proof.
  revert st. induction p as [a|e|R c k IH]; intros st; simpl.
  - split.
    + intros H. exists (Ok a), st. done.
    + intros (r & st' & [= -> ->] & H). done.
  - split.
    + intros ->. exists (Err e), st. done.
    + intros (r & st' & [= -> ->] & H). done.
  - split.
    + intros (r1 & st1 & Hstep & H). destruct r1 as [v|e].
      * apply IH in H as (r & st' & Hk & H).
        exists r, st'. split; [|done]. exists (Ok v), st1. done.
      * exists (Err e), st1. split; [|done]. exists (Err e), st1. done.
    + intros (r & st' & (r1 & st1 & Hstep & Hk) & H).
      exists r1, st1. split; [done|]. destruct r1 as [v|e].
      * apply IH. eauto.
      * injection Hk as -> ->. done.
Qed.

Lemma runs_call {R} (c : NativeCall R) st out :
  runs (call c) st out ↔ step c st out.
Proof.
  unfold call; simpl. split.
  - intros (r & st' & Hstep & H). destruct r; by subst.
  - intros H. destruct out as [r st']. exists r, st'. by destruct r.
Qed.

Lemma runs_wrap (c : NativeCall handle) st out :
  runs (wrap c) st out ↔
  ∃ r st', step c st (r, st')
           ∧ out = (match r with
                    | Ok h => Ok (_DataFrame h)
                    | Err e => Err e
                    end, st').
Proof.
  unfold wrap; simpl. split.
  - intros (r & st' & Hstep & H). exists r, st'. by destruct r.
  - intros (r & st' & Hstep & ->). exists r, st'. by destruct r.
Qed.

(** ** Members read through the Proxy *)

Lemma column_of_name (f : list Series) (n : string) :
  n ∈ Frame.columns f →
  ∃ c, Frame.column f n = Some c ∧ name c = n ∧ c ∈ f.
Proof.
  unfold Frame.column, Frame.columns. induction f as [|s f IH]; simpl.
  - intros H. by apply elem_of_nil in H.
  - intros H. destruct (String.eqb_spec (name s) n) as [Heq|Hne].
    + exists s. split; [done|]. split; [done|by left].
    + apply elem_of_cons in H as [->|H]; [done|].
      destruct (IH H) as (c & Hc & Hn & Hin). exists c.
      split; [done|]. split; [done|by right].
Qed.

Lemma column_not_found (f : list Series) (n : string) :
  n ∉ Frame.columns f → Frame.column f n = None.
Proof.
  unfold Frame.column, Frame.columns. induction f as [|s f IH]; simpl; [done|].
  intros Hn. apply not_elem_of_cons in Hn as [Hne Hn].
  destruct (String.eqb_spec (name s) n) as [Heq|_]; [done|]. by apply IH.
Qed.

Lemma runs_member_own {A} (d : DataFrame) n (column : Series → Prog A)
    (own : Prog A) st (f : list Series) out :
  st !! _df d = Some f →
  n ∉ Frame.columns f →
  runs (member d n column own) st out ↔ runs own st out.
Proof.
  intros Hf Hn. unfold member. rewrite runs_bind.
  setoid_rewrite runs_call. cbn [step]. unfold on_frame. rewrite Hf.
  split.
  - intros (r & st' & [= -> ->] & Hrest).
    by rewrite bool_decide_eq_false_2 in Hrest.
  - intros Hown. exists (Ok (Frame.columns f)), st. split; [done|].
    by rewrite bool_decide_eq_false_2.
Qed.

Lemma runs_member_column {A} (d : DataFrame) n (column : Series → Prog A)
    (own : Prog A) st (f : list Series) c out :
  st !! _df d = Some f →
  n ∈ Frame.columns f →
  Frame.column f n = Some c →
  runs (member d n column own) st out ↔ runs (column c) st out.
Proof.
  intros Hf Hn Hc. unfold member. rewrite runs_bind.
  setoid_rewrite runs_call. cbn [step]. unfold on_frame. rewrite Hf.
  assert (Hcol : ∀ o, runs (let* c := call (NColumn (_df d) n) in column c)
                           st o ↔ runs (column c) st o).
  { intros o. rewrite runs_bind. setoid_rewrite runs_call. cbn [step].
    unfold on_frame. rewrite Hf, Hc. split.
    - intros (r & st' & [= -> ->] & Hrest). exact Hrest.
    - intros Hrest. by exists (Ok c), st. }
  split.
  - intros (r & st' & [= -> ->] & Hrest).
    rewrite bool_decide_eq_true_2 in Hrest by done. by apply Hcol.
  - intros Hrest. exists (Ok (Frame.columns f)), st. split; [done|].
    rewrite bool_decide_eq_true_2 by done. by apply Hcol.
Qed.

(** A member read changes nothing by itself: the run is one of the
    continuation, or an error of the read in the same store. *)
Lemma runs_member_inv {A} (d : DataFrame) n (column : Series → Prog A)
    (own : Prog A) st out :
  runs (member d n column own) st out →
  runs own st out ∨ (∃ c, runs (column c) st out) ∨ (∃ e, out = (Err e, st)).
Proof.
  unfold member. rewrite runs_bind. setoid_rewrite runs_call. cbn [step].
  unfold on_frame, fail. intros (r & st' & Hcols & Hrest).
  destruct (st !! _df d) as [f|] eqn:Hf.
  - injection Hcols as -> ->. case_bool_decide; [|by left].
    apply runs_bind in Hrest as (r1 & st1 & Hcol & Hrest).
    apply runs_call in Hcol. cbn [step] in Hcol. unfold on_frame in Hcol.
    rewrite Hf in Hcol.
    destruct (Frame.column f n) as [c|]; injection Hcol as -> ->.
    + right. left. by exists c.
    + right. right. eauto.
  - injection Hcols as -> ->. right. right. eauto.
Qed.

Lemma runs_method_call_own {A} receiver (d : DataFrame) n (body : Prog A)
    st (f : list Series) out :
  st !! _df d = Some f →
  n ∉ Frame.columns f →
  runs (method_call receiver d n body) st out ↔ runs body st out.
Proof. intros Hf Hn. by apply (runs_member_own d n _ body st f). Qed.

Lemma runs_method_call_column {A} receiver (d : DataFrame) n (body : Prog A)
    st (f : list Series) out :
  st !! _df d = Some f →
  n ∈ Frame.columns f →
  runs (method_call receiver d n body) st out
  ↔ out = (Err (not_a_function receiver n), st).
Proof.
  intros Hf Hn. destruct (column_of_name f n Hn) as (c & Hc & _ & _).
  unfold method_call. by rewrite (runs_member_column d n _ body st f c).
Qed.

Lemma runs_method_call_inv {A} receiver (d : DataFrame) n (body : Prog A)
    st out :
  runs (method_call receiver d n body) st out →
  runs body st out ∨ (∃ e, out = (Err e, st)).
Proof.
  intros H. apply runs_member_inv in H as [H|[[c H]|H]]; [by left| |by right].
  right. simpl in H. eauto.
Qed.

(** ** head and limit *)

(** C9. [limit(n)] is the same program as [head(n)]; without a length both
    ask for 5 rows, and running either on a frame yields a new DataFrame
    holding its first 5 rows. *)
Theorem limit_is_head (this : DataFrame) (length_ : option Number) :
  df.limit this length_ = df.head this length_
  ∧ df.limit this None = df.head this (Some (of_nat 5))
  ∧ ∀ st f out,
      st !! _df this = Some f →
      (runs (df.limit this None) st out ↔
       out = (Ok (_DataFrame (length st)), st ++ [head_rows 5 f])).
Proof.
  split; [reflexivity|]. split; [reflexivity|].
  intros st f out Hf. unfold df.limit. rewrite runs_wrap. simpl.
  unfold on_frame. rewrite Hf. simpl. unfold alloc. split.
  - intros (r & st' & [= -> ->] & ->). done.
  - intros ->. eauto.
Qed.

Lemma limit_is_head_witness :
  [Examples.seven] !! 0 = Some Examples.seven
  ∧ runs (df.limit (_DataFrame 0) None) [Examples.seven]
         (Ok (_DataFrame 1), [Examples.seven; Examples.first_five])
  ∧ runs (df.head (_DataFrame 0) None) [Examples.seven]
         (Ok (_DataFrame 1), [Examples.seven; Examples.first_five]).
Proof.
  assert (H : [Examples.seven] !! 0 = Some Examples.seven) by reflexivity.
  destruct (limit_is_head (_DataFrame 0) None) as (Heq & _ & Hrun).
  split; [exact H|]. rewrite <- Heq.
  split; apply (Hrun [Examples.seven] Examples.seven _ H); reflexivity.
Defined.

(** ** sample *)

(** C6, as the code has it. A call to [sample] with at least one argument
    in which neither [n] nor [frac] is given throws the TypeError
    "must specify either 'frac' or 'n'" and reaches no native call, so no
    DataFrame is returned; a call without any argument asks the native
    layer for a sample of one row. *)
Theorem sample_requires_n_or_frac (this : DataFrame) :
  (∀ opts frac withReplacement seed,
     neither_given opts frac →
     df.sample this (Arguments_ opts frac withReplacement seed)
       = Throw must_specify
     ∧ ∀ st out,
         runs (df.sample this (Arguments_ opts frac withReplacement seed))
              st out →
         out = (Err must_specify, st))
  ∧ df.sample this NoArguments
      = wrap (NSampleN (_df this) (of_nat 1) false false None).
Proof.
  split; [|reflexivity].
  intros opts frac wr seed [-> Hopts].
  assert (Heq : df.sample this (Arguments_ opts None wr seed)
                = Throw must_specify).
  { destruct Hopts as [->|[w ->]]; reflexivity. }
  split; [exact Heq|]. intros st out. rewrite Heq. simpl. done.
Qed.

Lemma sample_requires_n_or_frac_witness :
  neither_given SampleUndefined None
  ∧ df.sample (_DataFrame 0) (Arguments_ SampleUndefined None None None)
    = Throw must_specify.
Proof.
  assert (H : neither_given SampleUndefined None).
  { split; [reflexivity|]. left. reflexivity. }
  split; [exact H|].
  exact (proj1 (proj1 (sample_requires_n_or_frac (_DataFrame 0))
                  SampleUndefined None None None H)).
Defined.

(** C6, as stated, fails for the call without arguments: [sample()] does
    not throw, it is the native request for one row, and it can return a
    DataFrame. *)
Lemma sample_without_arguments_returns :
  df.sample (_DataFrame 0) NoArguments
    = wrap (NSampleN 0 (of_nat 1) false false None)
  ∧ df.sample (_DataFrame 0) NoArguments ≠ Throw must_specify
  ∧ runs (df.sample (_DataFrame 0) NoArguments) [Examples.seven]
         (Ok (_DataFrame 1), [Examples.seven; Examples.one_row]).
Proof.
  split; [reflexivity|]. split; [discriminate|].
  apply runs_wrap. exists (Ok 1), [Examples.seven; Examples.one_row].
  split; [|reflexivity]. simpl. right. exists Examples.one_row. reflexivity.
Qed.

(** ** pivot *)

(** Each of the eight known names resolves to the aggregate of that name
    over [element()]. *)
Lemma pivot_known_aggregates :
  lookup_aggregate "first" = Some (FnExpr (agg First element))
  ∧ lookup_aggregate "sum" = Some (FnExpr (agg Sum element))
  ∧ lookup_aggregate "max" = Some (FnExpr (agg Max element))
  ∧ lookup_aggregate "min" = Some (FnExpr (agg Min element))
  ∧ lookup_aggregate "mean" = Some (FnExpr (agg Mean element))
  ∧ lookup_aggregate "median" = Some (FnExpr (agg Median element))
  ∧ lookup_aggregate "last" = Some (FnExpr (agg Last element))
  ∧ lookup_aggregate "count" = Some (FnExpr (agg Count element)).
Proof. repeat split. Qed.

Lemma get_pivot_aggregates_None (s : string) :
  s ∉ known_aggregates → Js.get pivot_aggregates s = None.
Proof.
  intros Hs. unfold Js.get, pivot_aggregates. cbn [List.find fst].
  repeat match goal with
         | |- context [String.eqb ?a s] =>
             destruct (String.eqb_spec a s) as [<-|_];
             [exfalso; apply Hs; apply list_elem_of_In; simpl; tauto|]
         end.
  reflexivity.
Qed.

(** With one of the eight names, [pivot] hands the aggregate of that name
    over [element()] to the native pivot. *)
Lemma pivot_known_aggregate (this : DataFrame) values (o : PivotOptions)
    (a : Aggregate) :
  aggregateFunc o = Some (AggName (aggregate_name a)) →
  df.pivot this values (Some o)
  = wrap (NPivotExpr (_df this)
            (flat <$> (if pivot_values o is Some v then Some v else values))
            (flat <$> index o) (flat <$> pivot_columns o)
            (FnExpr (agg a element))
            (default true (maintainOrder o)) (default false (sortColumns o))
            (separator o)).
Proof. intros Ha. unfold df.pivot. rewrite Ha. by destruct a. Qed.

(** A name that is neither one of the eight nor inherited from
    [Object.prototype] makes [pivot] throw "Unknown aggregate function". *)
Lemma pivot_unknown_aggregate (this : DataFrame) values (o : PivotOptions)
    (s : string) :
  aggregateFunc o = Some (AggName s) →
  s ∉ known_aggregates →
  Js.inherited s = false →
  df.pivot this values (Some o)
    = Throw (Error ("Unknown aggregate function " +:+ s)).
Proof.
  intros Ho Hs Hi. unfold df.pivot. rewrite Ho. simpl.
  unfold lookup_aggregate.
  rewrite (get_pivot_aggregates_None s Hs), Hi. reflexivity.
Qed.

(** C5, at the failing input. With [aggregateFunc: "constructor"], a
    string outside the eight names, the table lookup finds the member
    inherited from [Object.prototype]; no "Unknown aggregate function"
    error is thrown and the native pivot is called with that member in
    place of an aggregate expression. *)
Theorem pivot_inherited_name_not_rejected :
  ("constructor" ∉ known_aggregates)
  ∧ df.pivot (_DataFrame 0) (Some (Single "baz"))
             (Some (Examples.pivot_options "constructor"))
    = wrap (NPivotExpr 0 (Some ["baz"]) (Some ["foo"]) (Some ["bar"])
              (FnPrototypeMember "constructor") true false None)
  ∧ df.pivot (_DataFrame 0) (Some (Single "baz"))
             (Some (Examples.pivot_options "constructor"))
    ≠ Throw (Error "Unknown aggregate function constructor").
Proof.
  split.
  - unfold known_aggregates. intros H.
    repeat (apply elem_of_cons in H as [H|H]; [discriminate H|]).
    by apply elem_of_nil in H.
  - split; [reflexivity|discriminate].
Qed.

(** ** transpose *)

Lemma takeNItems_loop_yielded next n pulls :
  ∀ i result,
    i ≤ n → n - i < pulls →
    takeNItems_loop next n i result pulls = result ++ yielded next i (n - i).
Proof.
  induction pulls as [|p IH]; intros i result Hi Hp; [lia|].
  simpl. destruct (next i) as [item|] eqn:Hnext.
  - destruct (Nat.leb_spec n i) as [Hle|Hlt].
    + replace (n - i) with 0 by lia. simpl. by rewrite app_nil_r.
    + rewrite IH by lia. replace (n - i) with (S (n - S i)) by lia.
      simpl. rewrite Hnext. by rewrite <- app_assoc.
  - destruct (n - i) as [|c]; simpl; [|rewrite Hnext]; by rewrite app_nil_r.
Qed.

(** The loop of [takeNItems] always ends within its [n + 1] pulls. *)
Lemma takeNItems_yielded next n : takeNItems next n = yielded next 0 n.
Proof.
  unfold takeNItems. rewrite takeNItems_loop_yielded by lia.
  simpl. by rewrite Nat.sub_0_r.
Qed.

Lemma yielded_length next i count : length (yielded next i count) ≤ count.
Proof.
  revert i. induction count as [|c IH]; intros i; simpl; [lia|].
  destruct (next i); simpl; [specialize (IH (S i))|]; lia.
Qed.

Lemma yielded_lookup next count :
  ∀ i j, j < length (yielded next i count) →
         yielded next i count !! j = next (i + j).
Proof.
  induction count as [|c IH]; intros i j; simpl; [lia|].
  destruct (next i) as [x|] eqn:Hnext; simpl; [|lia].
  destruct j as [|j]; simpl.
  - intros _. by rewrite Nat.add_0_r.
  - intros Hj. rewrite IH by lia. f_equal. lia.
Qed.

Lemma yielded_short next count :
  ∀ i, length (yielded next i count) < count →
       next (i + length (yielded next i count)) = None.
Proof.
  induction count as [|c IH]; intros i; simpl; [lia|].
  destruct (next i) as [x|] eqn:Hnext; simpl.
  - intros Hlt. rewrite <- (IH (S i)) by lia. f_equal. lia.
  - intros _. by rewrite Nat.add_0_r.
Qed.

Lemma transpose_program (this : DataFrame)
    (up_to_series : Series → Iterable → Prog (list string))
    (o : TransposeOptions) (names : Iterable) :
  columnNames o = Some names →
  df.transpose this up_to_series (Some o)
  = (let* columnNames :=
       member this "height" (fun h => up_to_series h names)
         (let* h := df.get_height this in
          Ret (transpose_columnNames names h)) in
     wrap (NTranspose (_df this) (keep_names_as o) (Some columnNames))).
Proof.
  intros Hnames. unfold df.transpose, keep_names_as. simpl.
  rewrite Hnames. reflexivity.
Qed.

Lemma runs_transpose (this : DataFrame)
    (up_to_series : Series → Iterable → Prog (list string))
    (o : TransposeOptions) (names : Iterable) st (f : list Series) out :
  st !! _df this = Some f →
  "height" ∉ Frame.columns f →
  columnNames o = Some names →
  runs (df.transpose this up_to_series (Some o)) st out
  ↔ runs (wrap (NTranspose (_df this) (keep_names_as o)
                  (Some (transpose_columnNames names (Frame.height f)))))
         st out.
Proof.
  intros Hf Hh Hnames.
  rewrite (transpose_program this up_to_series o names Hnames).
  rewrite runs_bind. split.
  - intros (r & st' & Hread & Hrest).
    rewrite (runs_member_own this "height" _ _ st f _ Hf Hh) in Hread.
    apply runs_bind in Hread as (r1 & st1 & Hheight & Hret).
    apply runs_call in Hheight. cbn [step] in Hheight.
    unfold on_frame in Hheight. rewrite Hf in Hheight.
    injection Hheight as -> ->. simpl in Hret. injection Hret as -> ->.
    exact Hrest.
  - intros Hrest.
    exists (Ok (transpose_columnNames names (Frame.height f))), st.
    split; [|exact Hrest].
    rewrite (runs_member_own this "height" _ _ st f _ Hf Hh).
    apply runs_bind. exists (Ok (Frame.height f)), st. split; [|done].
    apply runs_call. cbn [step]. unfold on_frame. by rewrite Hf.
Qed.

Lemma runs_transpose_height_column (this : DataFrame)
    (up_to_series : Series → Iterable → Prog (list string))
    (o : TransposeOptions) (names : Iterable) st (f : list Series) c out :
  st !! _df this = Some f →
  "height" ∈ Frame.columns f →
  Frame.column f "height" = Some c →
  columnNames o = Some names →
  runs (df.transpose this up_to_series (Some o)) st out
  ↔ runs (let* columnNames := up_to_series c names in
          wrap (NTranspose (_df this) (keep_names_as o) (Some columnNames)))
         st out.
Proof.
  intros Hf Hh Hc Hnames.
  rewrite (transpose_program this up_to_series o names Hnames).
  rewrite !runs_bind. split.
  - intros (r & st' & Hread & Hrest). exists r, st'. split; [|done].
    by rewrite (runs_member_column this "height" _ _ st f c _ Hf Hh Hc)
      in Hread.
  - intros (r & st' & Hread & Hrest). exists r, st'. split; [|done].
    by rewrite (runs_member_column this "height" _ _ st f c _ Hf Hh Hc).
Qed.

(** C7, as the code has it. On a frame without a column named ["height"]
    the names [transpose] hands to the native transposition are the
    longest prefix of the given sequence that has at most [height] names:
    names beyond the height are dropped, and a sequence with fewer names is
    handed over as it is, without padding.  On a frame with a column named
    ["height"], [this.height] is that column and the row count is not
    consulted. *)
Theorem transpose_names_truncated (this : DataFrame)
    (up_to_series : Series → Iterable → Prog (list string))
    (o : TransposeOptions) (names : Iterable) st (f : list Series) :
  columnNames o = Some names →
  st !! _df this = Some f →
  ("height" ∉ Frame.columns f →
   ∀ out, runs (df.transpose this up_to_series (Some o)) st out
          ↔ runs (wrap (NTranspose (_df this) (keep_names_as o)
                          (Some (transpose_columnNames names
                                   (Frame.height f))))) st out)
  ∧ (∀ h,
       length (transpose_columnNames names h) ≤ h
       ∧ (∀ i, i < length (transpose_columnNames names h) →
               transpose_columnNames names h !! i = nth_name names i)
       ∧ (length (transpose_columnNames names h) < h →
          nth_name names (length (transpose_columnNames names h)) = None))
  ∧ (∀ c, "height" ∈ Frame.columns f →
          Frame.column f "height" = Some c →
          ∀ out, runs (df.transpose this up_to_series (Some o)) st out
                 ↔ runs (let* columnNames := up_to_series c names in
                         wrap (NTranspose (_df this) (keep_names_as o)
                                 (Some columnNames))) st out).
Proof.
  intros Hnames Hf. split; [|split].
  - intros Hh out. by apply (runs_transpose this up_to_series o names st f).
  - intros h. destruct names as [l|next]; simpl.
    + rewrite length_take. split; [lia|]. split.
      * intros i Hi. apply lookup_take_lt. lia.
      * intros Hlt. apply lookup_ge_None. lia.
    + rewrite takeNItems_yielded. split; [apply yielded_length|]. split.
      * intros i Hi. by rewrite yielded_lookup.
      * intros Hlt. by apply (yielded_short next h 0).
  - intros c Hh Hc out.
    by apply (runs_transpose_height_column this up_to_series o names st f c).
Qed.

Lemma transpose_names_truncated_witness :
  (∀ out,
     runs (df.transpose (_DataFrame 0) (fun _ _ => Ret [])
             (Some (mkTransposeOptions None None (Some Examples.endless))))
          [Examples.repeated] out
     ↔ runs (wrap (NTranspose 0 None (Some ["col_"; "col_"; "col_"])))
            [Examples.repeated] out)
  ∧ transpose_columnNames Examples.endless 3 = ["col_"; "col_"; "col_"].
Proof.
  assert (Hh : "height" ∉ Frame.columns Examples.repeated).
  { intros Hin. apply list_elem_of_In in Hin. simpl in Hin.
    destruct Hin as [[=]|[[=]|[]]]. }
  split; [|reflexivity].
  exact (proj1 (transpose_names_truncated (_DataFrame 0) (fun _ _ => Ret [])
                  (mkTransposeOptions None None (Some Examples.endless))
                  Examples.endless [Examples.repeated] Examples.repeated
                  eq_refl eq_refl) Hh).
Defined.

(** C7, as stated, fails for a sequence shorter than the height: on a
    frame of height 3 the single name ["a"] is handed over alone, from an
    array as from a generator; the two missing names are not filled in. *)
Lemma transpose_short_names_not_padded :
  Frame.height Examples.repeated = 3
  ∧ transpose_columnNames (IArray ["a"]) 3 = ["a"]
  ∧ transpose_columnNames
      (IIterator (fun i => if i is 0 then Some "a" else None)) 3
    = ["a"]
  ∧ length (transpose_columnNames (IArray ["a"]) 3) ≠ 3
  ∧ (∀ out,
       runs (df.transpose (_DataFrame 0) (fun _ _ => Ret [])
               (Some (mkTransposeOptions None None (Some (IArray ["a"])))))
            [Examples.repeated] out
       ↔ runs (wrap (NTranspose 0 None (Some ["a"])))
              [Examples.repeated] out).
Proof.
  split; [reflexivity|]. split; [reflexivity|]. split; [reflexivity|].
  split; [simpl; lia|]. intros out.
  apply (runs_transpose (_DataFrame 0) (fun _ _ => Ret [])
           (mkTransposeOptions None None (Some (IArray ["a"])))
           (IArray ["a"]) [Examples.repeated] Examples.repeated out
           eq_refl); [|reflexivity].
  intros Hin. apply list_elem_of_In in Hin. simpl in Hin.
  destruct Hin as [[=]|[[=]|[]]].
Qed.

(** ** sort *)

(** With a column name and [maintain_order] passed positionally, the flag
    reaches the native sort, whose result then keeps ties in their
    original order. *)
Lemma sort_by_name_stable (this : DataFrame) (n : string) (d : option bool)
    st f key res st' :
  st !! _df this = Some f →
  Frame.column f n = Some key →
  runs (df.sort this (SortBy (ByName n)) d (Some true)) st (Ok res, st') →
  ∃ idx, idx ≡ₚ seq 0 (Frame.height f)
         ∧ res = _DataFrame (length st)
         ∧ st' = st ++ [Frame.take_rows idx f]
         ∧ ordered (default false d) true (values key) idx
         ∧ ties_in_order (default false d) true (values key) idx.
Proof.
  intros Hf Hkey. unfold df.sort, df.sort_by. rewrite runs_wrap. simpl.
  unfold on_frame. rewrite Hf, Hkey.
  intros (r & st1 & (f' & (idx & Hperm & -> & Hord & Hties) & Hout) & Hres).
  injection Hout as -> ->. injection Hres as -> ->. exists idx. repeat split; auto.
Qed.

(** C3, at the failing input. With the options object
    [{by: "k", maintain_order: true}] the call is forwarded as
    [this.sort("k", undefined)]: the flag is dropped, the native sort is
    asked for an unstable sort, and on [{k: [1, 1], v: ["x", "y"]}] the
    result with the two tied rows exchanged is among its outcomes. *)
Theorem sort_options_maintain_order_dropped :
  (∀ this by_ d mo d' mo',
     df.sort this (SortOptions (Some by_) d mo) d' mo'
     = df.sort this (SortBy by_) d (Some false))
  ∧ df.sort (_DataFrame 0) (SortOptions (Some (ByName "k")) None (Some true))
            None None
    = wrap (NSort 0 (Some (ByName "k")) false true false)
  ∧ runs (df.sort (_DataFrame 0)
            (SortOptions (Some (ByName "k")) None (Some true)) None None)
         [Examples.ties]
         (Ok (_DataFrame 1), [Examples.ties; Examples.ties_swapped]).
Proof.
  split; [reflexivity|]. split; [reflexivity|].
  apply runs_wrap. exists (Ok 1), [Examples.ties; Examples.ties_swapped].
  split; [|reflexivity]. simpl. exists Examples.ties_swapped.
  split; [|reflexivity]. exists [1; 0]. split; [apply perm_swap|].
  split; [reflexivity|]. split; [|discriminate].
  repeat constructor; discriminate.
Qed.

(** ** join *)

Lemma is_Some_Some_true {A} (x : A) : bool_decide (is_Some (Some x)) = true.
Proof. apply bool_decide_eq_true_2. eauto. Qed.

Lemma is_Some_None_false :
  bool_decide (is_Some (@None (list string))) = false.
Proof. apply bool_decide_eq_false_2. intros [? [=]]. Qed.







(** ** Effects on the receiver *)

Lemma only_touches_refl c st : only_touches c st st.
Proof. split; [done|]. by intros h _. Qed.

Lemma only_touches_trans c st1 st2 st3 :
  only_touches c st1 st2 → only_touches c st2 st3 → only_touches c st1 st3.
Proof.
  intros [L12 H12] [L23 H23]. split; [congruence|].
  intros h Hh. by rewrite H23, H12.
Qed.

Lemma only_touches_insert c (f : list Series) (st : store) :
  only_touches c st (<[c := f]> st).
Proof.
  split; [apply length_insert|]. intros h Hh. by apply list_lookup_insert_ne.
Qed.

Lemma for_of_only_touches {A} c (body : A → Prog unit) (l : list A) :
  (∀ x st out, runs (body x) st out → only_touches c st (snd out)) →
  ∀ st out, runs (for_of l body) st out → only_touches c st (snd out).
Proof.
  intros Hbody. induction l as [|x l IH]; intros st out; simpl.
  - intros ->. apply only_touches_refl.
  - rewrite runs_bind. intros (r & st' & Hx & Hrest).
    apply Hbody in Hx. simpl in Hx. destruct r as [[]|e].
    + eapply only_touches_trans; [exact Hx|]. by apply IH.
    + by subst out.
Qed.

Lemma rename_only_touches c column new_col st out :
  runs (call (NRename c column new_col)) st out →
  only_touches c st (snd out).
Proof.
  rewrite runs_call. simpl. unfold on_frame, fail.
  destruct (st !! c) as [f|]; [|intros ->; apply only_touches_refl].
  repeat case_match; intros ->; simpl;
    auto using only_touches_refl, only_touches_insert.
Qed.

Lemma dropInPlace_only_touches c n st out :
  runs (call (NDropInPlace c n) >> Ret tt) st out →
  only_touches c st (snd out).
Proof.
  rewrite runs_bind. intros (r & st' & Hstep & Hout).
  apply runs_call in Hstep. simpl in Hstep. unfold on_frame, fail in Hstep.
  assert (Hst' : only_touches c st st').
  { destruct (st !! c) as [f|]; [|injection Hstep as -> ->;
                                    apply only_touches_refl].
    destruct (Frame.column f n); injection Hstep as -> ->;
      auto using only_touches_refl, only_touches_insert. }
  destruct r; simpl in Hout; by subst out.
Qed.

Lemma on_frame_opaque st h (k : frame → Outcome handle → Prop) out :
  (∀ f, k f out → opaque st out) → on_frame st h k out → opaque st out.
Proof.
  intros Hk. unfold on_frame. destruct (st !! h) as [f|]; [apply Hk|].
  intros ->. left. by eexists.
Qed.

Lemma clone_returns_new_frame h : returns_new_frame (NClone h).
Proof.
  intros st out. simpl. apply on_frame_opaque. intros f ->. right. eauto.
Qed.

Lemma drop_returns_new_frame h n : returns_new_frame (NDrop h n).
Proof.
  intros st out. simpl. apply on_frame_opaque. intros f.
  destruct (has_column f n); intros ->; [right|left]; by eexists.
Qed.

Lemma lazy_returns_new_frame h op opts :
  returns_new_frame (NLazyCollect h op opts).
Proof. intros st out. simpl. by apply on_frame_opaque. Qed.

Lemma pivot_returns_new_frame h v i c fn mo sc sep :
  returns_new_frame (NPivotExpr h v i c fn mo sc sep).
Proof. intros st out. simpl. by apply on_frame_opaque. Qed.

Lemma sort_returns_new_frame h by_ d nl mo :
  returns_new_frame (NSort h by_ d nl mo).
Proof.
  intros st out. simpl. apply on_frame_opaque. intros f.
  destruct by_ as [[n|e|l]|]; try done.
  destruct (Frame.column f n); [|intros ->; left; by eexists].
  intros (f' & _ & ->). right. eauto.
Qed.

Lemma join_returns_new_frame h other l r how_ sfx :
  returns_new_frame (NJoin h other l r how_ sfx).
Proof.
  intros st out. simpl. apply on_frame_opaque. intros f.
  apply on_frame_opaque. intros g. unfold join_result, fail.
  destruct l, r; try (intros ->; left; by eexists).
  case_bool_decide; [|intros ->; left; by eexists].
  destruct (String.eqb how_ "cross"); [|done].
  intros ->. right. eauto.
Qed.

Lemma wrap_leaves_receiver (c : NativeCall handle) (this : DataFrame) :
  returns_new_frame c →
  leaves_receiver (fun res => Some (_df res)) (wrap c) this.
Proof.
  intros Hc st f out Hf. rewrite runs_wrap.
  intros (r & st' & Hstep & ->). apply Hc in Hstep.
  pose proof (lookup_lt_Some _ _ _ Hf) as Hlt.
  destruct Hstep as [[e [= -> ->]]|[f' [= -> ->]]]; cbn [fst snd].
  - split; [done|]. intros res h [=].
  - split; [by rewrite lookup_app_l|].
    intros res h [= <-] [= <-]. split; [done|].
    rewrite list_lookup_middle by done. eauto.
Qed.

Lemma throw_leaves_receiver {A} (rh : A → option handle) e this :
  leaves_receiver rh (Throw e) this.
Proof.
  intros st f out Hf Hr. simpl in Hr. subst out. cbn [fst snd].
  split; [done|]. intros res h Hres. discriminate Hres.
Qed.

Lemma join_column_returns_new_frame h c l r how_ sfx :
  returns_new_frame (NJoinColumn h c l r how_ sfx).
Proof. intros st out. simpl. by apply on_frame_opaque. Qed.

Lemma member_leaves_receiver {A} (rh : A → option handle) (d : DataFrame) n
    (column : Series → Prog A) (own : Prog A) this :
  (∀ c, leaves_receiver rh (column c) this) →
  leaves_receiver rh own this →
  leaves_receiver rh (member d n column own) this.
Proof.
  intros Hcol Hown st f out Hf H.
  apply runs_member_inv in H as [H|[[c H]|[e ->]]].
  - by apply (Hown st f).
  - by apply (Hcol c st f).
  - cbn [fst snd]. split; [done|]. intros res h [=].
Qed.

Lemma method_call_only_touches {A} receiver (d : DataFrame) n
    (body : Prog A) c st out :
  (runs body st out → only_touches c st (snd out)) →
  runs (method_call receiver d n body) st out →
  only_touches c st (snd out).
Proof.
  intros Hbody H. apply runs_method_call_inv in H as [H|[e ->]].
  - by apply Hbody.
  - apply only_touches_refl.
Qed.

Lemma clone_then_leaves_receiver (this : DataFrame) (loop : DataFrame → Prog unit) :
  (∀ c st out, runs (loop (_DataFrame c)) st out →
               only_touches c st (snd out)) →
  leaves_receiver (fun res => Some (_df res))
    (let* d := method_call "this" this "clone" (df.clone this) in
     loop d >> Ret d) this.
Proof.
  intros Hloop st f out Hf. rewrite runs_bind.
  intros (r1 & st1 & Hclone & Hrest).
  pose proof (lookup_lt_Some _ _ _ Hf) as Hlt.
  apply runs_method_call_inv in Hclone as [Hclone|[e [= -> ->]]];
    [|subst out; cbn [fst snd]; split; [done|]; intros res h [=]].
  unfold df.clone in Hclone. apply runs_wrap in Hclone.
  destruct Hclone as (r & st' & Hstep & [= -> ->]).
  simpl in Hstep. unfold on_frame in Hstep. rewrite Hf in Hstep.
  injection Hstep as -> ->.
  apply runs_bind in Hrest as (r2 & st2 & Hl & Hout).
  apply Hloop in Hl as [Hlen Hsame]. cbn [snd] in Hlen, Hsame.
  assert (Hrecv : st2 !! _df this = Some f).
  { rewrite Hsame by lia. by rewrite lookup_app_l. }
  assert (Hnew : is_Some (st2 !! length st)).
  { apply lookup_lt_is_Some. rewrite Hlen, length_app. simpl. lia. }
  destruct r2 as [[]|e]; simpl in Hout; subst out; cbn [fst snd].
  - split; [done|]. by intros res h [= <-] [= <-].
  - split; [done|]. intros res h [=].
Qed.

(** C2, as the code has it. [rename] and [drop] work on a clone: like
    [filter], [sort], [join] and [pivot] they leave the receiver's frame
    (its columns, names and height) as it was and return a DataFrame at a
    new handle; [groupBy] returns a GroupBy handle and touches nothing. *)
Theorem receiver_left_unchanged (this : DataFrame) :
  (∀ mapping,
     leaves_receiver (fun res => Some (_df res)) (df.rename this mapping) this)
  ∧ (∀ names,
       leaves_receiver (fun res => Some (_df res)) (df.drop this names) this)
  ∧ (∀ predicate,
       leaves_receiver (fun res => Some (_df res))
         (df.filter this predicate) this)
  ∧ (∀ arg descending maintain_order,
       leaves_receiver (fun res => Some (_df res))
         (df.sort this arg descending maintain_order) this)
  ∧ (∀ other options,
       leaves_receiver (fun res => Some (_df res))
         (df.join this other options) this)
  ∧ (∀ values options,
       leaves_receiver (fun res => Some (_df res))
         (df.pivot this values options) this)
  ∧ (∀ by_, leaves_receiver (fun _ => None) (df.groupBy this by_) this).
Proof.
  repeat apply conj.
  - intros mapping. unfold df.rename.
    apply (clone_then_leaves_receiver this
             (fun d => for_of (Js.entries mapping)
                         (fun e => method_call "df" d "inner"
                                     (call (NRename (inner d) e.1 e.2))))).
    intros c st out. apply for_of_only_touches.
    intros x st' out'. apply method_call_only_touches.
    apply rename_only_touches.
  - intros names. unfold df.drop.
    assert (Hclone : leaves_receiver (fun res => Some (_df res))
              (let* d := method_call "this" this "clone" (df.clone this) in
               for_of (mjoin (flat <$> names))
                 (fun n => method_call "df" d "inner"
                             (call (NDropInPlace (inner d) n) >> Ret tt))
               >> Ret d) this).
    { apply (clone_then_leaves_receiver this
               (fun d => for_of (mjoin (flat <$> names))
                  (fun n => method_call "df" d "inner"
                              (call (NDropInPlace (inner d) n) >> Ret tt)))).
      intros c st out. apply for_of_only_touches.
      intros x st' out'. apply method_call_only_touches.
      apply dropInPlace_only_touches. }
    destruct names as [|[n|l] [|? ?]]; try exact Hclone.
    apply wrap_leaves_receiver, drop_returns_new_frame.
  - intros predicate. apply wrap_leaves_receiver, lazy_returns_new_frame.
  - intros arg d mo. unfold df.sort, df.sort_by.
    destruct arg as [[n|e|l]|[[n|e|l]|] od omo];
      apply wrap_leaves_receiver;
      auto using lazy_returns_new_frame, sort_returns_new_frame.
  - intros other options. unfold df.join, df.join_with.
    repeat case_match; try apply throw_leaves_receiver;
      (apply member_leaves_receiver; [intros c|]; apply wrap_leaves_receiver;
       [apply join_column_returns_new_frame|apply join_returns_new_frame]).
  - intros values options. unfold df.pivot.
    repeat case_match; try apply throw_leaves_receiver;
      apply wrap_leaves_receiver, pivot_returns_new_frame.
  - intros by_ st f out Hf. simpl. intros ->. simpl. split; [done|].
    intros res h _ [=].
Qed.

Lemma rename_example_runs :
  runs (df.rename (_DataFrame 0) [("a", "c")]) [Examples.two_columns]
       (Ok (_DataFrame 1), [Examples.two_columns; Examples.renamed]).
Proof.
  apply runs_bind. exists (Ok (_DataFrame 1)), [Examples.two_columns; Examples.two_columns].
  split.
  { apply (runs_method_call_own "this" (_DataFrame 0) "clone" _
             [Examples.two_columns] Examples.two_columns);
      [reflexivity|not_a_column|].
    apply runs_wrap. eexists (Ok 1), _. split; reflexivity. }
  apply runs_bind. exists (Ok tt), [Examples.two_columns; Examples.renamed].
  split; [|reflexivity].
  apply runs_bind. exists (Ok tt), [Examples.two_columns; Examples.renamed].
  split; [|reflexivity].
  apply (runs_method_call_own "df" (_DataFrame 1) "inner" _
           [Examples.two_columns; Examples.two_columns] Examples.two_columns);
    [reflexivity|not_a_column|].
  apply runs_call. reflexivity.
Qed.

Lemma receiver_left_unchanged_witness :
  [Examples.two_columns] !! 0 = Some Examples.two_columns
  ∧ runs (df.rename (_DataFrame 0) [("a", "c")]) [Examples.two_columns]
         (Ok (_DataFrame 1), [Examples.two_columns; Examples.renamed])
  ∧ [Examples.two_columns; Examples.renamed] !! 0
    = Some Examples.two_columns.
Proof.
  split; [reflexivity|]. split; [exact rename_example_runs|].
  exact (proj1 (proj1 (receiver_left_unchanged (_DataFrame 0))
                  [("a", "c")] [Examples.two_columns] Examples.two_columns
                  _ eq_refl rename_example_runs)).
Defined.

(** C2, as stated, fails for [rename] and [drop]: neither mutates the
    receiver.  Renaming [a] to [c] in [{a, b}], or dropping [a], returns a
    new DataFrame and the receiver still has the columns [a] and [b]. *)
Lemma rename_and_drop_are_not_in_place :
  runs (df.rename (_DataFrame 0) [("a", "c")]) [Examples.two_columns]
       (Ok (_DataFrame 1), [Examples.two_columns; Examples.renamed])
  ∧ runs (df.drop (_DataFrame 0) [Single "a"]) [Examples.two_columns]
         (Ok (_DataFrame 1), [Examples.two_columns; Examples.dropped])
  ∧ runs (df.drop (_DataFrame 0) [Multiple ["a"]]) [Examples.two_columns]
         (Ok (_DataFrame 1), [Examples.two_columns; Examples.dropped])
  ∧ Frame.columns <$> ([Examples.two_columns; Examples.renamed] !! 0)
    = Some ["a"; "b"]
  ∧ Frame.columns <$> ([Examples.two_columns; Examples.dropped] !! 0)
    = Some ["a"; "b"]
  ∧ Frame.columns Examples.renamed = ["c"; "b"]
  ∧ Frame.columns Examples.dropped = ["b"].
Proof.
  split; [exact rename_example_runs|].
  split.
  { apply runs_wrap. eexists (Ok 1), _. split; reflexivity. }
  split; [|repeat split].
  apply runs_bind.
  exists (Ok (_DataFrame 1)), [Examples.two_columns; Examples.two_columns].
  split.
  { apply (runs_method_call_own "this" (_DataFrame 0) "clone" _
             [Examples.two_columns] Examples.two_columns);
      [reflexivity|not_a_column|].
    apply runs_wrap. eexists (Ok 1), _. split; reflexivity. }
  apply runs_bind. exists (Ok tt), [Examples.two_columns; Examples.dropped].
  split; [|reflexivity].
  apply runs_bind. exists (Ok tt), [Examples.two_columns; Examples.dropped].
  split; [|reflexivity].
  apply (runs_method_call_own "df" (_DataFrame 1) "inner" _
           [Examples.two_columns; Examples.two_columns] Examples.two_columns);
    [reflexivity|not_a_column|].
  apply runs_bind.
  exists (Ok (mkSeries "a" Int64 (Examples.ints [1; 2]%Z))),
         [Examples.two_columns; Examples.dropped].
  split; [|reflexivity]. apply runs_call. reflexivity.
Qed.

(** ** schema *)

Lemma set_fresh {V} (o : Js.Object V) k v :
  k ∉ o.*1 → Js.set o k v = o ++ [(k, v)].
Proof.
  induction o as [|[k' v'] o IH]; simpl; [done|].
  intros Hk. apply not_elem_of_cons in Hk as [Hne Hk].
  destruct (String.eqb_spec k' k) as [->|_]; [done|]. by rewrite IH.
Qed.

Lemma own_columns_sublist (f : list Series) :
  Frame.columns (own_columns f) `sublist_of` Frame.columns f.
Proof.
  unfold own_columns, Frame.columns. induction f as [|s f IH]; simpl; [done|].
  destruct (negb (String.eqb (name s) "__proto__")); simpl.
  - by apply sublist_skip.
  - by apply sublist_cons.
Qed.

Lemma columns_own_columns (f : list Series) :
  Frame.columns (own_columns f) = own_keys (Frame.columns f).
Proof.
  unfold own_columns, own_keys, Frame.columns.
  induction f as [|s f IH]; simpl; [done|].
  destruct (negb (String.eqb (name s) "__proto__")); simpl;
    [f_equal|]; exact IH.
Qed.

Lemma own_columns_NoDup (f : list Series) :
  NoDup (Frame.columns f) → NoDup (Frame.columns (own_columns f)).
Proof.
  intros Hnd. eapply sublist_NoDup; [exact Hnd|]. apply own_columns_sublist.
Qed.

Lemma elem_of_own_keys (ns : list string) k :
  k ∈ own_keys ns ↔ k ∈ ns ∧ k ≠ "__proto__".
Proof.
  unfold own_keys. rewrite list_elem_of_In, filter_In, <- list_elem_of_In.
  rewrite negb_true_iff, String.eqb_neq. done.
Qed.

Lemma elem_of_own_columns (f : list Series) s :
  s ∈ own_columns f ↔ s ∈ f ∧ name s ≠ "__proto__".
Proof.
  unfold own_columns. rewrite list_elem_of_In, filter_In, <- list_elem_of_In.
  rewrite negb_true_iff, String.eqb_neq. done.
Qed.

(** Filling an object by [acc[curr.name] = g curr] over the columns: one
    entry per column in column order, none for ["__proto__"]. *)
Lemma foldl_assign_columns {V} (g : Series → V) (f : list Series) :
  ∀ acc : Js.Object V,
    NoDup (acc.*1 ++ Frame.columns f) →
    foldl (fun acc curr => assign acc (name curr) (g curr)) acc f
    = acc ++ ((fun s => (name s, g s)) <$> own_columns f).
Proof.
  induction f as [|s f IH]; intros acc Hnd; simpl.
  - by rewrite app_nil_r.
  - apply NoDup_app in Hnd as (Hacc & Hdisj & Hf).
    apply NoDup_cons in Hf as [Hs Hf]. unfold assign.
    destruct (String.eqb (name s) "__proto__"); cbn [negb].
    + apply IH. apply NoDup_app. split; [done|]. split; [|done].
      intros k Hk Hin. apply (Hdisj _ Hk). by right.
    + rewrite set_fresh.
      * rewrite IH; [by rewrite <- app_assoc|].
        rewrite fmap_app. simpl. rewrite <- app_assoc. simpl.
        apply NoDup_app. split; [done|]. split; [|by apply NoDup_cons].
        intros k Hk. by apply Hdisj.
      * intros Hin. apply (Hdisj _ Hin). by left.
Qed.

Lemma schema_entries_keys (f : list Series) :
  (schema_entries f).*1 = Frame.columns f.
Proof.
  unfold schema_entries, Frame.columns. rewrite <- list_fmap_compose.
  reflexivity.
Qed.

Lemma get_schema_entries (f : list Series) (s : Series) :
  NoDup (Frame.columns f) → s ∈ f →
  Js.get (schema_entries f) (name s) = Some (dtype s).
Proof.
  unfold Js.get. induction f as [|c f IH]; intros Hnd Hs; simpl.
  - by apply elem_of_nil in Hs.
  - apply NoDup_cons in Hnd as [Hc Hnd].
    apply elem_of_cons in Hs as [->|Hs].
    + by rewrite String.eqb_refl.
    + destruct (String.eqb_spec (name c) (name s)) as [Heq|_]; [|by apply IH].
      exfalso. apply Hc. rewrite Heq. unfold Frame.columns.
      by apply list_elem_of_fmap_2.
Qed.

Lemma get_is_Some {V} (o : Js.Object V) k : is_Some (Js.get o k) ↔ k ∈ o.*1.
Proof.
  unfold Js.get. induction o as [|[k' v'] o IH]; simpl.
  - split; [intros [? [=]]|intros H; by apply elem_of_nil in H].
  - destruct (String.eqb_spec k' k) as [->|Hne]; simpl.
    + split; [intros _; by left|eauto].
    + rewrite IH. split; [by right|].
      intros H. apply elem_of_cons in H as [->|H]; done.
Qed.

Lemma insert_by_index_perm k ks : Js.insert_by_index k ks ≡ₚ k :: ks.
Proof.
  induction ks as [|k' ks IH]; simpl; [done|].
  destruct (Js.index_of k <=? Js.index_of k')%N; [done|].
  rewrite IH. apply perm_swap.
Qed.

Lemma sort_by_index_perm ks : Js.sort_by_index ks ≡ₚ ks.
Proof.
  unfold Js.sort_by_index. induction ks as [|k ks IH]; simpl; [done|].
  by rewrite insert_by_index_perm, IH.
Qed.

Lemma key_order_perm ks : Js.key_order ks ≡ₚ ks.
Proof.
  unfold Js.key_order. rewrite sort_by_index_perm.
  induction ks as [|k ks IH]; simpl; [done|].
  destruct (Js.is_array_index k); simpl.
  - by rewrite IH.
  - rewrite <- Permutation_middle. by rewrite IH.
Qed.

Lemma key_order_plain ks :
  Forall (fun k => Js.is_array_index k = false) ks → Js.key_order ks = ks.
Proof.
  unfold Js.key_order. induction 1 as [|k ks Hk H IH]; simpl; [done|].
  rewrite Hk. simpl. simpl in IH.
  destruct (List.filter Js.is_array_index ks) eqn:Hfil.
  - simpl in *. by rewrite IH.
  - exfalso. assert (Hin : In s (List.filter Js.is_array_index ks))
      by (rewrite Hfil; by left).
    apply filter_In in Hin as [Hin Hidx].
    rewrite Forall_forall in H. apply list_elem_of_In in Hin.
    specialize (H _ Hin). congruence.
Qed.

Lemma insert_by_index_sorted k ks :
  StronglySorted (fun a b => (Js.index_of a ≤ Js.index_of b)%N) ks →
  StronglySorted (fun a b => (Js.index_of a ≤ Js.index_of b)%N)
                 (Js.insert_by_index k ks).
Proof.
  induction 1 as [|k' ks Hs IH Hall]; simpl.
  - repeat constructor.
  - destruct (N.leb_spec (Js.index_of k) (Js.index_of k')) as [Hle|Hlt].
    + constructor; [by constructor|]. constructor; [done|].
      eapply Forall_impl; [exact Hall|]. intros b Hb. simpl in Hb. lia.
    + constructor; [done|].
      rewrite insert_by_index_perm. constructor; [lia|done].
Qed.

(** Among the keys that are array indices the order is ascending. *)
Lemma sort_by_index_sorted ks :
  StronglySorted (fun a b => (Js.index_of a ≤ Js.index_of b)%N)
                 (Js.sort_by_index ks).
Proof.
  unfold Js.sort_by_index. induction ks as [|k ks IH]; simpl.
  - constructor.
  - by apply insert_by_index_sorted.
Qed.

Lemma runs_get_schema (this : DataFrame) st (f : list Series) out :
  st !! _df this = Some f →
  NoDup (Frame.columns f) →
  "getColumns" ∉ Frame.columns f →
  runs (df.get_schema this) st out
  ↔ out = (Ok (schema_entries (own_columns f)), st).
Proof.
  intros Hf Hnd Hg. unfold df.get_schema. rewrite runs_bind.
  pose proof (foldl_assign_columns dtype f [] Hnd) as Hfold. simpl in Hfold.
  split.
  - intros (r & st' & Hcols & Hret).
    rewrite (runs_method_call_own "this" this "getColumns" _ st f _ Hf Hg)
      in Hcols.
    unfold df.getColumns in Hcols. apply runs_call in Hcols.
    cbn [step] in Hcols. unfold on_frame in Hcols. rewrite Hf in Hcols.
    injection Hcols as -> ->. simpl in Hret. by rewrite Hfold in Hret.
  - intros ->. exists (Ok f), st. split; [|simpl; by rewrite Hfold].
    rewrite (runs_method_call_own "this" this "getColumns" _ st f _ Hf Hg).
    unfold df.getColumns. apply runs_call. cbn [step]. unfold on_frame.
    by rewrite Hf.
Qed.

Lemma runs_get_schema_shadowed (this : DataFrame) st (f : list Series) out :
  st !! _df this = Some f →
  "getColumns" ∈ Frame.columns f →
  runs (df.get_schema this) st out
  ↔ out = (Err (not_a_function "this" "getColumns"), st).
Proof.
  intros Hf Hg. unfold df.get_schema. rewrite runs_bind. split.
  - intros (r & st' & Hcols & Hret).
    rewrite (runs_method_call_column "this" this "getColumns" _ st f _ Hf Hg)
      in Hcols.
    injection Hcols as -> ->. exact Hret.
  - intros ->. exists (Err (not_a_function "this" "getColumns")), st.
    split; [|done].
    by rewrite (runs_method_call_column "this" this "getColumns" _ st f _
                  Hf Hg).
Qed.

(** A read of [schema] that returns has returned the entries of the
    frame as it is at that moment. *)
Lemma runs_get_schema_returns (this : DataFrame) st (f : list Series) sch st' :
  st !! _df this = Some f →
  NoDup (Frame.columns f) →
  runs (df.get_schema this) st (Ok sch, st') →
  sch = schema_entries (own_columns f) ∧ st' = st.
Proof.
  intros Hf Hnd Hrun.
  destruct (decide ("getColumns" ∈ Frame.columns f)) as [Hg|Hg].
  - by apply (runs_get_schema_shadowed this st f _ Hf Hg) in Hrun.
  - apply (runs_get_schema this st f _ Hf Hnd Hg) in Hrun.
    by injection Hrun as -> ->.
Qed.

Lemma insert_column_NoDup i s (f : list Series) :
  can_insert i s f = true → NoDup (Frame.columns f) →
  NoDup (Frame.columns (insert_column i s f)).
Proof.
  unfold can_insert, has_column. intros Hcan Hnd.
  apply andb_prop in Hcan as [Hcan _]. apply andb_prop in Hcan as [_ Hfresh].
  apply negb_true_iff, bool_decide_eq_false in Hfresh.
  unfold insert_column, Frame.columns in *.
  rewrite fmap_app, fmap_cons, <- Permutation_middle.
  rewrite <- fmap_app, take_drop. by apply NoDup_cons.
Qed.

Lemma replace_column_NoDup i s (f : list Series) :
  can_replace i s f = true → NoDup (Frame.columns f) →
  NoDup (Frame.columns (replace_column i s f)).
Proof.
  unfold can_replace, has_column. intros Hcan Hnd.
  apply andb_prop in Hcan as [Hcan Hfresh].
  apply andb_prop in Hcan as [Hi _].
  apply Nat.ltb_lt in Hi.
  apply negb_true_iff, bool_decide_eq_false in Hfresh.
  unfold replace_column, Frame.columns, Frame.width in *.
  rewrite insert_take_drop by done.
  rewrite fmap_app, fmap_cons, <- Permutation_middle.
  rewrite <- fmap_app, <- delete_take_drop. apply NoDup_cons.
  split; [done|]. rewrite list_fmap_delete.
  eapply sublist_NoDup; [exact Hnd|]. apply sublist_delete.
Qed.

(** C4, as the code has it. On every access [schema] is recomputed from
    the current columns and changes nothing.  On a frame without a column
    named ["getColumns"] it holds one entry per column other than
    ["__proto__"], mapping the column's name to its dtype, in column
    order; this also holds right after [insertAtIdx] and [replaceAtIdx].
    Its keys are the column names other than ["__proto__"]; they enumerate
    in column order when no name is an array index, and otherwise with the
    array-index names first.  On a frame with a column named
    ["getColumns"] reading [schema] throws a TypeError. *)
Theorem schema_is_derived (this : DataFrame) st (f : list Series) :
  st !! _df this = Some f →
  NoDup (Frame.columns f) →
  ("getColumns" ∉ Frame.columns f →
   ∀ out, runs (df.get_schema this) st out
          ↔ out = (Ok (schema_entries (own_columns f)), st))
  ∧ ("getColumns" ∈ Frame.columns f →
     ∀ out, runs (df.get_schema this) st out
            ↔ out = (Err (not_a_function "this" "getColumns"), st))
  ∧ (∀ s, s ∈ f → name s ≠ "__proto__" →
          Js.get (schema_entries (own_columns f)) (name s) = Some (dtype s))
  ∧ (∀ k, is_Some (Js.get (schema_entries (own_columns f)) k)
          ↔ k ∈ Frame.columns f ∧ k ≠ "__proto__")
  ∧ Js.keys (schema_entries (own_columns f)) ≡ₚ own_keys (Frame.columns f)
  ∧ Js.keys (schema_entries (own_columns f))
    = Js.key_order (own_keys (Frame.columns f))
  ∧ (Forall (fun k => Js.is_array_index k = false) (Frame.columns f) →
     Js.keys (schema_entries (own_columns f)) = own_keys (Frame.columns f))
  ∧ (∀ idx s sch st',
       runs (df.insertAtIdx this idx s >> df.get_schema this) st
            (Ok sch, st') →
       ∃ i, as_index idx = Some i
            ∧ st' !! _df this = Some (insert_column i s f)
            ∧ sch = schema_entries (own_columns (insert_column i s f)))
  ∧ (∀ idx s sch st',
       runs (let* d := df.replaceAtIdx this idx s in df.get_schema d) st
            (Ok sch, st') →
       ∃ i, as_index idx = Some i
            ∧ st' !! _df this = Some (replace_column i s f)
            ∧ sch = schema_entries (own_columns (replace_column i s f))).
Proof.
  intros Hf Hnd.
  pose proof (lookup_lt_Some _ _ _ Hf) as Hlt.
  split; [intros Hg out; by apply (runs_get_schema this st f)|].
  split; [intros Hg out; by apply (runs_get_schema_shadowed this st f)|].
  split.
  { intros s Hs Hname. apply get_schema_entries.
    - by apply own_columns_NoDup.
    - by apply elem_of_own_columns. }
  split.
  { intros k. rewrite get_is_Some, schema_entries_keys, columns_own_columns.
    apply elem_of_own_keys. }
  unfold Js.keys. rewrite schema_entries_keys, columns_own_columns.
  split; [apply key_order_perm|]. split; [done|].
  split.
  { intros Hplain. apply key_order_plain.
    apply Forall_forall. intros k Hk. apply elem_of_own_keys in Hk as [Hk _].
    rewrite Forall_forall in Hplain. by apply Hplain. }
  split.
  - intros idx s sch st'. rewrite runs_bind.
    intros (r & st1 & Hins & Hget).
    unfold df.insertAtIdx in Hins. apply runs_call in Hins.
    simpl in Hins. unfold on_frame in Hins. rewrite Hf in Hins.
    destruct (as_index idx) as [i|]; [|by destruct Hins as [e [= -> ->]]].
    destruct (can_insert i s f) eqn:Hcan;
      [|by destruct Hins as [e [= -> ->]]].
    injection Hins as -> ->.
    assert (Hf' : <[_df this := insert_column i s f]> st !! _df this
                  = Some (insert_column i s f))
      by by apply list_lookup_insert_eq.
    apply (runs_get_schema_returns this _ _ _ _ Hf') in Hget as [-> ->];
      [|by apply insert_column_NoDup].
    eauto.
  - intros idx s sch st'. rewrite runs_bind.
    intros (r & st1 & Hrep & Hget).
    unfold df.replaceAtIdx in Hrep. apply runs_bind in Hrep.
    destruct Hrep as (r0 & st0 & Hrep & Hret).
    apply runs_call in Hrep.
    simpl in Hrep. unfold on_frame in Hrep. rewrite Hf in Hrep.
    destruct (as_index idx) as [i|];
      [|destruct Hrep as [e [= -> ->]]; simpl in Hret;
        injection Hret as -> ->; discriminate Hget].
    destruct (can_replace i s f) eqn:Hcan;
      [|destruct Hrep as [e [= -> ->]]; simpl in Hret;
        injection Hret as -> ->; discriminate Hget].
    injection Hrep as -> ->.
    simpl in Hret. injection Hret as -> ->.
    assert (Hf' : <[_df this := replace_column i s f]> st !! _df this
                  = Some (replace_column i s f))
      by by apply list_lookup_insert_eq.
    apply (runs_get_schema_returns this _ _ _ _ Hf') in Hget as [-> ->];
      [|by apply replace_column_NoDup].
    eauto.
Qed.

Lemma schema_is_derived_witness :
  [Examples.two_columns] !! 0 = Some Examples.two_columns
  ∧ NoDup (Frame.columns Examples.two_columns)
  ∧ runs (df.get_schema (_DataFrame 0)) [Examples.two_columns]
         (Ok [("a", Int64); ("b", Utf8)], [Examples.two_columns])
  ∧ Js.keys (schema_entries (own_columns Examples.two_columns)) = ["a"; "b"].
Proof.
  assert (Hnd : NoDup (Frame.columns Examples.two_columns)).
  { apply (bool_decide_unpack _). vm_compute. exact I. }
  assert (Hg : "getColumns" ∉ Frame.columns Examples.two_columns)
    by not_a_column.
  pose proof (schema_is_derived (_DataFrame 0) [Examples.two_columns]
                Examples.two_columns eq_refl Hnd)
    as (Hrun & _ & _ & _ & _ & _ & Hkeys & _).
  split; [reflexivity|]. split; [exact Hnd|].
  split; [by apply (Hrun Hg)|].
  apply Hkeys. repeat constructor.
Defined.

(** Inserting the column ["apple"] at position 1 of [{a, b}] and reading
    [schema] right after: the new entry is there, in its place. *)
Lemma schema_after_insertAtIdx :
  runs (df.insertAtIdx (_DataFrame 0) (of_nat 1) Examples.apple
        >> df.get_schema (_DataFrame 0))
       [Examples.two_columns]
       (Ok [("a", Int64); ("apple", Bool); ("b", Utf8)],
        [Examples.with_apple]).
Proof.
  apply runs_bind. exists (Ok tt), [Examples.with_apple].
  split; [apply runs_call; reflexivity|].
  apply (runs_get_schema (_DataFrame 0) [Examples.with_apple]
           Examples.with_apple _ eq_refl); [|not_a_column|reflexivity].
  apply (bool_decide_unpack _). vm_compute. exact I.
Qed.

(** C4, as stated, fails for a column whose name is an array index: for
    the columns ["b"], ["0"] the keys of the schema enumerate as ["0"],
    ["b"], which is not the column order. *)
Lemma schema_keys_not_in_column_order :
  runs (df.get_schema (_DataFrame 0)) [Examples.numeric_name]
       (Ok [("b", Int64); ("0", Utf8)], [Examples.numeric_name])
  ∧ Frame.columns Examples.numeric_name = ["b"; "0"]
  ∧ Js.keys [("b", Int64); ("0", Utf8)] = ["0"; "b"]
  ∧ Js.keys [("b", Int64); ("0", Utf8)]
    ≠ Frame.columns Examples.numeric_name.
Proof.
  split.
  { apply (runs_get_schema (_DataFrame 0) [Examples.numeric_name]
             Examples.numeric_name _ eq_refl); [|not_a_column|reflexivity].
    apply (bool_decide_unpack _). vm_compute. exact I. }
  split; [reflexivity|]. split; [reflexivity|]. discriminate.
Qed.

(** ** The Proxy handler *)

Lemma runs_getColumn (this : DataFrame) st (f : list Series) n c out :
  st !! _df this = Some f →
  Frame.column f n = Some c →
  runs (df.getColumn this n) st out ↔ out = (Ok c, st).
Proof.
  intros Hf Hc. unfold df.getColumn. rewrite runs_call. simpl.
  unfold on_frame. by rewrite Hf, Hc.
Qed.

Lemma runs_get_columns (this : DataFrame) st (f : list Series) out :
  st !! _df this = Some f →
  runs (df.get_columns this) st out ↔ out = (Ok (Frame.columns f), st).
Proof.
  intros Hf. unfold df.get_columns. rewrite runs_call. simpl.
  unfold on_frame. by rewrite Hf.
Qed.

Lemma runs_enumerable_keys (target : DataFrame) st
    (f : list Series) ks out :
  st !! _df target = Some f →
  Forall (fun k => k ∈ Frame.columns f) ks →
  runs (handler.enumerable_keys target ks) st out ↔ out = (Ok ks, st).
Proof.
  intros Hf Hks. revert out. induction Hks as [|k ks Hk _ IH]; intros out.
  - simpl. done.
  - destruct (column_of_name f k Hk) as (c & Hc & _ & _).
    cbn [handler.enumerable_keys]. unfold handler.getOwnPropertyDescriptor.
    rewrite runs_bind. split.
    + intros (r & st' & Hd & Hrest).
      apply runs_bind in Hd as (r1 & st1 & Hcol & Hret).
      apply (runs_getColumn target st f k c _ Hf Hc) in Hcol.
      injection Hcol as -> ->. simpl in Hret. injection Hret as -> ->.
      apply runs_bind in Hrest as (r2 & st2 & Hks' & Hout).
      apply IH in Hks'. injection Hks' as -> ->. exact Hout.
    + intros ->. exists (Ok (mkDescriptor true true c)), st. split.
      * apply runs_bind. exists (Ok c), st. split; [|done].
        by apply (runs_getColumn target st f k c _ Hf Hc).
      * apply runs_bind. exists (Ok ks), st. split; [by apply IH|done].
Qed.

(** C10, as the code has it. Through the Proxy, reading a property named
    like a column yields that column as a Series, exactly as [getColumn]
    does, also when the name parses as a number; reading any other string
    property that parses as a number yields [row] of that number; and the
    own keys, as [ownKeys] reports them and as [Object.keys] enumerates
    them, are exactly the column names in column order. *)
Theorem proxy_reads (ToNumber : string → Number) (target : DataFrame)
    st (f : list Series) :
  st !! _df target = Some f →
  (∀ s, s ∈ Frame.columns f →
        ∃ c, Frame.column f s = Some c ∧ name c = s ∧ c ∈ f
             ∧ (∀ out, runs (df.getColumn target s) st out
                       ↔ out = (Ok c, st))
             ∧ (∀ out, runs (handler.get ToNumber target (PString s)) st out
                       ↔ out = (Ok (ColumnValue c), st)))
  ∧ (∀ s, s ∉ Frame.columns f →
          isNaN (ToNumber s) = false →
          ∀ out, runs (handler.get ToNumber target (PString s)) st out
                 ↔ ∃ r st', runs (df.row target (ToNumber s)) st (r, st')
                            ∧ out = (match r with
                                     | Ok x => Ok (RowValue x)
                                     | Err e => Err e
                                     end, st'))
  ∧ (∀ out, runs (handler.ownKeys target) st out
            ↔ out = (Ok (Frame.columns f), st))
  ∧ (∀ out, runs (handler.Object_keys target) st out
            ↔ out = (Ok (Frame.columns f), st)).
Proof.
  intros Hf. split; [|split; [|split]].
  - intros s Hs. destruct (column_of_name f s Hs) as (c & Hc & Hn & Hin).
    exists c. repeat apply conj; try done.
    + intros out. by apply (runs_getColumn target st f s c).
    + intros out. unfold handler.get. rewrite runs_bind. split.
      * intros (r & st' & Hcols & Hrest).
        apply (runs_get_columns target st f _ Hf) in Hcols.
        injection Hcols as -> ->.
        rewrite bool_decide_eq_true_2 in Hrest by done.
        apply runs_bind in Hrest as (r1 & st1 & Hcol & Hret).
        apply (runs_getColumn target st f s c _ Hf Hc) in Hcol.
        injection Hcol as -> ->. exact Hret.
      * intros ->. exists (Ok (Frame.columns f)), st.
        split; [by apply (runs_get_columns target st f)|].
        rewrite bool_decide_eq_true_2 by done.
        apply runs_bind. exists (Ok c), st.
        split; [by apply (runs_getColumn target st f s c)|done].
  - intros s Hs Hnum out. unfold handler.get. rewrite runs_bind. split.
    + intros (r & st' & Hcols & Hrest).
      apply (runs_get_columns target st f _ Hf) in Hcols.
      injection Hcols as -> ->.
      rewrite bool_decide_eq_false_2, Hnum in Hrest by done.
      cbn [negb] in Hrest. apply runs_bind in Hrest as (r1 & st1 & Hrow & Hret).
      exists r1, st1. split; [done|]. by destruct r1.
    + intros (r1 & st1 & Hrow & ->).
      exists (Ok (Frame.columns f)), st.
      split; [by apply (runs_get_columns target st f)|].
      rewrite bool_decide_eq_false_2, Hnum by done. cbn [negb].
      apply runs_bind. exists r1, st1. split; [done|]. by destruct r1.
  - intros out. by apply runs_get_columns.
  - intros out. unfold handler.Object_keys, handler.ownKeys.
    rewrite runs_bind. split.
    + intros (r & st' & Hcols & Hrest).
      apply (runs_get_columns target st f _ Hf) in Hcols.
      injection Hcols as -> ->.
      apply (runs_enumerable_keys target st f) in Hrest; [done|done|].
      by apply Forall_forall.
    + intros ->. exists (Ok (Frame.columns f)), st.
      split; [by apply (runs_get_columns target st f)|].
      apply (runs_enumerable_keys target st f); [done| |done].
      by apply Forall_forall.
Qed.

Lemma proxy_reads_witness :
  [Examples.two_columns] !! 0 = Some Examples.two_columns
  ∧ runs (handler.Object_keys (_DataFrame 0)) [Examples.two_columns]
         (Ok ["a"; "b"], [Examples.two_columns])
  ∧ runs (handler.ownKeys (_DataFrame 0)) [Examples.two_columns]
         (Ok ["a"; "b"], [Examples.two_columns]).
Proof.
  pose proof (proxy_reads Examples.decimal (_DataFrame 0)
                [Examples.two_columns] Examples.two_columns eq_refl)
    as (_ & _ & Hown & Hkeys).
  split; [reflexivity|]. split; [by apply Hkeys|by apply Hown].
Defined.

(** C10, as stated, fails for a column whose name parses as a number: for
    the columns ["b"], ["0"], reading the property ["0"] yields the column
    ["0"], not row 0. *)
Lemma proxy_numeric_column_name_reads_column :
  isNaN (Examples.decimal "0") = false
  ∧ runs (handler.get Examples.decimal (_DataFrame 0) (PString "0"))
         [Examples.numeric_name]
         (Ok (ColumnValue (mkSeries "0" Utf8 (Examples.strs ["x"; "y"]))),
          [Examples.numeric_name])
  ∧ runs (df.row (_DataFrame 0) (Examples.decimal "0"))
         [Examples.numeric_name]
         (Ok [Some (VInt 1); Some (VStr "x")], [Examples.numeric_name])
  ∧ ¬ runs (handler.get Examples.decimal (_DataFrame 0) (PString "0"))
           [Examples.numeric_name]
           (Ok (RowValue [Some (VInt 1); Some (VStr "x")]),
            [Examples.numeric_name]).
Proof.
  assert (Hget : ∀ out,
    runs (handler.get Examples.decimal (_DataFrame 0) (PString "0"))
         [Examples.numeric_name] out
    ↔ out = (Ok (ColumnValue (mkSeries "0" Utf8 (Examples.strs ["x"; "y"]))),
             [Examples.numeric_name])).
  { intros out. unfold handler.get. rewrite runs_bind. split.
    - intros (r & st' & Hcols & Hrest).
      apply (runs_get_columns (_DataFrame 0) [Examples.numeric_name]
               Examples.numeric_name _ eq_refl) in Hcols.
      injection Hcols as -> ->.
      apply runs_bind in Hrest as (r1 & st1 & Hcol & Hret).
      apply (runs_getColumn (_DataFrame 0) [Examples.numeric_name]
               Examples.numeric_name "0" _ _ eq_refl eq_refl) in Hcol.
      injection Hcol as -> ->. exact Hret.
    - intros ->. exists (Ok ["b"; "0"]), [Examples.numeric_name].
      split; [apply runs_call; reflexivity|].
      apply runs_bind. eexists (Ok _), _. split; [apply runs_call|]; reflexivity. }
  split; [reflexivity|]. split; [by apply Hget|].
  split; [apply runs_call; reflexivity|].
  intros Hrow. apply Hget in Hrow. discriminate Hrow.
Qed.

(** ** Rows of a frame *)

Lemma height_take_rows idx (f : list Series) :
  Forall (fun i => i < Frame.height f) idx →
  Frame.height (Frame.take_rows idx f) = length idx.
Proof.
  destruct f as [|s f]; simpl.
  - intros H. destruct idx as [|i idx]; [done|].
    apply Forall_cons in H as [H _]. lia.
  - intros _. by rewrite length_fmap.
Qed.

Lemma equal_lengths_take_rows idx (f : list Series) :
  Frame.equal_lengths (Frame.take_rows idx f).
Proof.
  unfold Frame.equal_lengths. destruct f as [|s f]; [constructor|].
  apply Forall_forall. intros c Hc. unfold Frame.take_rows in Hc.
  apply list_elem_of_fmap in Hc as (c' & -> & _).
  simpl. by rewrite !length_fmap.
Qed.

Lemma gather_all (s : Series) :
  Frame.gather (seq 0 (length (values s))) s = s.
Proof.
  destruct s as [n d vs]. unfold Frame.gather. simpl. f_equal.
  apply list_eq. intros i. rewrite list_lookup_fmap.
  destruct (decide (i < length vs)) as [Hlt|Hge].
  - rewrite lookup_seq_lt by done. simpl.
    destruct (lookup_lt_is_Some_2 vs i Hlt) as [v Hv]. by rewrite Hv.
  - rewrite lookup_seq_ge by lia. simpl. symmetry.
    apply lookup_ge_None. lia.
Qed.

Lemma take_rows_all (f : list Series) :
  Frame.equal_lengths f → Frame.take_rows (seq 0 (Frame.height f)) f = f.
Proof.
  unfold Frame.equal_lengths, Frame.take_rows. generalize (Frame.height f).
  intros h Hall. induction Hall as [|s f Hs _ IH]; [done|].
  rewrite fmap_cons, IH. f_equal. rewrite <- Hs. apply gather_all.
Qed.

Lemma row_take_rows idx (kf : list Series) j i :
  idx !! j = Some i → Frame.row (Frame.take_rows idx kf) j = Frame.row kf i.
Proof.
  intros Hj. unfold Frame.row, Frame.take_rows.
  rewrite <- list_fmap_compose. apply list_fmap_ext. intros _ s _. simpl.
  by rewrite list_lookup_fmap, Hj.
Qed.

Lemma rows_take_rows idx (kf : list Series) :
  Frame.row (Frame.take_rows idx kf) <$> seq 0 (length idx)
  = Frame.row kf <$> idx.
Proof.
  apply list_eq. intros j. rewrite !list_lookup_fmap.
  destruct (idx !! j) as [i|] eqn:Hj; simpl.
  - rewrite lookup_seq_lt by (by eapply lookup_lt_Some). simpl.
    f_equal. by apply row_take_rows.
  - rewrite lookup_seq_ge; [done|]. by apply lookup_ge_None.
Qed.

Lemma column_take_rows idx (f : list Series) n :
  Frame.column (Frame.take_rows idx f) n
  = Frame.gather idx <$> Frame.column f n.
Proof.
  unfold Frame.column, Frame.take_rows.
  induction f as [|s f IH]; simpl; [done|].
  destruct (String.eqb (name s) n); [done|exact IH].
Qed.

Lemma select_columns_take_rows idx (f : list Series) ns :
  select_columns (Frame.take_rows idx f) ns
  = Frame.take_rows idx <$> select_columns f ns.
Proof.
  induction ns as [|n ns IH]; simpl; [done|].
  rewrite column_take_rows, IH.
  destruct (Frame.column f n), (select_columns f ns); done.
Qed.

Lemma key_frame_take_rows idx subset (f : list Series) :
  key_frame subset (Frame.take_rows idx f)
  = Frame.take_rows idx <$> key_frame subset f.
Proof. destruct subset; simpl; [apply select_columns_take_rows|done]. Qed.

(** The key rows of a selection of rows are the selected key rows. *)
Lemma key_rows_take_rows idx subset (f kf : list Series) :
  Forall (fun i => i < Frame.height f) idx →
  key_frame subset f = Some kf →
  key_rows subset (Frame.take_rows idx f) = Some (Frame.row kf <$> idx).
Proof.
  intros Hidx Hkf. unfold key_rows.
  rewrite key_frame_take_rows, Hkf. simpl.
  by rewrite height_take_rows, rows_take_rows.
Qed.

(** ** First occurrences *)

Lemma first_occurrences_distinct {K} `{EqDecision K} (keyf : nat → K) n :
  ∀ i seen,
    NoDup (keyf <$> first_occurrences seen i (keyf <$> seq i n))
    ∧ (∀ k, k ∈ keyf <$> first_occurrences seen i (keyf <$> seq i n) →
            k ∉ seen)
    ∧ Forall (fun j => j < i + n)
             (first_occurrences seen i (keyf <$> seq i n)).
Proof.
  induction n as [|n IH]; intros i seen; simpl.
  - split; [constructor|]. split; [|constructor].
    intros k Hk. by apply elem_of_nil in Hk.
  - case_bool_decide as Hseen.
    + destruct (IH (S i) seen) as (Hnd & Hdisj & Hrange).
      split; [done|]. split; [done|].
      eapply Forall_impl; [exact Hrange|]. intros j Hj. simpl in Hj. lia.
    + destruct (IH (S i) (keyf i :: seen)) as (Hnd & Hdisj & Hrange).
      simpl. split; [|split].
      * apply NoDup_cons. split; [|done].
        intros Hin. apply (Hdisj _ Hin). by left.
      * intros k Hk. apply elem_of_cons in Hk as [->|Hk]; [done|].
        intros Hks. apply (Hdisj _ Hk). by right.
      * constructor; [lia|].
        eapply Forall_impl; [exact Hrange|]. intros j Hj. simpl in Hj. lia.
Qed.

Lemma first_occurrences_NoDup {K} `{EqDecision K} (l : list K) :
  ∀ i seen,
    NoDup l → (∀ k, k ∈ l → k ∉ seen) →
    first_occurrences seen i l = seq i (length l).
Proof.
  induction l as [|k l IH]; intros i seen Hnd Hdisj; simpl; [done|].
  apply NoDup_cons in Hnd as [Hk Hnd].
  rewrite bool_decide_eq_false_2 by (apply Hdisj; by left).
  f_equal. apply IH; [done|].
  intros k' Hk' Hin. apply elem_of_cons in Hin as [->|Hin]; [done|].
  apply (Hdisj k'); [by right|done].
Qed.

(** ** unique *)

Lemma reordering_refl (f : list Series) :
  Frame.equal_lengths f → reordering f f.
Proof.
  intros Hf. exists (seq 0 (Frame.height f)). split; [done|].
  by rewrite take_rows_all.
Qed.

Lemma reordering_in_range (f : list Series) idx :
  idx ≡ₚ seq 0 (Frame.height f) →
  Forall (fun i => i < Frame.height f) idx.
Proof.
  intros Hp. rewrite Hp. apply Forall_forall. intros i Hi.
  apply elem_of_seq in Hi. lia.
Qed.

(** A reordering has the same columns and, up to their order, the same
    rows. *)
Lemma reordering_rows (f f' : list Series) :
  reordering f f' →
  Frame.columns f' = Frame.columns f ∧ Frame.rows f' ≡ₚ Frame.rows f.
Proof.
  intros (idx & Hidx & ->). split.
  - unfold Frame.columns, Frame.take_rows. rewrite <- list_fmap_compose.
    by apply list_fmap_ext.
  - unfold Frame.rows.
    rewrite height_take_rows by (by apply reordering_in_range).
    by rewrite rows_take_rows, Hidx.
Qed.

(** A frame that holds, in any order, the rows [unique] keeps has no
    duplicate left: applying the deterministic part of [unique] to it
    returns it unchanged. *)
Lemma unique_rows_of_reordering subset (f u f1 : list Series) :
  unique_rows subset KeepFirst f = Some u →
  reordering u f1 →
  unique_rows subset KeepFirst f1 = Some f1.
Proof.
  unfold unique_rows at 1. unfold key_rows.
  destruct (key_frame subset f) as [kf|] eqn:Hkf; [|done].
  simpl. intros [= <-] (p & Hp & ->).
  set (F := first_occurrences [] 0 (Frame.row kf <$> seq 0 (Frame.height f))) in *.
  destruct (first_occurrences_distinct (Frame.row kf) (Frame.height f) 0 [])
    as (Hnd & _ & Hrange).
  fold F in Hnd, Hrange. simpl in Hrange.
  pose proof (key_rows_take_rows F subset f kf Hrange Hkf) as Hku.
  assert (Hkfu : key_frame subset (Frame.take_rows F f)
                 = Some (Frame.take_rows F kf)).
  { by rewrite key_frame_take_rows, Hkf. }
  pose proof (reordering_in_range _ p Hp) as Hprange.
  pose proof (key_rows_take_rows p subset _ _ Hprange Hkfu) as Hk1.
  unfold key_rows in Hku. rewrite Hkfu in Hku. simpl in Hku.
  injection Hku as Hku.
  assert (Hnd1 : NoDup (Frame.row (Frame.take_rows F kf) <$> p)).
  { rewrite Hp, Hku. exact Hnd. }
  unfold unique_rows. rewrite Hk1. simpl. f_equal.
  rewrite first_occurrences_NoDup; [|done|].
  - rewrite length_fmap, <- (height_take_rows p _ Hprange).
    apply take_rows_all, equal_lengths_take_rows.
  - intros k _ Hk. by apply elem_of_nil in Hk.
Qed.

Lemma runs_unique (this : DataFrame) opts subset keep st
    (f : list Series) out :
  st !! _df this = Some f →
  runs (df.unique this opts subset keep) st out
  ↔ match unique_rows (unique_subset opts subset) (unique_keep opts keep) f
    with
    | Some u =>
        ∃ f', (if unique_maintains_order opts then f' = u
               else reordering u f')
              ∧ out = (Ok (_DataFrame (length st)), st ++ [f'])
    | None => out = (Err (NativeError ColumnNotFound), st)
    end.
Proof.
  intros Hf.
  assert (Hwrap : ∀ mo sub,
    runs (wrap (NUnique (_df this) mo sub (unique_keep opts keep))) st out
    ↔ match unique_rows (flat <$> sub) (unique_keep opts keep) f with
      | Some u =>
          ∃ f', (if mo then f' = u else reordering u f')
                ∧ out = (Ok (_DataFrame (length st)), st ++ [f'])
      | None => out = (Err (NativeError ColumnNotFound), st)
      end).
  { intros mo sub. rewrite runs_wrap. simpl. unfold on_frame. rewrite Hf.
    unfold unique_result, fail, alloc.
    destruct (unique_rows (flat <$> sub) (unique_keep opts keep) f) as [u|].
    - split.
      + intros (r & st' & (f' & Hf' & [= -> ->]) & ->). eauto.
      + intros (f' & Hf' & ->). exists (Ok (length st)), (st ++ [f']). eauto.
    - split.
      + intros (r & st' & [= -> ->] & ->). done.
      + intros ->. eauto. }
  unfold df.unique, unique_subset, unique_keep, unique_maintains_order in *.
  destruct (default (UniqueFlag false) opts) as [mo|omo osub okeep].
  - apply Hwrap.
  - rewrite Hwrap. destruct osub as [s|]; [|done].
    destruct (truthy s); done.
Qed.

(** C8. Applying [unique] with [keep = "first"] to its own result removes
    nothing more: the second application succeeds, the first result itself
    is among its outcomes, and every outcome holds the columns and rows of
    the first result: the same DataFrame when [maintainOrder] is set, the
    same rows in an unspecified order otherwise. *)
Theorem unique_first_idempotent (this : DataFrame) opts subset keep st
    (f : list Series) res1 st1 :
  st !! _df this = Some f →
  unique_keep opts keep = KeepFirst →
  runs (df.unique this opts subset keep) st (Ok res1, st1) →
  ∃ f1, st1 !! _df res1 = Some f1
        ∧ runs (df.unique res1 opts subset keep) st1
               (Ok (_DataFrame (length st1)), st1 ++ [f1])
        ∧ ∀ out2,
            runs (df.unique res1 opts subset keep) st1 out2 →
            ∃ f2, out2 = (Ok (_DataFrame (length st1)), st1 ++ [f2])
                  ∧ reordering f1 f2
                  ∧ Frame.columns f2 = Frame.columns f1
                  ∧ Frame.rows f2 ≡ₚ Frame.rows f1
                  ∧ (unique_maintains_order opts = true → f2 = f1).
Proof.
  intros Hf Hkeep Hrun1.
  apply (runs_unique this opts subset keep st f _ Hf) in Hrun1.
  rewrite Hkeep in Hrun1.
  destruct (unique_rows (unique_subset opts subset) KeepFirst f)
    as [u|] eqn:Hu; [|discriminate Hrun1].
  destruct Hrun1 as (f1 & Hf1 & [= -> ->]).
  assert (Hu_eq : Frame.equal_lengths u).
  { unfold unique_rows in Hu.
    destruct (key_rows (unique_subset opts subset) f); [|done].
    injection Hu as <-. apply equal_lengths_take_rows. }
  assert (Hre : reordering u f1).
  { destruct (unique_maintains_order opts); [subst; by apply reordering_refl|done]. }
  assert (Hf1_eq : Frame.equal_lengths f1).
  { destruct Hre as (p & _ & ->). apply equal_lengths_take_rows. }
  pose proof (unique_rows_of_reordering _ f u f1 Hu Hre) as Hfix.
  assert (Hlook : (st ++ [f1]) !! length st = Some f1)
    by by apply list_lookup_middle.
  exists f1. split; [done|]. split.
  - apply (runs_unique (_DataFrame (length st)) opts subset keep _ f1 _ Hlook).
    rewrite Hkeep, Hfix. exists f1. split; [|done].
    destruct (unique_maintains_order opts); [done|by apply reordering_refl].
  - intros out2 Hrun2.
    apply (runs_unique (_DataFrame (length st)) opts subset keep _ f1 _ Hlook)
      in Hrun2.
    rewrite Hkeep, Hfix in Hrun2. destruct Hrun2 as (f2 & Hf2 & ->).
    exists f2. split; [done|].
    assert (Hre2 : reordering f1 f2).
    { destruct (unique_maintains_order opts); [|done].
      subst f2. by apply reordering_refl. }
    destruct (reordering_rows f1 f2 Hre2) as [Hcols Hrows].
    repeat (split; [done|]).
    destruct (unique_maintains_order opts); [done|discriminate].
Qed.

Lemma unique_example_runs :
  runs (df.unique (_DataFrame 0) (Some (UniqueFlag true))
          (Some (Multiple ["k"])) None)
       [Examples.repeated]
       (Ok (_DataFrame 1), [Examples.repeated; Examples.distinct_rows]).
Proof.
  apply (runs_unique (_DataFrame 0) _ _ _ [Examples.repeated]
           Examples.repeated _ eq_refl).
  exists Examples.distinct_rows. split; reflexivity.
Qed.

Lemma unique_first_idempotent_witness :
  [Examples.repeated] !! 0 = Some Examples.repeated
  ∧ runs (df.unique (_DataFrame 0) (Some (UniqueFlag true))
            (Some (Multiple ["k"])) None)
         [Examples.repeated]
         (Ok (_DataFrame 1), [Examples.repeated; Examples.distinct_rows])
  ∧ runs (df.unique (_DataFrame 1) (Some (UniqueFlag true))
            (Some (Multiple ["k"])) None)
         [Examples.repeated; Examples.distinct_rows]
         (Ok (_DataFrame 2),
          [Examples.repeated; Examples.distinct_rows;
           Examples.distinct_rows]).
Proof.
  split; [reflexivity|]. split; [exact unique_example_runs|].
  destruct (unique_first_idempotent (_DataFrame 0) (Some (UniqueFlag true))
              (Some (Multiple ["k"])) None [Examples.repeated]
              Examples.repeated (_DataFrame 1)
              [Examples.repeated; Examples.distinct_rows]
              eq_refl eq_refl unique_example_runs)
    as (f1 & Hf1 & Hagain & _).
  injection Hf1 as <-. exact Hagain.
Defined.

(** Without [maintainOrder] the second application may return the rows
    of the first result in another order: on [{k: [1, 2, 1], v: ["x", "y",
    "z"]}], [unique] over [k] can give the rows [(1, x), (2, y)], and
    [unique] of that frame the rows [(2, y), (1, x)]. *)
Lemma unique_twice_may_reorder :
  runs (df.unique (_DataFrame 0) None (Some (Multiple ["k"])) None)
       [Examples.repeated]
       (Ok (_DataFrame 1), [Examples.repeated; Examples.distinct_rows])
  ∧ runs (df.unique (_DataFrame 1) None (Some (Multiple ["k"])) None)
         [Examples.repeated; Examples.distinct_rows]
         (Ok (_DataFrame 2),
          [Examples.repeated; Examples.distinct_rows;
           Examples.distinct_rows_swapped])
  ∧ Examples.distinct_rows_swapped ≠ Examples.distinct_rows.
Proof.
  split; [|split].
  - apply (runs_unique (_DataFrame 0) _ _ _ [Examples.repeated]
             Examples.repeated _ eq_refl).
    exists Examples.distinct_rows. split; [|reflexivity].
    exists [0; 1]. split; reflexivity.
  - apply (runs_unique (_DataFrame 1) _ _ _
             [Examples.repeated; Examples.distinct_rows]
             Examples.distinct_rows _ eq_refl).
    exists Examples.distinct_rows_swapped. split; [|reflexivity].
    exists [1; 0]. split; [|reflexivity]. apply Permutation_swap.
  - discriminate.
Qed.

(** ** Every program has an outcome *)

Lemma value_compare_antisym a b :
  value_compare b a = CompOpp (value_compare a b).
Proof.
  destruct a as [x|x|x], b as [y|y|y]; simpl; try done.
  - apply Z.compare_antisym.
  - by destruct x, y.
  - apply String.compare_antisym.
Qed.

Lemma cell_compare_antisym d nl a b :
  cell_compare d nl b a = CompOpp (cell_compare d nl a b).
Proof.
  destruct a as [x|], b as [y|]; simpl; try by destruct nl.
  destruct d; apply value_compare_antisym.
Qed.

Lemma insert_position_perm le i idx : insert_position le i idx ≡ₚ i :: idx.
Proof.
  induction idx as [|j idx IH]; simpl; [done|].
  destruct (le i j); [done|]. rewrite IH. apply perm_swap.
Qed.

Lemma insertion_order_perm le start count :
  insertion_order le start count ≡ₚ seq start count.
Proof.
  unfold insertion_order. generalize (seq start count). intros l.
  induction l as [|i l IH]; simpl; [done|].
  by rewrite insert_position_perm, IH.
Qed.

Lemma insert_position_ordered d nl key i idx :
  ordered d nl key idx →
  ordered d nl key (insert_position (key_le d nl key) i idx).
Proof.
  unfold ordered. induction 1 as [|j idx Hs IH Hhd]; simpl.
  - repeat constructor.
  - unfold key_le at 1.
    destruct (cell_compare d nl (key_at key i) (key_at key j)) eqn:Hc.
    + constructor; [by constructor|]. constructor. by rewrite Hc.
    + constructor; [by constructor|]. constructor. by rewrite Hc.
    + constructor; [exact IH|].
      assert (Hji : cell_compare d nl (key_at key j) (key_at key i) ≠ Gt).
      { rewrite cell_compare_antisym, Hc. simpl. discriminate. }
      destruct idx as [|k idx]; simpl.
      * by constructor.
      * apply HdRel_inv in Hhd. destruct (key_le d nl key i k); by constructor.
Qed.

Lemma insert_position_ties d nl key i idx :
  Forall (fun j => i < j) idx →
  ties_in_order d nl key idx →
  ties_in_order d nl key (insert_position (key_le d nl key) i idx).
Proof.
  unfold ties_in_order. intros Hlt Hs. revert Hlt.
  induction Hs as [|j idx Hs IH Hall]; intros Hlt; simpl.
  - repeat constructor.
  - apply Forall_cons in Hlt as [Hij Hlt]. unfold key_le at 1.
    destruct (cell_compare d nl (key_at key i) (key_at key j)) eqn:Hc.
    + constructor; [by constructor|]. constructor; [done|].
      eapply Forall_impl; [exact Hlt|]. by intros k Hk _.
    + constructor; [by constructor|]. constructor; [done|].
      eapply Forall_impl; [exact Hlt|]. by intros k Hk _.
    + constructor; [by apply IH|].
      rewrite insert_position_perm. constructor; [|done].
      rewrite cell_compare_antisym, Hc. simpl. discriminate.
Qed.

Lemma insertion_order_sorted d nl key count :
  ∀ start,
    Forall (fun j => start ≤ j)
           (insertion_order (key_le d nl key) start count)
    ∧ ordered d nl key (insertion_order (key_le d nl key) start count)
    ∧ ties_in_order d nl key (insertion_order (key_le d nl key) start count).
Proof.
  unfold insertion_order.
  induction count as [|n IH]; intros start; simpl.
  - split; [constructor|]. split; constructor.
  - destruct (IH (S start)) as (Hge & Hord & Hties). split; [|split].
    + rewrite insert_position_perm. constructor; [lia|].
      eapply Forall_impl; [exact Hge|]. intros j Hj. simpl in Hj. lia.
    + by apply insert_position_ordered.
    + apply insert_position_ties; [|done].
      eapply Forall_impl; [exact Hge|]. intros j Hj. simpl in Hj. lia.
Qed.

(** The native sort always has an outcome, stable or not. *)
Lemma sort_result_exists key d nl mo (f : list Series) :
  ∃ f', sort_result key d nl mo f f'.
Proof.
  destruct (insertion_order_sorted d nl key (Frame.height f) 0)
    as (_ & Hord & Hties).
  eexists. exists (insertion_order (key_le d nl key) 0 (Frame.height f)).
  split; [apply insertion_order_perm|]. split; [reflexivity|]. auto.
Qed.

Lemma unique_result_exists mo subset keep_ (f u : list Series) :
  unique_rows subset keep_ f = Some u → unique_result mo subset keep_ f u.
Proof.
  intros Hu. unfold unique_result. rewrite Hu. destruct mo; [done|].
  apply reordering_refl. unfold unique_rows in Hu.
  destruct (key_rows subset f); [|done].
  injection Hu as <-. apply equal_lengths_take_rows.
Qed.

Lemma on_frame_total {R} st h (k : list Series → Outcome R → Prop) :
  (∀ f, ∃ out, k f out) → ∃ out, on_frame st h k out.
Proof.
  intros Hk. unfold on_frame. destruct (st !! h) as [f|]; [apply Hk|].
  by eexists.
Qed.

Lemma opaque_total st : ∃ out, opaque st out.
Proof. exists (Err (NativeError InvalidArgument), st). left. by eexists. Qed.

Lemma step_total {R} (c : NativeCall R) st : ∃ out, step c st out.
Proof.
  destruct c; simpl; try (apply on_frame_total; intros f);
    try (by eexists); try apply opaque_total.
  - destruct (Frame.column f n); by eexists.
  - destruct (as_index idx) as [i|]; [case_bool_decide|];
      try (by eexists). by exists (Err (NativeError OutOfBounds), st), (Err (NativeError OutOfBounds)).
  - destruct (has_column f n); by eexists.
  - destruct (Frame.column f n); by eexists.
  - repeat case_match; by eexists.
  - destruct (as_index idx) as [i|]; [destruct (can_insert i s f)|];
      try (by eexists);
      by exists (Err (NativeError InvalidArgument), st),
                (NativeError InvalidArgument).
  - destruct (as_index idx) as [i|]; [destruct (can_replace i s f)|];
      try (by eexists);
      by exists (Err (NativeError InvalidArgument), st),
                (NativeError InvalidArgument).
  - destruct (as_index length); [by eexists|apply opaque_total].
  - destruct (unique_rows (flat <$> subset) keep f) as [u|] eqn:Hu;
      [|by eexists].
    exists (alloc u st), u. split; [by apply unique_result_exists|done].
  - destruct by_ as [[n|e|l]|]; try apply opaque_total.
    destruct (Frame.column f n) as [key|]; [|by eexists].
    destruct (sort_result_exists (values key) descending nulls_last
                maintain_order f) as [f' Hf'].
    exists (alloc f' st), f'. done.
  - apply on_frame_total. intros g. unfold join_result.
    repeat case_match; try (by eexists). apply opaque_total.
Qed.

(** Every wrapper program has an outcome on every store. *)
Lemma runs_total {A} (p : Prog A) : ∀ st, ∃ out, runs p st out.
Proof.
  induction p as [a|e|R c k IH]; intros st; simpl; [by eexists..|].
  destruct (step_total c st) as [[[v|e] st'] Hstep].
  - destruct (IH v st') as [out Hout]. exists out, (Ok v), st'. done.
  - exists (Err e, st'), (Err e), st'. done.
Qed.

(** * Further properties *)

(** ** Ordinary objects *)

Lemma keys_length {V} (o : Js.Object V) : length (Js.keys o) = length o.
Proof.
  unfold Js.keys. rewrite (Permutation_length (key_order_perm _)).
  by rewrite length_fmap.
Qed.

Lemma entries_of_keys {V} (o : Js.Object V) (ks : list string) :
  Forall (fun k => k ∈ o.*1) ks →
  (omap (fun k => (fun v => (k, v)) <$> Js.get o k) ks).*1 = ks.
Proof.
  induction 1 as [|k ks Hk _ IH]; [done|].
  apply get_is_Some in Hk as [v Hv]. cbn [omap list_omap].
  rewrite Hv. cbn. by rewrite IH.
Qed.

Lemma entries_keys {V} (o : Js.Object V) : (Js.entries o).*1 = Js.keys o.
Proof.
  unfold Js.entries. apply entries_of_keys.
  apply Forall_forall. intros k Hk. unfold Js.keys in Hk.
  by rewrite key_order_perm in Hk.
Qed.

Lemma entries_length {V} (o : Js.Object V) :
  length (Js.entries o) = length o.
Proof.
  rewrite <- (length_fmap fst), entries_keys. apply keys_length.
Qed.

Lemma Object_values_length {V} (o : Js.Object V) :
  length (Object_values o) = length o.
Proof. unfold Object_values. rewrite length_fmap. apply entries_length. Qed.

Lemma entries_get {V} (o : Js.Object V) k v :
  (k, v) ∈ Js.entries o → Js.get o k = Some v.
Proof.
  unfold Js.entries. intros H. apply list_elem_of_omap in H as (k' & _ & H).
  destruct (Js.get o k') as [v'|] eqn:Hget; [|done].
  by injection H as -> ->.
Qed.

(** ** objToDF *)

Lemma built_name_zip (g : string → option DtypeArgument) ks (vs : list ColumnData) :
  length ks = length vs →
  built_name <$> zip_with (fun n v => NewSeries n v (g n)) ks vs = ks
  ∧ built_data <$> zip_with (fun n v => NewSeries n v (g n)) ks vs = vs.
Proof.
  revert vs. induction ks as [|k ks IH]; intros [|v vs] Hlen;
    try discriminate; [done|].
  injection Hlen as Hlen. destruct (IH vs Hlen) as [Hn Hd].
  cbn. by rewrite Hn, Hd.
Qed.

Lemma built_build_column ov (e : string * ColumnData) :
  built_name (build_column ov e) = e.1
  ∧ built_data (build_column ov e) = e.2.
Proof.
  destruct e as [k [v|s]]; [|done]. unfold build_column.
  destruct ov as [ov|]; [|done].
  destruct (read ov k) as [t| |]; [|done|done].
  by destruct (type_truthy t).
Qed.

Lemma map_throwing_fmap {A B C} (g : A → B) (callback : B → Exception + C)
    (l : list A) :
  map_throwing (fun x => callback (g x)) l = map_throwing callback (g <$> l).
Proof.
  induction l as [|x l IH]; [done|]. cbn. by rewrite IH.
Qed.

(** Past its own two checks, [objToDF] is the construction of the columns
    it describes. *)
Lemma objToDF_constructs {NativeSeries NativeFrame : Type}
    (build_series : BuiltColumn → Exception + NativeSeries)
    (JsDataFrame : list NativeSeries → Exception + NativeFrame)
    (obj : Js.Object ColumnData) (options : option DataFrameOptions) :
  options ≫= schema = None
  ∨ (∃ s, options ≫= schema = Some s
          ∧ options ≫= schemaOverrides = None
          ∧ length s = length obj) →
  objToDF NativeSeries NativeFrame build_series JsDataFrame obj options
  = construct build_series JsDataFrame (described_columns obj options).
Proof.
  unfold objToDF, described_columns, construct.
  intros [Hs|(s & Hs & Hov & Hlen)]; rewrite Hs.
  - by rewrite map_throwing_fmap.
  - rewrite Hov, keys_length, Object_values_length, Hlen, Nat.eqb_refl.
    done.
Qed.

(** X1. [objToDF] fails in exactly these situations: when both [schema]
    and [schemaOverrides] are given, whatever the data; when [schema]
    alone is given with a number of keys different from that of the data;
    and otherwise when building one of the columns it describes, or the
    frame from them, throws.  The two checks of its own come first: none
    of the columns is built when one of them fails. *)
Theorem objToDF_fails_iff {NativeSeries NativeFrame : Type}
    (build_series : BuiltColumn → Exception + NativeSeries)
    (JsDataFrame : list NativeSeries → Exception + NativeFrame)
    (obj : Js.Object ColumnData) (options : option DataFrameOptions)
    (e : Exception) :
  objToDF NativeSeries NativeFrame build_series JsDataFrame obj options
    = inl e
  ↔ (is_Some (options ≫= schema) ∧ is_Some (options ≫= schemaOverrides)
     ∧ e = schema_conflict)
    ∨ (∃ s, options ≫= schema = Some s
            ∧ options ≫= schemaOverrides = None
            ∧ length s ≠ length obj
            ∧ e = schema_mismatch)
    ∨ ((options ≫= schema = None
        ∨ ∃ s, options ≫= schema = Some s
               ∧ options ≫= schemaOverrides = None
               ∧ length s = length obj)
       ∧ construct build_series JsDataFrame (described_columns obj options)
         = inl e).
Proof.
  destruct (options ≫= schema) as [s|] eqn:Hs;
    [destruct (options ≫= schemaOverrides) as [ov|] eqn:Hov;
     [|destruct (decide (length s = length obj)) as [Hlen|Hlen]]|].
  - unfold objToDF. rewrite Hs, Hov. split.
    + intros [= <-]. left. eauto.
    + intros [(_ & _ & He)|[(s' & _ & Hnone & _)|[[Hnone|(s' & _ & Hnone & _)] _]]];
        [by rewrite He|discriminate Hnone..].
  - rewrite objToDF_constructs by (right; rewrite Hs; eauto). split.
    + intros Hc. right. right. split; [right; eauto|done].
    + intros [(_ & [? Hsome] & _)|[(s' & Hs' & _ & Hne & _)|[_ Hc]]];
        [discriminate Hsome| |exact Hc].
      assert (Some s = Some s') as [= <-]
        by first [exact Hs'
                 |transitivity (options ≫= schema);
                  [symmetry; exact Hs|exact Hs']].
      done.
  - unfold objToDF. rewrite Hs, Hov, keys_length, Object_values_length.
    apply Nat.eqb_neq in Hlen as Hneq. rewrite Hneq. cbn [negb]. split.
    + intros [= <-]. right. left. exists s. done.
    + intros [(_ & [? Hsome] & _)|[(s' & _ & _ & _ & He)
                                  |[[Hnone|(s' & Hs' & _ & Heq)] _]]];
        [discriminate Hsome|by rewrite He|discriminate Hnone|].
      assert (Some s = Some s') as [= <-]
        by first [exact Hs'
                 |transitivity (options ≫= schema);
                  [symmetry; exact Hs|exact Hs']].
      done.
  - rewrite objToDF_constructs by (left; exact Hs). split.
    + intros Hc. right. right. split; [by left|done].
    + intros [([? Hsome] & _)|[(s' & Hs' & _)|[_ Hc]]];
        [discriminate Hsome| |exact Hc].
      assert (None = Some s') as [=]
        by first [exact Hs'
                 |transitivity (options ≫= schema);
                  [symmetry; exact Hs|exact Hs']].
Qed.

(** X2. With an explicit [schema] of as many keys as the data has, the
    columns are named by the keys of the schema, in key order, and filled
    with the values of the data, in key order of the data, pairing them by
    position; each gets the dtype the schema gives for its name.  The keys
    of the data play no role. *)
Theorem objToDF_schema_names (obj : Js.Object ColumnData)
    (options : option DataFrameOptions) (s : Js.Object SchemaType) :
  options ≫= schema = Some s →
  options ≫= schemaOverrides = None →
  length s = length obj →
  ∃ cols, (∀ (NativeSeries NativeFrame : Type)
             (build_series : BuiltColumn → Exception + NativeSeries)
             (JsDataFrame : list NativeSeries → Exception + NativeFrame),
             objToDF NativeSeries NativeFrame build_series JsDataFrame
               obj options
             = construct build_series JsDataFrame cols)
          ∧ built_name <$> cols = Js.keys s
          ∧ built_data <$> cols = Object_values obj
          ∧ Forall (fun c => ∃ t, Js.get s (built_name c) = Some t
                                  ∧ built_dtype c = Some (DtypeGiven t)) cols.
Proof.
  intros Hs Hov Hlen. exists (described_columns obj options).
  split.
  { intros NS NF bs jd. apply objToDF_constructs. right. eauto. }
  unfold described_columns. rewrite Hs.
  assert (Hlen' : length (Js.keys s) = length (Object_values obj))
    by by rewrite keys_length, Object_values_length.
  destruct (built_name_zip (fun n => DtypeGiven <$> Js.get s n) _ _ Hlen')
    as [Hn Hd].
  split; [exact Hn|]. split; [exact Hd|].
  apply Forall_forall. intros c Hc.
  assert (Hk : built_name c ∈ Js.keys s).
  { rewrite <- Hn. by apply list_elem_of_fmap_2. }
  unfold Js.keys in Hk. rewrite key_order_perm in Hk.
  apply get_is_Some in Hk as [t Ht]. exists t. split; [done|].
  apply list_elem_of_lookup in Hc as [i Hi].
  apply lookup_zip_with_Some in Hi as (k & v & -> & _ & _).
  cbn in Ht |- *. by rewrite Ht.
Qed.

Lemma objToDF_schema_names_witness :
  ∃ cols,
    (∀ (NativeSeries NativeFrame : Type)
       (build_series : BuiltColumn → Exception + NativeSeries)
       (JsDataFrame : list NativeSeries → Exception + NativeFrame),
       objToDF NativeSeries NativeFrame build_series JsDataFrame
         [("b", DataArray (Examples.ints [1; 2]%Z));
          ("a", DataArray (Examples.strs ["x"; "y"]))]
         (Some (mkDataFrameOptions
                  (Some [("x", TypeOf Int64); ("1", TypeOf Utf8)]) None))
       = construct build_series JsDataFrame cols)
    ∧ built_name <$> cols = ["1"; "x"]
    ∧ built_data <$> cols = [DataArray (Examples.ints [1; 2]%Z);
                             DataArray (Examples.strs ["x"; "y"])].
Proof.
  destruct (objToDF_schema_names
              [("b", DataArray (Examples.ints [1; 2]%Z));
               ("a", DataArray (Examples.strs ["x"; "y"]))]
              (Some (mkDataFrameOptions
                       (Some [("x", TypeOf Int64); ("1", TypeOf Utf8)]) None))
              [("x", TypeOf Int64); ("1", TypeOf Utf8)]
              eq_refl eq_refl eq_refl) as (cols & Heq & Hn & Hd & _).
  exists cols. split; [exact Heq|]. split; [exact Hn|exact Hd].
Defined.

(** X3. Without [schema], [objToDF] builds one column per key of the data,
    named by that key and holding its value, in the key order of the
    object: keys that are array indices come first, in ascending order,
    whatever the order they were written in; when no key is an array index
    the columns are in the order of the object's entries. *)
Theorem objToDF_names_in_key_order (obj : Js.Object ColumnData)
    (options : option DataFrameOptions) :
  options ≫= schema = None →
  ∃ cols, (∀ (NativeSeries NativeFrame : Type)
             (build_series : BuiltColumn → Exception + NativeSeries)
             (JsDataFrame : list NativeSeries → Exception + NativeFrame),
             objToDF NativeSeries NativeFrame build_series JsDataFrame
               obj options
             = construct build_series JsDataFrame cols)
          ∧ built_name <$> cols = Js.keys obj
          ∧ built_data <$> cols = Object_values obj
          ∧ length cols = length obj
          ∧ (Forall (fun k => Js.is_array_index k = false) obj.*1 →
             built_name <$> cols = obj.*1).
Proof.
  intros Hs. exists (described_columns obj options). split.
  { intros NS NF bs jd. apply objToDF_constructs. by left. }
  unfold described_columns. rewrite Hs.
  assert (Hn : built_name <$> (build_column (options ≫= schemaOverrides)
                                 <$> Js.entries obj) = Js.keys obj).
  { rewrite <- entries_keys, <- list_fmap_compose. apply list_fmap_ext.
    intros i e _. apply built_build_column. }
  split; [exact Hn|]. split.
  - unfold Object_values. rewrite <- list_fmap_compose. apply list_fmap_ext.
    intros i e _. apply built_build_column.
  - split; [by rewrite length_fmap, entries_length|].
    intros Hplain. rewrite Hn. unfold Js.keys. by apply key_order_plain.
Qed.

Lemma objToDF_names_in_key_order_witness :
  ∃ cols,
    (∀ (NativeSeries NativeFrame : Type)
       (build_series : BuiltColumn → Exception + NativeSeries)
       (JsDataFrame : list NativeSeries → Exception + NativeFrame),
       objToDF NativeSeries NativeFrame build_series JsDataFrame
         [("b", DataArray (Examples.ints [1; 2]%Z));
          ("10", DataArray (Examples.ints [3; 4]%Z));
          ("2", DataSeries (mkSeries "s" Utf8 (Examples.strs ["x"; "y"])))]
         None
       = construct build_series JsDataFrame cols)
    ∧ built_name <$> cols = ["2"; "10"; "b"].
Proof.
  destruct (objToDF_names_in_key_order
              [("b", DataArray (Examples.ints [1; 2]%Z));
               ("10", DataArray (Examples.ints [3; 4]%Z));
               ("2", DataSeries
                       (mkSeries "s" Utf8 (Examples.strs ["x"; "y"])))]
              None eq_refl) as (cols & Heq & Hn & _).
  exists cols. split; [exact Heq|exact Hn].
Defined.

(** X4. With [schemaOverrides], an array under a key that the overrides do
    not hold but every object inherits from [Object.prototype] (such as
    ["constructor"] or ["toString"]) is built with that inherited member
    as its dtype argument; a Series is renamed to its key and never given
    a dtype, and an array under any other key the overrides do not hold is
    built without one. *)
Theorem objToDF_override_lookup (obj : Js.Object ColumnData)
    (options : option DataFrameOptions) (ov : Js.Object SchemaType) :
  options ≫= schema = None →
  options ≫= schemaOverrides = Some ov →
  ∃ cols, (∀ (NativeSeries NativeFrame : Type)
             (build_series : BuiltColumn → Exception + NativeSeries)
             (JsDataFrame : list NativeSeries → Exception + NativeFrame),
             objToDF NativeSeries NativeFrame build_series JsDataFrame
               obj options
             = construct build_series JsDataFrame cols)
          ∧ ∀ k d, (k, d) ∈ Js.entries obj →
              ∃ c, c ∈ cols ∧ built_name c = k ∧ built_data c = d
                   ∧ (∀ s, d = DataSeries s → c = RenamedSeries s k)
                   ∧ (∀ v, d = DataArray v → Js.get ov k = None →
                        built_dtype c
                        = if Js.inherited k then Some (DtypeInherited k)
                          else None).
Proof.
  intros Hs Hov. exists (described_columns obj options). split.
  { intros NS NF bs jd. apply objToDF_constructs. by left. }
  unfold described_columns. rewrite Hs, Hov. intros k d Hin.
  exists (build_column (Some ov) (k, d)).
  split; [by apply list_elem_of_fmap_2|].
  destruct (built_build_column (Some ov) (k, d)) as [Hn Hd].
  split; [exact Hn|]. split; [exact Hd|]. split.
  - intros s ->. reflexivity.
  - intros v -> Hget. cbn. unfold read. rewrite Hget.
    by destruct (Js.inherited k).
Qed.

Lemma objToDF_override_lookup_witness :
  ∃ cols,
    (∀ (NativeSeries NativeFrame : Type)
       (build_series : BuiltColumn → Exception + NativeSeries)
       (JsDataFrame : list NativeSeries → Exception + NativeFrame),
       objToDF NativeSeries NativeFrame build_series JsDataFrame
         [("toString", DataArray (Examples.ints [1; 2]%Z))]
         (Some (mkDataFrameOptions None (Some [("a", TypeOf Int8)])))
       = construct build_series JsDataFrame cols)
    ∧ NewSeries "toString" (DataArray (Examples.ints [1; 2]%Z))
        (Some (DtypeInherited "toString")) ∈ cols.
Proof.
  destruct (objToDF_override_lookup
              [("toString", DataArray (Examples.ints [1; 2]%Z))]
              (Some (mkDataFrameOptions None (Some [("a", TypeOf Int8)])))
              [("a", TypeOf Int8)] eq_refl eq_refl) as (cols & Heq & Hcols).
  exists cols. split; [exact Heq|].
  destruct (Hcols "toString" (DataArray (Examples.ints [1; 2]%Z)))
    as (c & Hc & Hn & Hd & _ & Hdt).
  { apply list_elem_of_In. simpl. tauto. }
  specialize (Hdt _ eq_refl eq_refl). simpl in Hdt.
  destruct c as [n v dt|s n]; simpl in *; [|discriminate Hd].
  by subst.
Defined.

(** ** fold *)

Lemma runs_get_width (this : DataFrame) st (f : list Series) out :
  st !! _df this = Some f →
  runs (df.get_width this) st out ↔ out = (Ok (Frame.width f), st).
Proof.
  intros Hf. unfold df.get_width. rewrite runs_call. simpl.
  unfold on_frame. by rewrite Hf.
Qed.

Lemma runs_getColumns (this : DataFrame) st (f : list Series) out :
  st !! _df this = Some f →
  runs (df.getColumns this) st out ↔ out = (Ok f, st).
Proof.
  intros Hf. unfold df.getColumns. rewrite runs_call. simpl.
  unfold on_frame. by rewrite Hf.
Qed.

(** [this.getColumns()] on a frame that is there: the columns, or the
    TypeError when one of them is named ["getColumns"]. *)
Lemma runs_this_getColumns (this : DataFrame) st (f : list Series) out :
  st !! _df this = Some f →
  runs (method_call "this" this "getColumns" (df.getColumns this)) st out
  ↔ out = (if bool_decide ("getColumns" ∈ Frame.columns f)
           then Err (not_a_function "this" "getColumns") else Ok f, st).
Proof.
  intros Hf. case_bool_decide as Hg.
  - by apply runs_method_call_column with (f := f).
  - rewrite (runs_method_call_own "this" this "getColumns" _ st f _ Hf Hg).
    by apply runs_getColumns.
Qed.

(** A program that starts with [this.getColumns()] on a frame that is
    there continues with the columns in the same store, or ends with the
    TypeError. *)
Lemma runs_with_columns {A} (this : DataFrame) (k : list Series → Prog A) st
    (f : list Series) out :
  st !! _df this = Some f →
  runs (let* cols := method_call "this" this "getColumns"
                       (df.getColumns this) in k cols) st out
  ↔ if bool_decide ("getColumns" ∈ Frame.columns f)
    then out = (Err (not_a_function "this" "getColumns"), st)
    else runs (k f) st out.
Proof.
  intros Hf. rewrite runs_bind. split.
  - intros (r & st' & Hc & Hk).
    apply (runs_this_getColumns this st f _ Hf) in Hc.
    case_bool_decide; by injection Hc as -> ->.
  - intros Hk. case_bool_decide as Hg.
    + exists (Err (not_a_function "this" "getColumns")), st. split; [|done].
      apply (runs_this_getColumns this st f _ Hf).
      by rewrite bool_decide_eq_true_2.
    + exists (Ok f), st. split; [|done].
      apply (runs_this_getColumns this st f _ Hf).
      by rewrite bool_decide_eq_false_2.
Qed.

(** The test [this.width === 1]. *)
Lemma runs_width_is_one (this : DataFrame) st (f : list Series) out :
  st !! _df this = Some f →
  runs (member this "width" (fun _ => Ret false)
          (let* width := df.get_width this in Ret (width =? 1)%nat)) st out
  ↔ out = (Ok (if bool_decide ("width" ∈ Frame.columns f) then false
               else (Frame.width f =? 1)%nat), st).
Proof.
  intros Hf. case_bool_decide as Hw.
  - destruct (column_of_name f "width" Hw) as (c & Hc & _ & _).
    by rewrite (runs_member_column this "width" _ _ st f c _ Hf Hw Hc).
  - rewrite (runs_member_own this "width" _ _ st f _ Hf Hw).
    rewrite runs_bind. split.
    + intros (r & st' & Hwidth & Hret).
      apply (runs_get_width this st f _ Hf) in Hwidth.
      by injection Hwidth as -> ->.
    + intros ->. exists (Ok (Frame.width f)), st.
      split; [by apply (runs_get_width this st f)|done].
Qed.

Lemma runs_fold (selectAtIdx : nat → Number → Prog Series)
    (this : DataFrame) (fn : Series → Series → Prog Series) st
    (f : list Series) out :
  st !! _df this = Some f →
  runs (df_methods.fold selectAtIdx this fn) st out
  ↔ runs (if (if bool_decide ("width" ∈ Frame.columns f) then false
              else (Frame.width f =? 1)%nat)
          then method_call "this" this "toSeries"
                 (df_methods.toSeries selectAtIdx this (Some (of_nat 0)))
          else let* cols := method_call "this" this "getColumns"
                              (df.getColumns this) in
               reduce (fun acc curr => fn acc curr) cols) st out.
Proof.
  intros Hf. unfold df_methods.fold. rewrite runs_bind. split.
  - intros (r & st' & Htest & Hrest).
    apply (runs_width_is_one this st f _ Hf) in Htest.
    injection Htest as -> ->. exact Hrest.
  - intros Hrest. eexists _, st.
    split; [by apply (runs_width_is_one this st f _ Hf)|exact Hrest].
Qed.

Lemma runs_reduce_from_pure {A} (g : A → A → A) (l : list A) acc st out :
  runs (reduce_from (fun a b => Ret (g a b)) acc l) st out
  ↔ out = (Ok (foldl g acc l), st).
Proof.
  revert acc. induction l as [|x l IH]; intros acc; [done|].
  cbn [reduce_from bind foldl]. apply IH.
Qed.

(** X5. [fold] on a frame without columns throws the TypeError of a
    [reduce] over an empty array, whatever the callback.  On a frame of
    one column the callback is never called: the result is [toSeries(0)];
    or, if the column is named ["width"], that column, reached through
    [getColumns]; or, if it is named ["toSeries"], the TypeError of calling
    a column. *)
Theorem fold_of_narrow_frames (selectAtIdx : nat → Number → Prog Series)
    (this : DataFrame) (fn : Series → Series → Prog Series) st
    (f : list Series) :
  st !! _df this = Some f →
  (f = [] →
   ∀ out, runs (df_methods.fold selectAtIdx this fn) st out
          ↔ out = (Err reduce_of_empty, st))
  ∧ (∀ c, f = [c] → name c ≠ "width" → name c ≠ "toSeries" →
       ∀ out, runs (df_methods.fold selectAtIdx this fn) st out
              ↔ runs (selectAtIdx (_df this) (of_nat 0)) st out)
  ∧ (∀ c, f = [c] → name c = "toSeries" →
       ∀ out, runs (df_methods.fold selectAtIdx this fn) st out
              ↔ out = (Err (not_a_function "this" "toSeries"), st))
  ∧ (∀ c, f = [c] → name c = "width" →
       ∀ out, runs (df_methods.fold selectAtIdx this fn) st out
              ↔ out = (Ok c, st)).
Proof.
  intros Hf. split; [|split; [|split]].
  - intros -> out. rewrite (runs_fold selectAtIdx this fn st [] out Hf).
    rewrite bool_decide_eq_false_2 by apply not_elem_of_nil.
    cbn [Frame.width length Nat.eqb].
    rewrite (runs_with_columns this _ st [] out Hf).
    by rewrite bool_decide_eq_false_2 by apply not_elem_of_nil.
  - intros c -> Hw Ht out.
    rewrite (runs_fold selectAtIdx this fn st [c] out Hf).
    rewrite bool_decide_eq_false_2
      by (cbn; rewrite list_elem_of_singleton; congruence).
    cbn [Frame.width length Nat.eqb].
    rewrite (runs_method_call_own "this" this "toSeries" _ st [c] _ Hf);
      [done|].
    cbn. rewrite list_elem_of_singleton. congruence.
  - intros c -> Ht out.
    rewrite (runs_fold selectAtIdx this fn st [c] out Hf).
    rewrite bool_decide_eq_false_2
      by (cbn; rewrite list_elem_of_singleton, Ht; discriminate).
    cbn [Frame.width length Nat.eqb].
    apply (runs_method_call_column "this" this "toSeries" _ st [c] _ Hf).
    cbn. rewrite Ht. apply list_elem_of_here.
  - intros c -> Hw out.
    rewrite (runs_fold selectAtIdx this fn st [c] out Hf).
    rewrite bool_decide_eq_true_2
      by (cbn; rewrite Hw; apply list_elem_of_here).
    rewrite (runs_with_columns this _ st [c] out Hf).
    by rewrite bool_decide_eq_false_2
      by (cbn; rewrite list_elem_of_singleton, Hw; discriminate).
Qed.

Lemma fold_of_narrow_frames_witness :
  runs (df_methods.fold (fun h _ => call (NColumn h "b")) (_DataFrame 0)
          (fun acc _ => Ret acc))
       [[]] (Err reduce_of_empty, [[]])
  ∧ runs (df_methods.fold (fun h _ => call (NColumn h "b")) (_DataFrame 0)
            (fun acc _ => Ret acc))
         [Examples.dropped]
         (Ok (mkSeries "b" Utf8 (Examples.strs ["x"; "y"])),
          [Examples.dropped])
  ∧ runs (df_methods.fold (fun h _ => call (NColumn h "b")) (_DataFrame 0)
            (fun acc _ => Ret acc))
         [[mkSeries "toSeries" Int64 (Examples.ints [1]%Z)]]
         (Err (not_a_function "this" "toSeries"),
          [[mkSeries "toSeries" Int64 (Examples.ints [1]%Z)]]).
Proof.
  split; [|split].
  - apply (proj1 (fold_of_narrow_frames (fun h _ => call (NColumn h "b"))
                    (_DataFrame 0) (fun acc _ => Ret acc) [[]] []
                    eq_refl) eq_refl).
    reflexivity.
  - apply (proj1 (proj2 (fold_of_narrow_frames
                           (fun h _ => call (NColumn h "b"))
                           (_DataFrame 0) (fun acc _ => Ret acc)
                           [Examples.dropped] Examples.dropped eq_refl))
             _ eq_refl); [discriminate|discriminate|].
    apply runs_call. reflexivity.
  - apply (proj1 (proj2 (proj2 (fold_of_narrow_frames
                                  (fun h _ => call (NColumn h "b"))
                                  (_DataFrame 0) (fun acc _ => Ret acc)
                                  [[mkSeries "toSeries" Int64
                                      (Examples.ints [1]%Z)]]
                                  _ eq_refl)))
             _ eq_refl eq_refl).
    reflexivity.
Defined.

(** X6. On a frame of two or more columns, none of them named
    ["getColumns"], [fold] with a callback that computes [g] is the left
    fold of [g] over the columns, started with the first column:
    [g (... (g (g c0 c1) c2) ...) cn].  It reads the frame and changes
    nothing.  With a column named ["getColumns"] it throws the TypeError
    of calling a column. *)
Theorem fold_is_left_fold (selectAtIdx : nat → Number → Prog Series)
    (this : DataFrame) (g : Series → Series → Series) st
    (c0 c1 : Series) (cs : list Series) :
  st !! _df this = Some (c0 :: c1 :: cs) →
  ("getColumns" ∉ Frame.columns (c0 :: c1 :: cs) →
   ∀ out, runs (df_methods.fold selectAtIdx this (fun a b => Ret (g a b)))
               st out
          ↔ out = (Ok (foldl g (g c0 c1) cs), st))
  ∧ ("getColumns" ∈ Frame.columns (c0 :: c1 :: cs) →
     ∀ out, runs (df_methods.fold selectAtIdx this (fun a b => Ret (g a b)))
                 st out
            ↔ out = (Err (not_a_function "this" "getColumns"), st)).
Proof.
  intros Hf.
  assert (Htest : (if bool_decide ("width" ∈ Frame.columns (c0 :: c1 :: cs))
                   then false
                   else (Frame.width (c0 :: c1 :: cs) =? 1)%nat) = false)
    by by case_bool_decide.
  split; intros Hg out;
    rewrite (runs_fold selectAtIdx this _ st _ out Hf), Htest;
    rewrite (runs_with_columns this _ st _ out Hf).
  - rewrite bool_decide_eq_false_2 by done.
    cbn [reduce]. apply (runs_reduce_from_pure g (c1 :: cs) c0).
  - by rewrite bool_decide_eq_true_2.
Qed.

Lemma fold_is_left_fold_witness :
  runs (df_methods.fold (fun h _ => call (NColumn h "a")) (_DataFrame 0)
          (fun a b => Ret (mkSeries (name a +:+ name b) (dtype a) (values b))))
       [Examples.with_apple]
       (Ok (mkSeries "aappleb" Int64 (Examples.strs ["x"; "y"])),
        [Examples.with_apple]).
Proof.
  apply (proj1 (fold_is_left_fold (fun h _ => call (NColumn h "a"))
                  (_DataFrame 0)
                  (fun a b => mkSeries (name a +:+ name b) (dtype a)
                                (values b))
                  [Examples.with_apple] _ _ _ eq_refl)).
  - not_a_column.
  - reflexivity.
Defined.

(** ** toObject and toDataResource *)

Lemma values_entries_keys (f : list Series) :
  (values_entries f).*1 = Frame.columns f.
Proof.
  unfold values_entries, Frame.columns. by rewrite <- list_fmap_compose.
Qed.

Lemma get_values_entries (f : list Series) (s : Series) :
  NoDup (Frame.columns f) → s ∈ f →
  Js.get (values_entries f) (name s) = Some (values s).
Proof.
  unfold Js.get. induction f as [|c f IH]; intros Hnd Hs; simpl.
  - by apply elem_of_nil in Hs.
  - apply NoDup_cons in Hnd as [Hc Hnd].
    apply elem_of_cons in Hs as [->|Hs].
    + by rewrite String.eqb_refl.
    + destruct (String.eqb_spec (name c) (name s)) as [Heq|_]; [|by apply IH].
      exfalso. apply Hc. rewrite Heq. unfold Frame.columns.
      by apply list_elem_of_fmap_2.
Qed.

(** X7. [toObject] reads the frame and changes nothing.  On a frame
    without a column named ["getColumns"] the object it returns has one
    key per column, holding that column's values, except for a column
    named ["__proto__"], which leaves no key behind; the keys enumerate in
    key order, array-index names first.  With a column named
    ["getColumns"] it throws the TypeError of calling a column. *)
Theorem toObject_keys_and_values (this : DataFrame) st (f : list Series) :
  st !! _df this = Some f →
  NoDup (Frame.columns f) →
  ("getColumns" ∉ Frame.columns f →
   ∀ out, runs (df_methods.toObject this) st out
          ↔ out = (Ok (values_entries (own_columns f)), st))
  ∧ ("getColumns" ∈ Frame.columns f →
     ∀ out, runs (df_methods.toObject this) st out
            ↔ out = (Err (not_a_function "this" "getColumns"), st))
  ∧ Js.keys (values_entries (own_columns f))
    = Js.key_order (own_keys (Frame.columns f))
  ∧ (∀ s, s ∈ f → name s ≠ "__proto__" →
          Js.get (values_entries (own_columns f)) (name s) = Some (values s))
  ∧ Js.get (values_entries (own_columns f)) "__proto__" = None.
Proof.
  intros Hf Hnd.
  split; [|split; [|split; [|split]]].
  - intros Hg out. unfold df_methods.toObject.
    rewrite (runs_with_columns this _ st f out Hf).
    rewrite bool_decide_eq_false_2 by done. simpl.
    by rewrite (foldl_assign_columns values f [] Hnd).
  - intros Hg out. unfold df_methods.toObject.
    rewrite (runs_with_columns this _ st f out Hf).
    by rewrite bool_decide_eq_true_2.
  - unfold Js.keys. by rewrite values_entries_keys, columns_own_columns.
  - intros s Hs Hname. apply get_values_entries.
    + by apply own_columns_NoDup.
    + by apply elem_of_own_columns.
  - destruct (Js.get _ "__proto__") as [v|] eqn:Hget; [|done].
    assert (Hin : "__proto__" ∈ (values_entries (own_columns f)).*1).
    { apply get_is_Some. eauto. }
    rewrite values_entries_keys, columns_own_columns in Hin.
    by apply elem_of_own_keys in Hin as [_ Hin].
Qed.

Lemma toObject_keys_and_values_witness :
  runs (df_methods.toObject (_DataFrame 0)) [Examples.numeric_name]
       (Ok [("b", Examples.ints [1; 2]%Z); ("0", Examples.strs ["x"; "y"])],
        [Examples.numeric_name])
  ∧ Js.keys [("b", Examples.ints [1; 2]%Z); ("0", Examples.strs ["x"; "y"])]
    = ["0"; "b"].
Proof.
  assert (Hnd : NoDup (Frame.columns Examples.numeric_name)).
  { apply (bool_decide_unpack _). vm_compute. exact I. }
  assert (Hg : "getColumns" ∉ Frame.columns Examples.numeric_name)
    by not_a_column.
  destruct (toObject_keys_and_values (_DataFrame 0) [Examples.numeric_name]
              Examples.numeric_name eq_refl Hnd) as (Hrun & _).
  split; [by apply (Hrun Hg)|reflexivity].
Defined.

Lemma mapPolarsTypeToJSONSchema_range (colType : DataType) :
  ∃ t, mapPolarsTypeToJSONSchema colType = OwnProperty t ∧ t ∈ json_types.
Proof.
  destruct colType; eexists; (split; [reflexivity|]);
    apply list_elem_of_In; simpl; tauto.
Qed.

(** X8. Whatever the records are, the schema that [toDataResource] returns
    lists one field per column of the frame, in column order (array-index
    names are not moved to the front), and types each of them with one of
    the seven names null, boolean, integer, number, string, array and
    object. *)
Theorem toDataResource_fields (Records : Type)
    (toObjects : nat → Prog Records) (this : DataFrame) st data fields st'
    (f : list Series) :
  runs (df_methods.toDataResource Records toObjects this) st
       (Ok (data, fields), st') →
  st' !! _df this = Some f →
  fields.*1 = Frame.columns f
  ∧ Forall (fun t => ∃ n, t = OwnProperty n ∧ n ∈ json_types) fields.*2.
Proof.
  unfold df_methods.toDataResource, df_methods.toRecords.
  intros Hrun Hf. apply runs_bind in Hrun as (r & st1 & _ & Hrest).
  destruct r as [d|e]; [|done].
  apply runs_bind in Hrest as (r2 & st2 & Hcols & Hret).
  destruct r2 as [cols|e]; [|done].
  simpl in Hret. injection Hret as -> -> ->.
  apply runs_method_call_inv in Hcols as [Hcols|[e [=]]].
  unfold df.getColumns in Hcols. apply runs_call in Hcols. simpl in Hcols.
  unfold on_frame in Hcols. destruct (st1 !! _df this) as [f1|] eqn:Hf1.
  - injection Hcols as -> ->. rewrite Hf1 in Hf. injection Hf as ->.
    split.
    + unfold Frame.columns. by rewrite <- list_fmap_compose.
    + rewrite <- list_fmap_compose. apply Forall_fmap, Forall_forall.
      intros s _. apply mapPolarsTypeToJSONSchema_range.
  - discriminate Hcols.
Qed.

Lemma toDataResource_fields_witness :
  runs (df_methods.toDataResource unit (fun _ => Ret tt) (_DataFrame 0))
       [Examples.numeric_name]
       (Ok (tt, [("b", OwnProperty "integer"); ("0", OwnProperty "string")]),
        [Examples.numeric_name])
  ∧ [("b", OwnProperty "integer"); ("0", OwnProperty "string")].*1
    = Frame.columns Examples.numeric_name.
Proof.
  assert (Hrun : runs (df_methods.toDataResource unit (fun _ => Ret tt)
                         (_DataFrame 0))
                      [Examples.numeric_name]
                      (Ok (tt, [("b", OwnProperty "integer");
                                ("0", OwnProperty "string")]),
                       [Examples.numeric_name])).
  { apply runs_bind. exists (Ok tt), [Examples.numeric_name].
    split.
    { apply (runs_method_call_own "this" (_DataFrame 0) "toRecords" _
               [Examples.numeric_name] Examples.numeric_name);
        [reflexivity|not_a_column|reflexivity]. }
    apply runs_bind. exists (Ok Examples.numeric_name), [Examples.numeric_name].
    split; [|reflexivity].
    apply (runs_method_call_own "this" (_DataFrame 0) "getColumns" _
             [Examples.numeric_name] Examples.numeric_name);
      [reflexivity|not_a_column|].
    apply runs_call. reflexivity. }
  split; [exact Hrun|].
  exact (proj1 (toDataResource_fields unit (fun _ => Ret tt) (_DataFrame 0)
                  _ _ _ _ Examples.numeric_name Hrun eq_refl)).
Defined.

(** ** The Proxy traps *)

Lemma Qred_integer (z : Z) : Qred (inject_Z z) = inject_Z z.
Proof.
  unfold Qred, inject_Z.
  pose proof (Z.ggcd_gcd z 1) as Hg.
  pose proof (Z.ggcd_correct_divisors z 1) as Hd.
  destruct (Z.ggcd z 1) as [g [aa bb]]. simpl in Hg.
  rewrite Z.gcd_1_r in Hg. subst g. destruct Hd as [Ha Hb].
  assert (bb = 1%Z) as -> by lia. assert (aa = z) as -> by lia.
  reflexivity.
Qed.

Lemma as_index_of_nat (i : nat) : as_index (of_nat i) = Some i.
Proof.
  unfold as_index, of_nat. rewrite Qred_integer. simpl.
  destruct (Z.leb_spec 0 (Z.of_nat i)) as [_|Hneg]; [|lia].
  by rewrite Nat2Z.id.
Qed.

Lemma indexOf_lookup (l : list string) (i : nat) (x : string) :
  NoDup l → l !! i = Some x → indexOf l x = of_nat i.
Proof.
  intros Hnd Hi. unfold indexOf.
  destruct (list_find (fun y => y = x) l) as [[j y]|] eqn:Hfind.
  - apply list_find_Some in Hfind as (Hj & -> & _).
    by rewrite (NoDup_lookup l i j x Hnd Hi Hj).
  - apply list_find_None in Hfind. rewrite Forall_forall in Hfind.
    exfalso. apply (Hfind x); [|done]. by eapply list_elem_of_lookup_2.
Qed.

Lemma NoDup_delete_notin {A} (l : list A) (i : nat) (x : A) :
  NoDup l → l !! i = Some x → x ∉ delete i l.
Proof.
  intros Hnd Hi Hin. apply list_elem_of_lookup in Hin as [j Hj].
  destruct (decide (j < i)) as [Hlt|Hge].
  - rewrite list_lookup_delete_lt in Hj by done.
    pose proof (NoDup_lookup l i j x Hnd Hi Hj). lia.
  - rewrite list_lookup_delete_ge in Hj by lia.
    pose proof (NoDup_lookup l i (S j) x Hnd Hi Hj). lia.
Qed.

Lemma columns_replace_same (f : list Series) (i : nat) (s : Series) p :
  Frame.columns f !! i = Some p →
  Frame.columns (<[i := alias s p]> f) = Frame.columns f.
Proof.
  intros Hi. unfold Frame.columns in *. rewrite list_fmap_insert. simpl.
  by apply list_insert_id.
Qed.

Lemma column_after_replace (f : list Series) (i : nat) (s : Series) p :
  NoDup (Frame.columns f) →
  Frame.columns f !! i = Some p →
  Frame.column (<[i := alias s p]> f) p = Some (alias s p).
Proof.
  intros Hnd Hi.
  pose proof (columns_replace_same f i s p Hi) as Hcols.
  assert (Hp : p ∈ Frame.columns (<[i := alias s p]> f)).
  { rewrite Hcols. by eapply list_elem_of_lookup_2. }
  destruct (column_of_name _ p Hp) as (c & Hc & Hn & Hin).
  rewrite Hc. f_equal.
  apply list_elem_of_lookup in Hin as [j Hj].
  assert (Hj' : Frame.columns (<[i := alias s p]> f) !! j = Some p).
  { unfold Frame.columns. by rewrite list_lookup_fmap, Hj, <- Hn. }
  rewrite Hcols in Hj'.
  pose proof (NoDup_lookup _ i j p Hnd Hi Hj') as <-.
  assert (Hlt : i < length f).
  { apply lookup_lt_Some in Hi. unfold Frame.columns in Hi.
    by rewrite length_fmap in Hi. }
  rewrite list_lookup_insert_eq in Hj by done. by injection Hj as <-.
Qed.

Lemma can_replace_alias (f : list Series) (i : nat) (s : Series) p :
  NoDup (Frame.columns f) →
  Frame.columns f !! i = Some p →
  length (values s) = Frame.height f →
  can_replace i (alias s p) f = true.
Proof.
  intros Hnd Hi Hlen. unfold can_replace, has_column.
  assert (Hlt : i < Frame.width f).
  { apply lookup_lt_Some in Hi. unfold Frame.columns, Frame.width in *.
    by rewrite length_fmap in Hi. }
  apply andb_true_intro. split; [apply andb_true_intro; split|].
  - by apply Nat.ltb_lt.
  - simpl. by apply Nat.eqb_eq.
  - apply negb_true_iff, bool_decide_eq_false. cbn [alias name].
    unfold Frame.columns. rewrite list_fmap_delete.
    by apply NoDup_delete_notin.
Qed.

Lemma runs_get_column_name (ToNumber : string → Number) (target : DataFrame)
    st (f : list Series) s c out :
  st !! _df target = Some f →
  s ∈ Frame.columns f →
  Frame.column f s = Some c →
  runs (handler.get ToNumber target (PString s)) st out
  ↔ out = (Ok (ColumnValue c), st).
Proof.
  intros Hf Hs Hc. unfold handler.get. rewrite runs_bind. split.
  - intros (r & st' & Hcols & Hrest).
    apply (runs_get_columns target st f _ Hf) in Hcols.
    injection Hcols as -> ->.
    rewrite bool_decide_eq_true_2 in Hrest by done.
    apply runs_bind in Hrest as (r1 & st1 & Hcol & Hret).
    apply (runs_getColumn target st f s c _ Hf Hc) in Hcol.
    injection Hcol as -> ->. exact Hret.
  - intros ->. exists (Ok (Frame.columns f)), st.
    split; [by apply (runs_get_columns target st f)|].
    rewrite bool_decide_eq_true_2 by done.
    apply runs_bind. exists (Ok c), st.
    split; [by apply (runs_getColumn target st f s c)|done].
Qed.

Lemma runs_with_column_names {A} (this : DataFrame)
    (k : list string → Prog A) st (f : list Series) out :
  st !! _df this = Some f →
  runs (let* cols := df.get_columns this in k cols) st out
  ↔ runs (k (Frame.columns f)) st out.
Proof.
  intros Hf. rewrite runs_bind. split.
  - intros (r & st' & Hc & Hk).
    apply (runs_get_columns this st f _ Hf) in Hc. by injection Hc as -> ->.
  - intros Hk. exists (Ok (Frame.columns f)), st.
    split; [by apply (runs_get_columns this st f)|done].
Qed.

Lemma runs_replaceAtIdx (this : DataFrame) st (f : list Series) idx i s out :
  st !! _df this = Some f →
  as_index idx = Some i →
  can_replace i s f = true →
  runs (df.replaceAtIdx this idx s) st out
  ↔ out = (Ok this, <[_df this := <[i := s]> f]> st).
Proof.
  intros Hf Hidx Hcan. unfold df.replaceAtIdx. rewrite runs_bind.
  setoid_rewrite runs_call. cbn [step]. unfold on_frame.
  rewrite Hf, Hidx, Hcan. unfold replace_column. split.
  - intros (r & st' & [= -> ->] & Hret). exact Hret.
  - intros ->. eexists (Ok tt), _. split; reflexivity.
Qed.

(** X9. Assigning a Series of the frame's height to the property named
    like column [i] replaces that column, in place, by the Series under
    the column's name: the column names stay as they were, and reading the
    property back through the Proxy yields the assigned values under that
    name. *)
Theorem proxy_set_then_get (ToNumber : string → Number)
    (set_columns : nat → AssignedValue → Prog unit)
    (target : DataFrame) st (f : list Series) (i : nat) (p : string)
    (s : Series) :
  st !! _df target = Some f →
  NoDup (Frame.columns f) →
  Frame.columns f !! i = Some p →
  length (values s) = Frame.height f →
  (∀ out, runs (proxy.set set_columns target (PString p) (SeriesValue s))
               st out
          ↔ out = (Ok ColumnReplaced,
                   <[_df target := <[i := alias s p]> f]> st))
  ∧ Frame.columns (<[i := alias s p]> f) = Frame.columns f
  ∧ (∀ out, runs (handler.get ToNumber target (PString p))
                 (<[_df target := <[i := alias s p]> f]> st) out
            ↔ out = (Ok (ColumnValue (alias s p)),
                     <[_df target := <[i := alias s p]> f]> st)).
Proof.
  intros Hf Hnd Hi Hlen.
  assert (Hp : p ∈ Frame.columns f) by by eapply list_elem_of_lookup_2.
  assert (Hh : _df target < length st) by by eapply lookup_lt_Some.
  split; [|split].
  - intros out. unfold proxy.set.
    rewrite (runs_with_column_names target _ st f out Hf).
    rewrite bool_decide_eq_true_2 by done.
    rewrite (runs_with_column_names target _ st f out Hf).
    rewrite (indexOf_lookup _ i p Hnd Hi). rewrite runs_bind.
    pose proof (can_replace_alias f i s p Hnd Hi Hlen) as Hcan.
    split.
    + intros (r & st' & Hrep & Hout).
      apply (runs_replaceAtIdx target st f _ i _ _ Hf (as_index_of_nat i) Hcan)
        in Hrep.
      injection Hrep as -> ->. exact Hout.
    + intros ->. eexists (Ok target), _. split; [|reflexivity].
      by apply (runs_replaceAtIdx target st f _ i _ _ Hf
                  (as_index_of_nat i) Hcan).
  - by apply columns_replace_same.
  - intros out. apply (runs_get_column_name ToNumber target _
                         (<[i := alias s p]> f)).
    + by apply list_lookup_insert_eq.
    + by rewrite columns_replace_same.
    + by apply column_after_replace.
Qed.

Lemma proxy_set_then_get_witness :
  runs (proxy.set (fun _ _ => Ret tt) (_DataFrame 0) (PString "b")
          (SeriesValue (mkSeries "other" Int64 (Examples.ints [7; 8]%Z))))
       [Examples.two_columns]
       (Ok ColumnReplaced,
        [[mkSeries "a" Int64 (Examples.ints [1; 2]%Z);
          mkSeries "b" Int64 (Examples.ints [7; 8]%Z)]])
  ∧ runs (handler.get Examples.decimal (_DataFrame 0) (PString "b"))
         [[mkSeries "a" Int64 (Examples.ints [1; 2]%Z);
           mkSeries "b" Int64 (Examples.ints [7; 8]%Z)]]
         (Ok (ColumnValue (mkSeries "b" Int64 (Examples.ints [7; 8]%Z))),
          [[mkSeries "a" Int64 (Examples.ints [1; 2]%Z);
            mkSeries "b" Int64 (Examples.ints [7; 8]%Z)]]).
Proof.
  assert (Hnd : NoDup (Frame.columns Examples.two_columns)).
  { apply (bool_decide_unpack _). vm_compute. exact I. }
  destruct (proxy_set_then_get Examples.decimal (fun _ _ => Ret tt)
              (_DataFrame 0)
              [Examples.two_columns] Examples.two_columns 1 "b"
              (mkSeries "other" Int64 (Examples.ints [7; 8]%Z))
              eq_refl Hnd eq_refl eq_refl) as (Hset & _ & Hget).
  split; [by apply Hset|by apply Hget].
Defined.

(** X10. When the assigned value is not a Series, or when the property is
    not the name of a column, the [set] trap replaces no column and adds
    none: it reads the column names at most and hands the assignment to
    [Reflect.set] on the wrapper object.  For every property but
    ["columns"] that leaves the native frame as it is, so that assigning a
    Series under a new name does not add a column; for ["columns"] it runs
    the setter of the column names on the native frame. *)
Theorem proxy_set_is_reflected
    (set_columns : nat → AssignedValue → Prog unit) (target : DataFrame)
    st (f : list Series) (prop : PropertyKey) (v : AssignedValue) :
  st !! _df target = Some f →
  v = OtherValue ∨ (∀ p, prop = PString p → p ∉ Frame.columns f) →
  (prop ≠ PString "columns" →
   ∀ out, runs (proxy.set set_columns target prop v) st out
          ↔ out = (Ok (ReflectSet prop), st))
  ∧ (prop = PString "columns" →
     ∀ out, runs (proxy.set set_columns target prop v) st out
            ↔ runs (set_columns (_df target) v >> Ret (ReflectSet prop))
                   st out).
Proof.
  intros Hf Hcase.
  assert (Hfall : ∀ out, runs (proxy.set set_columns target prop v) st out
                         ↔ runs (proxy.Reflect_set set_columns target prop v)
                                st out).
  { intros out. unfold proxy.set.
    destruct v as [s|]; [|done]. destruct prop as [p|d]; [|done].
    destruct Hcase as [[=]|Hp].
    rewrite (runs_with_column_names target _ st f out Hf).
    by rewrite bool_decide_eq_false_2 by by apply Hp. }
  split.
  - intros Hprop out. rewrite Hfall. unfold proxy.Reflect_set.
    destruct prop as [p|d]; [|done].
    destruct (String.eqb_spec p "columns") as [->|_]; done.
  - intros -> out. rewrite Hfall. done.
Qed.

Lemma proxy_set_is_reflected_witness :
  runs (proxy.set (fun _ _ => Ret tt) (_DataFrame 0) (PString "c")
          (SeriesValue (mkSeries "c" Int64 (Examples.ints [7; 8]%Z))))
       [Examples.two_columns]
       (Ok (ReflectSet (PString "c")), [Examples.two_columns]).
Proof.
  assert (Hc : ∀ p, PString "c" = PString p →
                    p ∉ Frame.columns Examples.two_columns).
  { intros p [= <-]. not_a_column. }
  apply (proj1 (proxy_set_is_reflected (fun _ _ => Ret tt) (_DataFrame 0)
                  [Examples.two_columns] Examples.two_columns (PString "c")
                  (SeriesValue (mkSeries "c" Int64 (Examples.ints [7; 8]%Z)))
                  eq_refl (or_intror Hc))).
  - discriminate.
  - reflexivity.
Defined.

(** X11. The traps agree on the columns.  For a column name, [in] is
    true, the property descriptor is configurable and enumerable and holds
    the column, and a read yields the same column.  For any other string
    [in] is false, also for the names of the wrapper's own members, and
    asking for the property descriptor throws instead of answering
    [undefined]. *)
Theorem proxy_traps_agree (ToNumber : string → Number) (target : DataFrame)
    st (f : list Series) :
  st !! _df target = Some f →
  (∀ k, k ∈ Frame.columns f →
        ∃ c, Frame.column f k = Some c
             ∧ (∀ out, runs (handler.has target (PString k)) st out
                       ↔ out = (Ok true, st))
             ∧ (∀ out, runs (handler.getOwnPropertyDescriptor target k) st out
                       ↔ out = (Ok (mkDescriptor true true c), st))
             ∧ (∀ out, runs (handler.get ToNumber target (PString k)) st out
                       ↔ out = (Ok (ColumnValue c), st)))
  ∧ (∀ k, k ∉ Frame.columns f →
          (∀ out, runs (handler.has target (PString k)) st out
                  ↔ out = (Ok false, st))
          ∧ (∀ out, runs (handler.getOwnPropertyDescriptor target k) st out
                    ↔ out = (Err (NativeError ColumnNotFound), st)))
  ∧ (∀ out, runs (handler.has target (PSymbol "Jupyter.display")) st out
            ↔ out = (Ok true, st)).
Proof.
  intros Hf. split; [|split].
  - intros k Hk. destruct (column_of_name f k Hk) as (c & Hc & _ & _).
    exists c. split; [done|]. split; [|split].
    + intros out. unfold handler.has.
      rewrite (runs_with_column_names target _ st f out Hf).
      by rewrite bool_decide_eq_true_2.
    + intros out. unfold handler.getOwnPropertyDescriptor.
      rewrite runs_bind. split.
      * intros (r & st' & Hcol & Hret).
        apply (runs_getColumn target st f k c _ Hf Hc) in Hcol.
        injection Hcol as -> ->. exact Hret.
      * intros ->. exists (Ok c), st.
        split; [by apply (runs_getColumn target st f k c)|done].
    + intros out. by apply (runs_get_column_name ToNumber target st f).
  - intros k Hk. split.
    + intros out. unfold handler.has.
      rewrite (runs_with_column_names target _ st f out Hf).
      by rewrite bool_decide_eq_false_2.
    + intros out. unfold handler.getOwnPropertyDescriptor, df.getColumn.
      rewrite runs_bind. setoid_rewrite runs_call. cbn [step].
      unfold on_frame. rewrite Hf, (column_not_found f k Hk). split.
      * intros (r & st' & [= -> ->] & Hret). exact Hret.
      * intros ->. eexists _, _. split; reflexivity.
  - intros out. done.
Qed.

Lemma proxy_traps_agree_witness :
  runs (handler.has (_DataFrame 0) (PString "a")) [Examples.two_columns]
       (Ok true, [Examples.two_columns])
  ∧ runs (handler.has (_DataFrame 0) (PString "height"))
         [Examples.two_columns] (Ok false, [Examples.two_columns])
  ∧ runs (handler.getOwnPropertyDescriptor (_DataFrame 0) "height")
         [Examples.two_columns]
         (Err (NativeError ColumnNotFound), [Examples.two_columns]).
Proof.
  destruct (proxy_traps_agree Examples.decimal (_DataFrame 0)
              [Examples.two_columns] Examples.two_columns eq_refl)
    as (Hcol & Hother & _).
  assert (Ha : "a" ∈ Frame.columns Examples.two_columns).
  { apply list_elem_of_In. simpl. tauto. }
  assert (Hh : "height" ∉ Frame.columns Examples.two_columns).
  { intros Hin. apply list_elem_of_In in Hin. simpl in Hin.
    destruct Hin as [[=]|[[=]|[]]]. }
  destruct (Hcol "a" Ha) as (c & _ & Hhas & _).
  destruct (Hother "height" Hh) as (Hhas' & Hdesc).
  split; [by apply Hhas|]. split; [by apply Hhas'|by apply Hdesc].
Defined.

(** ** withColumnRenamed and shiftAndFill *)

Lemma entries_singleton {V} (k : string) (v : V) :
  Js.entries [(k, v)] = [(k, v)].
Proof.
  unfold Js.entries, Js.keys, Js.key_order. cbn [fmap list_fmap fst List.filter].
  destruct (Js.is_array_index k); cbn [negb List.filter app Js.sort_by_index
    foldr Js.insert_by_index omap list_omap];
    unfold Js.get; cbn [List.find fst]; by rewrite String.eqb_refl.
Qed.

Lemma insert_last {A} (l : list A) (x y : A) :
  <[length l := y]> (l ++ [x]) = l ++ [y].
Proof.
  rewrite insert_app_r_alt by lia. by rewrite Nat.sub_diag.
Qed.

Lemma lookup_last {A} (l : list A) (x : A) : (l ++ [x]) !! length l = Some x.
Proof. rewrite lookup_app_r by lia. by rewrite Nat.sub_diag. Qed.

Lemma columns_rename_column existing replacement (f : list Series) :
  Frame.columns (rename_column existing replacement f)
  = (fun n => if String.eqb n existing then replacement else n)
      <$> Frame.columns f.
Proof.
  unfold Frame.columns, rename_column. rewrite <- !list_fmap_compose.
  apply list_fmap_ext. intros i s _. simpl.
  by destruct (String.eqb (name s) existing).
Qed.

(** [this.clone()] on a frame that is there, followed by what is done
    with the clone. *)
Lemma runs_cloned {A} (this : DataFrame) (k : DataFrame → Prog A) st
    (f : list Series) out :
  st !! _df this = Some f →
  runs (let* d := method_call "this" this "clone" (df.clone this) in k d)
       st out
  ↔ if bool_decide ("clone" ∈ Frame.columns f)
    then out = (Err (not_a_function "this" "clone"), st)
    else runs (k (_DataFrame (length st))) (st ++ [f]) out.
Proof.
  intros Hf. rewrite runs_bind.
  assert (Hclone : ∀ o, runs (df.clone this) st o
                        ↔ o = (Ok (_DataFrame (length st)), st ++ [f])).
  { intros o. unfold df.clone. rewrite runs_wrap. cbn [step].
    unfold on_frame, alloc. rewrite Hf. split.
    - intros (r & st' & [= -> ->] & ->). done.
    - intros ->. eauto. }
  case_bool_decide as Hc.
  - split.
    + intros (r & st' & Hcall & Hrest).
      rewrite (runs_method_call_column "this" this "clone" _ st f _ Hf Hc)
        in Hcall.
      by injection Hcall as -> ->.
    + intros ->. exists (Err (not_a_function "this" "clone")), st.
      split; [|done].
      by rewrite (runs_method_call_column "this" this "clone" _ st f _ Hf Hc).
  - split.
    + intros (r & st' & Hcall & Hrest).
      rewrite (runs_method_call_own "this" this "clone" _ st f _ Hf Hc)
        in Hcall.
      apply Hclone in Hcall. by injection Hcall as -> ->.
    + intros Hrest. exists (Ok (_DataFrame (length st))), (st ++ [f]).
      split; [|done].
      rewrite (runs_method_call_own "this" this "clone" _ st f _ Hf Hc).
      by apply Hclone.
Qed.

(** [df.inner()] on the clone at the end of the store. *)
Lemma runs_clone_inner {A} st (g : list Series) (body : Prog A) out :
  runs (method_call "df" (_DataFrame (length st)) "inner" body) (st ++ [g]) out
  ↔ if bool_decide ("inner" ∈ Frame.columns g)
    then out = (Err (not_a_function "df" "inner"), st ++ [g])
    else runs body (st ++ [g]) out.
Proof.
  assert (Hg : (st ++ [g]) !! _df (_DataFrame (length st)) = Some g)
    by apply lookup_last.
  case_bool_decide as Hi.
  - by apply runs_method_call_column with (f := g).
  - by apply runs_method_call_own with (f := g).
Qed.

Lemma runs_rename_one (this : DataFrame) st (f : list Series)
    existing replacement out :
  st !! _df this = Some f →
  "clone" ∉ Frame.columns f →
  "inner" ∉ Frame.columns f →
  runs (df.rename this [(existing, replacement)]) st out
  ↔ out = (if has_column f existing then
             if (negb (String.eqb replacement existing)
                 && has_column f replacement)%bool
             then (Err (NativeError DuplicateColumn), st ++ [f])
             else (Ok (_DataFrame (length st)),
                   st ++ [rename_column existing replacement f])
           else (Err (NativeError ColumnNotFound), st ++ [f])).
Proof.
  intros Hf Hc Hi. unfold df.rename. rewrite entries_singleton.
  rewrite (runs_cloned this _ st f out Hf).
  rewrite bool_decide_eq_false_2 by done. cbn [for_of inner _df fst snd].
  assert (Hstep : ∀ o, runs (method_call "df" (_DataFrame (length st)) "inner"
                               (call (NRename (length st) existing
                                        replacement)))
                            (st ++ [f]) o
                       ↔ o = (if has_column f existing then
                                if (negb (String.eqb replacement existing)
                                    && has_column f replacement)%bool
                                then fail DuplicateColumn (st ++ [f])
                                else (Ok tt,
                                      st ++ [rename_column existing
                                               replacement f])
                              else fail ColumnNotFound (st ++ [f]))).
  { intros o. rewrite runs_clone_inner.
    rewrite bool_decide_eq_false_2 by done.
    rewrite runs_call. cbn [step]. unfold on_frame.
    rewrite lookup_last, insert_last.
    destruct (has_column f existing);
      [destruct (negb (String.eqb replacement existing)
                 && has_column f replacement)%bool|]; reflexivity. }
  split.
  - intros Hloop.
    apply runs_bind in Hloop as (r2 & st2 & Hfor & Hout).
    apply runs_bind in Hfor as (r3 & st3 & Hren & Hrest).
    apply Hstep in Hren.
    destruct (has_column f existing);
      [destruct (negb (String.eqb replacement existing)
                 && has_column f replacement)%bool|];
      injection Hren as -> ->; simpl in Hrest;
      injection Hrest as -> ->; exact Hout.
  - intros Hout. apply runs_bind.
    destruct (has_column f existing) eqn:Hex;
      [destruct (negb (String.eqb replacement existing)
                 && has_column f replacement)%bool eqn:Hdup|].
    + exists (Err (NativeError DuplicateColumn)), (st ++ [f]).
      split; [|done]. apply runs_bind.
      exists (Err (NativeError DuplicateColumn)), (st ++ [f]).
      split; [|done]. apply Hstep. rewrite ?Hex, ?Hdup. reflexivity.
    + exists (Ok tt), (st ++ [rename_column existing replacement f]).
      split; [|done]. apply runs_bind.
      exists (Ok tt), (st ++ [rename_column existing replacement f]).
      split; [|done]. apply Hstep. rewrite ?Hex, ?Hdup. reflexivity.
    + exists (Err (NativeError ColumnNotFound)), (st ++ [f]).
      split; [|done]. apply runs_bind.
      exists (Err (NativeError ColumnNotFound)), (st ++ [f]).
      split; [|done]. apply Hstep. rewrite ?Hex. reflexivity.
Qed.

Lemma withColumnRenamed_program (this : DataFrame)
    (existing replacement : string) (opt : RenamedArg) (r : string) :
  (opt = Existing existing ∧ r = replacement)
  ∨ opt = RenamedOptions existing replacement →
  df_methods.withColumnRenamed this opt r
  = method_call "this" this "rename"
      (df.rename this [(existing, replacement)]).
Proof. by intros [[-> ->]| ->]. Qed.

(** X12. Both ways of calling [withColumnRenamed] (two names, or the
    object [{existing, replacement}]) behave alike.  On a frame without
    columns named ["rename"], ["clone"] or ["inner"]: when the frame has
    the column and the new name is free, the result is a new frame in
    which that column alone bears the new name, all columns keeping their
    position, dtype and values, and the receiver keeps its frame; when the
    frame has no such column the call fails with the native error.  With a
    column named ["rename"], or else ["clone"], the call throws the
    TypeError of calling a column and nothing is changed. *)
Theorem withColumnRenamed_renames (this : DataFrame) st (f : list Series)
    (existing replacement : string) (opt : RenamedArg) (r : string) :
  st !! _df this = Some f →
  (opt = Existing existing ∧ r = replacement)
  ∨ opt = RenamedOptions existing replacement →
  ("rename" ∉ Frame.columns f → "clone" ∉ Frame.columns f →
   "inner" ∉ Frame.columns f →
   (existing ∈ Frame.columns f →
    replacement = existing ∨ replacement ∉ Frame.columns f →
    ∀ out, runs (df_methods.withColumnRenamed this opt r) st out
           ↔ out = (Ok (_DataFrame (length st)),
                    st ++ [rename_column existing replacement f]))
   ∧ (existing ∉ Frame.columns f →
      ∀ out, runs (df_methods.withColumnRenamed this opt r) st out
             ↔ out = (Err (NativeError ColumnNotFound), st ++ [f])))
  ∧ ("rename" ∈ Frame.columns f →
     ∀ out, runs (df_methods.withColumnRenamed this opt r) st out
            ↔ out = (Err (not_a_function "this" "rename"), st))
  ∧ ("rename" ∉ Frame.columns f → "clone" ∈ Frame.columns f →
     ∀ out, runs (df_methods.withColumnRenamed this opt r) st out
            ↔ out = (Err (not_a_function "this" "clone"), st))
  ∧ Frame.columns (rename_column existing replacement f)
    = (fun n => if String.eqb n existing then replacement else n)
        <$> Frame.columns f
  ∧ (st ++ [rename_column existing replacement f]) !! _df this = Some f.
Proof.
  intros Hf Hopt.
  rewrite (withColumnRenamed_program this existing replacement opt r Hopt).
  split; [|split; [|split; [|split]]].
  - intros Hr Hc Hi. split.
    + intros Hex Hfree out.
      rewrite (runs_method_call_own "this" this "rename" _ st f _ Hf Hr).
      rewrite (runs_rename_one this st f _ _ out Hf Hc Hi).
      unfold has_column. rewrite bool_decide_eq_true_2 by done.
      destruct Hfree as [->|Hfree].
      * by rewrite String.eqb_refl.
      * rewrite (bool_decide_eq_false_2 _ Hfree). by rewrite andb_false_r.
    + intros Hex out.
      rewrite (runs_method_call_own "this" this "rename" _ st f _ Hf Hr).
      rewrite (runs_rename_one this st f _ _ out Hf Hc Hi).
      unfold has_column. by rewrite bool_decide_eq_false_2.
  - intros Hr out.
    by apply (runs_method_call_column "this" this "rename" _ st f).
  - intros Hr Hc out.
    rewrite (runs_method_call_own "this" this "rename" _ st f _ Hf Hr).
    unfold df.rename. rewrite (runs_cloned this _ st f out Hf).
    by rewrite bool_decide_eq_true_2.
  - apply columns_rename_column.
  - rewrite lookup_app_l; [done|]. by eapply lookup_lt_Some.
Qed.

Lemma withColumnRenamed_renames_witness :
  runs (df_methods.withColumnRenamed (_DataFrame 0) (Existing "a") "c")
       [Examples.two_columns]
       (Ok (_DataFrame 1), [Examples.two_columns; Examples.renamed])
  ∧ runs (df_methods.withColumnRenamed (_DataFrame 0)
            (RenamedOptions "a" "c") "ignored")
         [Examples.two_columns]
         (Ok (_DataFrame 1), [Examples.two_columns; Examples.renamed]).
Proof.
  assert (Ha : "a" ∈ Frame.columns Examples.two_columns).
  { apply list_elem_of_In. simpl. tauto. }
  assert (Hc : "c" = "a" ∨ "c" ∉ Frame.columns Examples.two_columns).
  { right. not_a_column. }
  assert (Hr : "rename" ∉ Frame.columns Examples.two_columns)
    by not_a_column.
  assert (Hcl : "clone" ∉ Frame.columns Examples.two_columns)
    by not_a_column.
  assert (Hi : "inner" ∉ Frame.columns Examples.two_columns)
    by not_a_column.
  split.
  - apply (proj1 (proj1 (withColumnRenamed_renames (_DataFrame 0)
                           [Examples.two_columns] Examples.two_columns
                           "a" "c" (Existing "a") "c" eq_refl
                           (or_introl (conj eq_refl eq_refl)))
                    Hr Hcl Hi) Ha Hc).
    reflexivity.
  - apply (proj1 (proj1 (withColumnRenamed_renames (_DataFrame 0)
                           [Examples.two_columns] Examples.two_columns
                           "a" "c" (RenamedOptions "a" "c") "ignored" eq_refl
                           (or_intror eq_refl))
                    Hr Hcl Hi) Ha Hc).
    reflexivity.
Defined.

(** X13. Called with a number of periods, [shiftAndFill] hands the periods
    and the fill value to the lazy pipeline only when the fill value is
    truthy, and then agrees with the call on the object [{n, fillValue}];
    with the fill value 0 or NaN, or without one, it hands over
    [undefined] for both, the periods included. *)
Theorem shiftAndFill_falsy_fill_value
    (lazy_shiftAndFill : nat → option Number → option Number → Prog DataFrame)
    (this : DataFrame) (n : Number) :
  (∀ fv, number_truthy fv = true →
         df_methods.shiftAndFill lazy_shiftAndFill this (ShiftPeriods n)
           (Some fv)
         = lazy_shiftAndFill (_df this) (Some n) (Some fv)
         ∧ df_methods.shiftAndFill lazy_shiftAndFill this
             (ShiftOptions (Some n) (Some fv)) None
           = lazy_shiftAndFill (_df this) (Some n) (Some fv))
  ∧ (∀ fv, (fv = None ∨ fv = Some NaN ∨ ∃ q, fv = Some (Finite q) ∧ q == 0) →
           df_methods.shiftAndFill lazy_shiftAndFill this (ShiftPeriods n) fv
           = lazy_shiftAndFill (_df this) None None).
Proof.
  split.
  - intros fv Hfv. unfold df_methods.shiftAndFill. by rewrite Hfv.
  - intros fv [->|[->|(q & -> & Hq)]]; [done|done|].
    unfold df_methods.shiftAndFill, number_truthy.
    apply Qeq_bool_iff in Hq. by rewrite Hq.
Qed.

(** ** What makes pivot and join throw *)

Lemma lookup_aggregate_None (s : string) :
  lookup_aggregate s = None
  ↔ (s ∉ known_aggregates) ∧ Js.inherited s = false.
Proof.
  split.
  - intros Hl. split.
    + intros Hin. unfold known_aggregates in Hin.
      repeat (apply elem_of_cons in Hin as [->|Hin]; [discriminate Hl|]).
      by apply elem_of_nil in Hin.
    + unfold lookup_aggregate in Hl.
      destruct (Js.get pivot_aggregates s); [done|].
      by destruct (Js.inherited s).
  - intros [Hs Hi]. unfold lookup_aggregate.
    by rewrite (get_pivot_aggregates_None s Hs), Hi.
Qed.

(** X14. [pivot] throws before it reaches the native layer in exactly two
    situations: when it is called without options, with the TypeError of
    destructuring [undefined], and when [aggregateFunc] is a string that
    is neither one of the eight aggregate names nor the name of a member
    of [Object.prototype], with "Unknown aggregate function". *)
Theorem pivot_throws_iff (this : DataFrame)
    (values : option (ValueOrArray string)) (options : option PivotOptions)
    (e : Exception) :
  df.pivot this values options = Throw e
  ↔ (options = None ∧ e = cannot_destructure)
    ∨ (∃ o s, options = Some o
              ∧ aggregateFunc o = Some (AggName s)
              ∧ (s ∉ known_aggregates)
              ∧ Js.inherited s = false
              ∧ e = unknown_aggregate s).
Proof.
  destruct options as [o|]; cbn [df.pivot]; unfold wrap.
  - destruct (aggregateFunc o) as [[s|ex]|] eqn:Hagg;
      cbn [default from_option id].
    + destruct (lookup_aggregate s) as [fn|] eqn:Hl.
      * split; [intros [=]|]. intros [[[=] _]|(o' & s' & [= <-] & Hs & Hk & Hi & _)].
        rewrite Hagg in Hs. injection Hs as <-.
        assert (lookup_aggregate s = None) by by apply lookup_aggregate_None.
        congruence.
      * apply lookup_aggregate_None in Hl as [Hk Hi]. split.
        -- intros [= <-]. right. exists o, s. done.
        -- intros [[[=] _]|(o' & s' & [= <-] & Hs & _ & _ & ->)].
           rewrite Hagg in Hs. by injection Hs as <-.
    + split; [intros [=]|]. intros [[[=] _]|(o' & s' & [= <-] & Hs & _)].
      rewrite Hagg in Hs. done.
    + split; [intros [=]|]. intros [[[=] _]|(o' & s' & [= <-] & Hs & _)].
      rewrite Hagg in Hs. done.
  - split.
    + intros [= <-]. by left.
    + intros [[_ ->]|(o' & s' & [=] & _)]. done.
Qed.

(** X15. [join] throws before it reaches the native layer in exactly one
    situation: the join is not a cross join, [on] is not given, and of
    [leftOn] and [rightOn] exactly one is given; the error then is the
    TypeError "You should pass the column to join on as an argument.". *)
Theorem join_throws_iff (this other : DataFrame) (o : JoinOptions)
    (e : Exception) :
  df.join this other o = Throw e
  ↔ default "inner" (how o) ≠ "cross"
    ∧ columnOrColumns (on o) = None
    ∧ (is_Some (columnOrColumns (leftOn o))
       ↔ columnOrColumns (rightOn o) = None)
    ∧ e = pass_the_column.
Proof.
  unfold df.join.
  destruct (String.eqb_spec (default "inner" (how o)) "cross") as [Hc|Hc].
  { split; [done|]. by intros [? _]. }
  destruct (columnOrColumns (on o)) as [l|].
  { rewrite !is_Some_Some_true. cbn [andb orb negb].
    split; [done|]. by intros (_ & [=] & _). }
  destruct (columnOrColumns (leftOn o)) as [l|],
           (columnOrColumns (rightOn o)) as [r|];
    rewrite ?is_Some_Some_true, ?is_Some_None_false; cbn [andb orb negb].
  - split; [done|]. intros (_ & _ & [H _] & _).
    by specialize (H (ltac:(eauto))).
  - split.
    + intros [= <-]. done.
    + by intros (_ & _ & _ & ->).
  - split.
    + intros [= <-]. repeat split; done.
    + by intros (_ & _ & _ & ->).
  - split; [done|]. intros (_ & _ & [_ H] & _).
    by destruct (H eq_refl) as [? [=]].
Qed.

(** ** drop and distinct *)

Lemma without_columns_nil (f : list Series) : without_columns [] f = f.
Proof.
  unfold without_columns. induction f as [|s f IH]; [done|].
  cbn [List.filter]. rewrite bool_decide_eq_false_2 by apply not_elem_of_nil.
  cbn [negb]. by rewrite IH.
Qed.

Lemma without_columns_cons n ns (f : list Series) :
  without_columns ns (drop_column n f) = without_columns (n :: ns) f.
Proof.
  unfold without_columns, drop_column. induction f as [|s f IH]; [done|].
  cbn [List.filter].
  destruct (String.eqb_spec (name s) n) as [Heq|Hne]; cbn [negb].
  - assert (Hin : name s ∈ n :: ns) by (rewrite Heq; apply list_elem_of_here).
    rewrite (bool_decide_eq_true_2 _ Hin). cbn [negb]. exact IH.
  - cbn [List.filter]. rewrite IH.
    assert (Hiff : bool_decide (name s ∈ ns) = bool_decide (name s ∈ n :: ns)).
    { apply bool_decide_ext. rewrite elem_of_cons. split; [by right|].
      by intros [Heq|H]. }
    by rewrite Hiff.
Qed.

Lemma drop_column_other n k (f : list Series) :
  k ≠ n → k ∈ Frame.columns f → k ∈ Frame.columns (drop_column n f).
Proof.
  intros Hne Hk. unfold Frame.columns, drop_column in *.
  apply list_elem_of_fmap in Hk as (s & -> & Hs).
  apply list_elem_of_fmap_2, list_elem_of_In, filter_In.
  split; [by apply list_elem_of_In|].
  apply negb_true_iff. by apply String.eqb_neq.
Qed.

Lemma drop_column_columns n k (f : list Series) :
  k ∈ Frame.columns (drop_column n f) → k ∈ Frame.columns f.
Proof.
  unfold Frame.columns, drop_column. intros Hk.
  apply list_elem_of_fmap in Hk as (s & -> & Hs).
  apply list_elem_of_In, filter_In in Hs as [Hs _].
  by apply list_elem_of_fmap_2, list_elem_of_In.
Qed.

Lemma runs_dropInPlace_loop st (ns : list string) :
  ∀ (g : list Series) out,
    NoDup ns →
    (∀ n, n ∈ ns → n ∈ Frame.columns g) →
    "inner" ∉ Frame.columns g →
    runs (for_of ns (fun n => method_call "df" (_DataFrame (length st)) "inner"
                                (call (NDropInPlace (length st) n) >> Ret tt)))
         (st ++ [g]) out
    ↔ out = (Ok tt, st ++ [without_columns ns g]).
Proof.
  induction ns as [|n ns IH]; intros g out Hnd Hin Hi.
  - cbn [for_of runs]. by rewrite without_columns_nil.
  - apply NoDup_cons in Hnd as [Hn Hnd].
    destruct (column_of_name g n (Hin n ltac:(by left))) as (c & Hc & _ & _).
    assert (Hstep : ∀ o, runs (method_call "df" (_DataFrame (length st))
                                 "inner"
                                 (call (NDropInPlace (length st) n) >> Ret tt))
                              (st ++ [g]) o
                         ↔ o = (Ok tt, st ++ [drop_column n g])).
    { intros o. rewrite runs_clone_inner.
      rewrite bool_decide_eq_false_2 by done.
      rewrite runs_bind. setoid_rewrite runs_call. cbn [step].
      unfold on_frame. rewrite lookup_last, Hc, insert_last. split.
      - intros (r & st' & [= -> ->] & Hret). exact Hret.
      - intros ->. eexists (Ok c), _. split; reflexivity. }
    assert (Hin' : ∀ k, k ∈ ns → k ∈ Frame.columns (drop_column n g)).
    { intros k Hk. apply drop_column_other; [|apply Hin; by right].
      intros ->. done. }
    assert (Hi' : "inner" ∉ Frame.columns (drop_column n g)).
    { intros H. by apply Hi, (drop_column_columns n). }
    cbn [for_of]. rewrite runs_bind. rewrite <- without_columns_cons. split.
    + intros (r & st' & Hfirst & Hrest). apply Hstep in Hfirst.
      injection Hfirst as -> ->. by apply (IH (drop_column n g)).
    + intros Hout. exists (Ok tt), (st ++ [drop_column n g]).
      split; [by apply Hstep|]. by apply (IH (drop_column n g)).
Qed.

Lemma drop_program (this : DataFrame) (names : list (ValueOrArray string)) :
  (∀ n, names ≠ [Single n]) →
  df.drop this names = drop_from_clone this (mjoin (flat <$> names)).
Proof.
  intros Hne. destruct names as [|[n|l] [|x rest]]; try reflexivity.
  by destruct (Hne n).
Qed.

Lemma runs_clone_drop_loop (this : DataFrame) st (f : list Series)
    (ns : list string) out :
  st !! _df this = Some f →
  NoDup ns →
  (∀ n, n ∈ ns → n ∈ Frame.columns f) →
  "clone" ∉ Frame.columns f →
  "inner" ∉ Frame.columns f →
  runs (drop_from_clone this ns) st out
  ↔ out = (Ok (_DataFrame (length st)), st ++ [without_columns ns f]).
Proof.
  intros Hf Hnd Hin Hc Hi. unfold drop_from_clone.
  rewrite (runs_cloned this _ st f out Hf).
  rewrite bool_decide_eq_false_2 by done. cbn [inner _df].
  rewrite runs_bind. split.
  - intros (r2 & st2 & Hfor & Hout).
    apply (runs_dropInPlace_loop st ns f _ Hnd Hin Hi) in Hfor.
    injection Hfor as -> ->. exact Hout.
  - intros ->. exists (Ok tt), (st ++ [without_columns ns f]).
    split; [by apply runs_dropInPlace_loop|done].
Qed.

(** X16. [drop] with names of columns the frame has, each given once,
    returns a new frame holding the other columns in their order, and
    leaves the receiver's frame as it was.  For a single name this is the
    native [drop].  For an array or several names it is a clone from which
    the names are dropped one by one, on a frame without columns named
    ["clone"] or ["inner"]; with a column named ["clone"] that way throws
    the TypeError of calling a column and changes nothing, and with a
    column named ["inner"] and a name to drop it throws after the clone
    has been made.  Without any name the result is a copy of the frame. *)
Theorem drop_removes_named_columns (this : DataFrame)
    (names : list (ValueOrArray string)) st (f : list Series) :
  st !! _df this = Some f →
  NoDup (mjoin (flat <$> names)) →
  (∀ n, n ∈ mjoin (flat <$> names) → n ∈ Frame.columns f) →
  ((∃ n, names = [Single n])
   ∨ (("clone" ∉ Frame.columns f) ∧ ("inner" ∉ Frame.columns f)) →
   ∀ out, runs (df.drop this names) st out
          ↔ out = (Ok (_DataFrame (length st)),
                   st ++ [without_columns (mjoin (flat <$> names)) f]))
  ∧ ((∀ n, names ≠ [Single n]) → "clone" ∈ Frame.columns f →
     ∀ out, runs (df.drop this names) st out
            ↔ out = (Err (not_a_function "this" "clone"), st))
  ∧ ((∀ n, names ≠ [Single n]) → "clone" ∉ Frame.columns f →
     "inner" ∈ Frame.columns f → mjoin (flat <$> names) ≠ [] →
     ∀ out, runs (df.drop this names) st out
            ↔ out = (Err (not_a_function "df" "inner"), st ++ [f]))
  ∧ (st ++ [without_columns (mjoin (flat <$> names)) f]) !! _df this = Some f
  ∧ (names = [] → without_columns (mjoin (flat <$> names)) f = f).
Proof.
  intros Hf Hnd Hin. split; [|split; [|split; [|split]]].
  - intros Hway out.
    assert (Hcase : (∃ n, names = [Single n]) ∨ (∀ n, names ≠ [Single n])).
    { destruct names as [|[n|l] [|x rest]]; eauto; by right. }
    destruct Hcase as [[n ->]|Hne].
    + cbn [df.drop]. rewrite runs_wrap. cbn [step]. unfold on_frame.
      rewrite Hf. unfold has_column.
      rewrite bool_decide_eq_true_2
        by (apply Hin; apply list_elem_of_In; simpl; tauto).
      cbn [fmap list_fmap flat mjoin list_join app].
      rewrite <- without_columns_cons, without_columns_nil. unfold alloc.
      split.
      * intros (r & st' & [= -> ->] & ->). done.
      * intros ->. eauto.
    + destruct Hway as [[n Hone]|[Hc Hi]]; [by destruct (Hne n)|].
      rewrite (drop_program this names Hne).
      by apply runs_clone_drop_loop.
  - intros Hne Hc out. rewrite (drop_program this names Hne).
    unfold drop_from_clone. rewrite (runs_cloned this _ st f out Hf).
    by rewrite bool_decide_eq_true_2.
  - intros Hne Hc Hi Hnames out. rewrite (drop_program this names Hne).
    unfold drop_from_clone. rewrite (runs_cloned this _ st f out Hf).
    rewrite bool_decide_eq_false_2 by done.
    destruct (mjoin (flat <$> names)) as [|n ns]; [done|].
    cbn [for_of inner _df]. split.
    + intros Hrun. apply runs_bind in Hrun as (r & st1 & Hloop & Hout).
      apply runs_bind in Hloop as (r2 & st2 & Hfirst & Hrest).
      apply runs_clone_inner in Hfirst.
      rewrite bool_decide_eq_true_2 in Hfirst by done.
      injection Hfirst as -> ->. injection Hrest as -> ->. exact Hout.
    + intros ->. apply runs_bind.
      exists (Err (not_a_function "df" "inner")), (st ++ [f]).
      split; [|done]. apply runs_bind.
      exists (Err (not_a_function "df" "inner")), (st ++ [f]).
      split; [|done]. apply runs_clone_inner.
      by rewrite bool_decide_eq_true_2.
  - rewrite lookup_app_l; [done|]. by eapply lookup_lt_Some.
  - intros ->. apply without_columns_nil.
Qed.

Lemma drop_removes_named_columns_witness :
  runs (df.drop (_DataFrame 0) [Multiple ["b"; "a"]]) [Examples.with_apple]
       (Ok (_DataFrame 1), [Examples.with_apple; [Examples.apple]])
  ∧ runs (df.drop (_DataFrame 0) [Single "a"]) [Examples.two_columns]
         (Ok (_DataFrame 1), [Examples.two_columns; Examples.dropped]).
Proof.
  split.
  - assert (Hnd : NoDup (mjoin (flat <$> [Multiple ["b"; "a"]]))).
    { apply (bool_decide_unpack _). vm_compute. exact I. }
    assert (Hin : ∀ n, n ∈ mjoin (flat <$> [Multiple ["b"; "a"]]) →
                       n ∈ Frame.columns Examples.with_apple).
    { intros n Hn. apply list_elem_of_In in Hn. simpl in Hn.
      apply list_elem_of_In. simpl. intuition. }
    assert (Hc : "clone" ∉ Frame.columns Examples.with_apple)
      by not_a_column.
    assert (Hi : "inner" ∉ Frame.columns Examples.with_apple)
      by not_a_column.
    by apply (proj1 (drop_removes_named_columns (_DataFrame 0)
                       [Multiple ["b"; "a"]] [Examples.with_apple]
                       Examples.with_apple eq_refl Hnd Hin)
                (or_intror (conj Hc Hi))).
  - assert (Hnd : NoDup (mjoin (flat <$> [Single "a"]))).
    { apply (bool_decide_unpack _). vm_compute. exact I. }
    assert (Hin : ∀ n, n ∈ mjoin (flat <$> [Single "a"]) →
                       n ∈ Frame.columns Examples.two_columns).
    { intros n Hn. apply list_elem_of_In in Hn. simpl in Hn.
      apply list_elem_of_In. simpl. intuition. }
    by apply (proj1 (drop_removes_named_columns (_DataFrame 0)
                       [Single "a"] [Examples.two_columns]
                       Examples.two_columns eq_refl Hnd Hin)
                (or_introl (ex_intro _ "a" eq_refl))).
Defined.

(** X17. [distinct] does not pass its [keep] argument on.  On a frame
    without a column named ["unique"] it has the outcomes of [unique] with
    [keep] left out, whatever was given for it, also ["last"]: the rows of
    the result are the first occurrences, unless the options object itself
    carries a [keep].  With a column named ["unique"] the call throws the
    TypeError of calling a column and nothing is changed. *)
Theorem distinct_ignores_keep (this : DataFrame) (opts : option UniqueOpts)
    (subset : option (ValueOrArray string)) (keep : option Keep)
    st (f : list Series) :
  st !! _df this = Some f →
  ("unique" ∉ Frame.columns f →
   (∀ out, runs (df.distinct this opts subset keep) st out
           ↔ runs (df.unique this opts subset None) st out)
   ∧ (∀ out, runs (df.distinct this opts subset keep) st out
             ↔ match unique_rows (unique_subset opts subset)
                       (unique_keep opts None) f with
               | Some u =>
                   ∃ f', (if unique_maintains_order opts then f' = u
                          else reordering u f')
                         ∧ out = (Ok (_DataFrame (length st)), st ++ [f'])
               | None => out = (Err (NativeError ColumnNotFound), st)
               end)
   ∧ ((∀ mo osubset k, opts ≠ Some (UniqueObject mo osubset (Some k))) →
      unique_keep opts None = KeepFirst))
  ∧ ("unique" ∈ Frame.columns f →
     ∀ out, runs (df.distinct this opts subset keep) st out
            ↔ out = (Err (not_a_function "this" "unique"), st)).
Proof.
  intros Hf. split.
  - intros Hu.
    assert (Hsame : ∀ out, runs (df.distinct this opts subset keep) st out
                           ↔ runs (df.unique this opts subset None) st out).
    { intros out. unfold df.distinct.
      by apply (runs_method_call_own "this" this "unique" _ st f). }
    split; [exact Hsame|]. split.
    + intros out. rewrite Hsame. by apply runs_unique.
    + intros Hopts. destruct opts as [[mo|mo osubset [k|]]|]; try reflexivity.
      by destruct (Hopts mo osubset k).
  - intros Hu out. unfold df.distinct.
    by apply (runs_method_call_column "this" this "unique" _ st f).
Qed.

Lemma distinct_ignores_keep_witness :
  runs (df.distinct (_DataFrame 0) (Some (UniqueFlag true))
          (Some (Multiple ["k"])) (Some KeepLast))
       [Examples.repeated]
       (Ok (_DataFrame 1), [Examples.repeated; Examples.distinct_rows]).
Proof.
  assert (Hu : "unique" ∉ Frame.columns Examples.repeated) by not_a_column.
  apply (proj1 (proj1 (distinct_ignores_keep (_DataFrame 0)
                         (Some (UniqueFlag true)) (Some (Multiple ["k"]))
                         (Some KeepLast) [Examples.repeated]
                         Examples.repeated eq_refl) Hu)).
  exact unique_example_runs.
Defined.

(** ** rename *)

Lemma runs_rename_loop st (es : list (string * string)) :
  ∀ (g : list Series) st',
    runs (for_of es (fun e => method_call "df" (_DataFrame (length st)) "inner"
                                (call (NRename (length st) e.1 e.2))))
         (st ++ [g]) (Ok tt, st') →
    st' = st ++ [rename_in_turn es g].
Proof.
  induction es as [|[k v] es IH]; intros g st' Hrun.
  - cbn in Hrun. by injection Hrun as ->.
  - cbn [for_of] in Hrun. apply runs_bind in Hrun as (r & st1 & Hstep & Hrest).
    apply runs_method_call_inv in Hstep as [Hstep|[e [= -> ->]]];
      [|discriminate Hrest].
    apply runs_call in Hstep. cbn [step fst snd] in Hstep.
    unfold on_frame in Hstep. rewrite lookup_last, insert_last in Hstep.
    destruct (has_column g k);
      [destruct (negb (String.eqb v k) && has_column g v)%bool|];
      injection Hstep as -> ->; try discriminate Hrest.
    cbn [rename_in_turn foldl fst snd]. by apply IH.
Qed.

(** X18. A [rename] that succeeds has applied the entries of its mapping
    one after the other, in the key order of the mapping, each to the
    result of the one before: its result is a new frame holding that
    chain of single renames, so that an entry can rename a column that an
    earlier entry has just named. *)
Theorem rename_applies_entries_in_turn (this : DataFrame)
    (mapping : Js.Object string) st (f : list Series) res st' :
  st !! _df this = Some f →
  runs (df.rename this mapping) st (Ok res, st') →
  res = _DataFrame (length st)
  ∧ st' = st ++ [rename_in_turn (Js.entries mapping) f].
Proof.
  intros Hf Hrun. unfold df.rename in Hrun.
  apply (runs_cloned this _ st f _ Hf) in Hrun.
  case_bool_decide; [discriminate Hrun|].
  cbn [inner _df] in Hrun.
  apply runs_bind in Hrun as (r2 & st3 & Hloop & Hret).
  destruct r2 as [[]|e]; [|discriminate Hret].
  apply runs_rename_loop in Hloop as ->.
  simpl in Hret. by injection Hret as <- <-.
Qed.

Lemma rename_applies_entries_in_turn_witness :
  runs (df.rename (_DataFrame 0) [("a", "b"); ("b", "c")])
       [Examples.left_frame]
       (Ok (_DataFrame 1),
        [Examples.left_frame; [mkSeries "c" Int64 (Examples.ints [1; 2]%Z)]])
  ∧ [Examples.left_frame; [mkSeries "c" Int64 (Examples.ints [1; 2]%Z)]]
    = [Examples.left_frame]
        ++ [rename_in_turn (Js.entries [("a", "b"); ("b", "c")])
              Examples.left_frame].
Proof.
  assert (Hrun : runs (df.rename (_DataFrame 0) [("a", "b"); ("b", "c")])
                   [Examples.left_frame]
                   (Ok (_DataFrame 1),
                    [Examples.left_frame;
                     [mkSeries "c" Int64 (Examples.ints [1; 2]%Z)]])).
  { unfold df.rename.
    apply (runs_cloned (_DataFrame 0) _ [Examples.left_frame]
             Examples.left_frame _ eq_refl).
    rewrite bool_decide_eq_false_2 by not_a_column.
    apply runs_bind. exists (Ok tt),
      [Examples.left_frame; [mkSeries "c" Int64 (Examples.ints [1; 2]%Z)]].
    split; [|reflexivity].
    change (Js.entries [("a", "b"); ("b", "c")])
      with [("a", "b"); ("b", "c")].
    cbn [for_of]. apply runs_bind.
    exists (Ok tt),
      [Examples.left_frame; [mkSeries "b" Int64 (Examples.ints [1; 2]%Z)]].
    split.
    { apply (runs_method_call_own "df" _ "inner" _ _ Examples.left_frame);
        [reflexivity|not_a_column|]. apply runs_call; reflexivity. }
    apply runs_bind.
    exists (Ok tt),
      [Examples.left_frame; [mkSeries "c" Int64 (Examples.ints [1; 2]%Z)]].
    split; [|reflexivity].
    apply (runs_method_call_own "df" _ "inner" _ _
             [mkSeries "b" Int64 (Examples.ints [1; 2]%Z)]);
      [reflexivity|not_a_column|]. apply runs_call; reflexivity. }
  split; [exact Hrun|].
  exact (proj2 (rename_applies_entries_in_turn (_DataFrame 0) _
                  [Examples.left_frame] Examples.left_frame _ _
                  eq_refl Hrun)).
Defined.
